(** * Recommender systems notebook (22_dsfs_recommender_systems.ipynb)

    A shallow embedding of the notebook's cells: the popularity baseline,
    the interest vectorizer, cosine similarity, the two similarity matrices
    and the user-based and item-based rankers.

    Numbers are the ones the notebook computes with.  Membership vectors are
    lists of Python ints, which numpy turns into 64-bit integers: [np.dot]
    and the product of two of its results wrap around on overflow.
    Similarities and accumulated weights are IEEE binary64 values, here
    Rocq's primitive [float]; a division by zero yields NaN or an infinity
    (numpy warns, it does not raise).  A list subscript raises [IndexError]
    outside [-len, len) and counts from the end on a negative index.
    Dictionaries keep their keys in insertion order, and [sorted] is stable.

    The notebook's table of users' interests is a literal; the cells are
    embedded as functions of the table, and [Notebook.users_interests] is
    the literal itself. *)

From Stdlib Require Import String Ascii ZArith List Bool Lia Floats.
From Stdlib Require Import Sorting.Sorted Sorting.Permutation.
Import ListNotations.

Set Warnings "-inexact-float".
Local Open Scope Z_scope.

(** ** Exceptions *)

Inductive result (A : Type) : Type :=
| Ok (a : A)
| IndexError.

Arguments Ok {A} a.
Arguments IndexError {A}.

Definition bind {A B : Type} (r : result A) (k : A -> result B) : result B :=
  match r with
  | Ok a => k a
  | IndexError => IndexError
  end.

Notation "x <- r ;; k" := (bind r (fun x => k))
  (at level 61, r at next level, right associativity).

Fixpoint mapM {A B : Type} (f : A -> result B) (l : list A) : result (list B) :=
  match l with
  | [] => Ok []
  | x :: l' => y <- f x ;; ys <- mapM f l' ;; Ok (y :: ys)
  end.

Fixpoint filterM {A : Type} (f : A -> result bool) (l : list A) : result (list A) :=
  match l with
  | [] => Ok []
  | x :: l' => b <- f x ;; ys <- filterM f l' ;; Ok (if b then x :: ys else ys)
  end.

Fixpoint foldM {A S : Type} (f : S -> A -> result S) (l : list A) (s : S) : result S :=
  match l with
  | [] => Ok s
  | x :: l' => s' <- f s x ;; foldM f l' s'
  end.

(** ** Python built-ins *)

(** [l[i]]: a negative index counts from the end, and an index outside
    [-len(l), len(l)) raises. *)
Definition getitem {A : Type} (l : list A) (i : Z) : result A :=
  let n := Z.of_nat (length l) in
  let j := if i <? 0 then i + n else i in
  if (0 <=? j) && (j <? n)
  then match nth_error l (Z.to_nat j) with
       | Some x => Ok x
       | None => IndexError
       end
  else IndexError.

(** [l[:k]]: a negative bound drops [-k] elements from the end. *)
Definition slice_to {A : Type} (l : list A) (k : Z) : list A :=
  if k <? 0
  then firstn (Z.to_nat (Z.of_nat (length l) + k)) l
  else firstn (Z.to_nat k) l.

Fixpoint enumerate_from {A : Type} (i : Z) (l : list A) : list (Z * A) :=
  match l with
  | [] => []
  | x :: l' => (i, x) :: enumerate_from (i + 1) l'
  end.

Definition enumerate {A : Type} (l : list A) : list (Z * A) := enumerate_from 0 l.

(** [m[i][j]]. *)
Definition getitem2 {A : Type} (m : list (list A)) (i j : Z) : result A :=
  row <- getitem m i ;; getitem row j.

(** The entries [m[i][i]] for [i] in [range(len(m))]. *)
Definition diagonal {A : Type} (m : list (list A)) : list (result A) :=
  map (fun p => getitem2 m (fst p) (fst p)) (enumerate m).

(** [x in l] on a list of strings. *)
Definition contains (l : list string) (x : string) : bool :=
  existsb (String.eqb x) l.

Section Sorting.
Context {A K : Type}.
Variable key : A -> K.
Variable lt : K -> K -> bool.

(** [sorted(l, key=key, reverse=True)].  Python's sort compares keys with
    [<] only and is stable, and [reverse=True] keeps that stability: among
    equal keys the earlier element of [l] stays first. *)
Fixpoint insert_reverse (x : A) (l : list A) : list A :=
  match l with
  | [] => [x]
  | y :: l' => if lt (key x) (key y) then y :: insert_reverse x l' else x :: l
  end.

Definition sorted_reverse (l : list A) : list A :=
  fold_right insert_reverse [] l.

(** [sorted(l, key=key)], ascending. *)
Fixpoint insert_sorted (x : A) (l : list A) : list A :=
  match l with
  | [] => [x]
  | y :: l' => if lt (key y) (key x) then y :: insert_sorted x l' else x :: l
  end.

Definition sorted (l : list A) : list A :=
  fold_right insert_sorted [] l.

(** What a stable descending sort guarantees of two elements [a] before
    [b] of its result: [b]'s key is not larger, and if the keys compare
    equal then [ord], the order of the input, puts [a] first. *)
Definition descending_stable (ord : A -> A -> Prop) (a b : A) : Prop :=
  lt (key a) (key b) = false /\ (lt (key b) (key a) = false -> ord a b).
End Sorting.

(** No string occurs twice. *)
Fixpoint all_distinct (l : list string) : bool :=
  match l with
  | [] => true
  | x :: l' => negb (contains l' x) && all_distinct l'
  end.

(** A set of strings, listed without repetition.  The notebook only ever
    sorts it, so the listing order of the set does not show. *)
Fixpoint set_of (l : list string) : list string :=
  match l with
  | [] => []
  | x :: l' => if contains l' x then set_of l' else x :: set_of l'
  end.

(** ** Dictionaries in insertion order *)

Section Dict.
Context {V : Type}.
Variable default : V.

(** [d[k] = f(d[k])] on a dictionary whose missing keys read [default]:
    a key already present keeps its place, a new key goes last. *)
Fixpoint dict_update (f : V -> V) (d : list (string * V)) (k : string)
  : list (string * V) :=
  match d with
  | [] => [(k, f default)]
  | (k', v) :: d' =>
      if String.eqb k' k then (k', f v) :: d' else (k', v) :: dict_update f d' k
  end.

Fixpoint lookup (d : list (string * V)) (k : string) : option V :=
  match d with
  | [] => None
  | (k', v) :: d' => if String.eqb k' k then Some v else lookup d' k
  end.
End Dict.

(** [Counter(iterable)]: [c[k] += 1] for every [k], a missing key counts 0. *)
Definition counter_incr (c : list (string * Z)) (k : string) : list (string * Z) :=
  dict_update 0 (fun n => n + 1) c k.

Definition Counter (l : list string) : list (string * Z) :=
  fold_left counter_incr l [].

(** [defaultdict(float)]: [d[k] += x], a missing key reads [0.0]. *)
Definition dict_add (d : list (string * float)) (k : string) (x : float)
  : list (string * float) :=
  dict_update 0%float (fun v => (v + x)%float) d k.

(** [c.most_common()]: the items by descending count, ties in insertion
    order. *)
Definition most_common (c : list (string * Z)) : list (string * Z) :=
  sorted_reverse snd Z.ltb c.

(** Position of the first occurrence of [x] in [l] ([length l] if none). *)
Fixpoint index_of (x : string) (l : list string) : nat :=
  match l with
  | [] => 0
  | y :: l' => if String.eqb y x then 0 else S (index_of x l')
  end.

(** The dictionary after the updates [d[k] += x] for [(k, x)] in a stream. *)
Definition accumulate (increments : list (string * float)) : list (string * float) :=
  fold_left (fun d e => dict_add d (fst e) (snd e)) increments [].

(** ** numpy *)

(** Two's complement wrap-around of a 64-bit integer. *)
Definition wrap64 (z : Z) : Z := (z + 2 ^ 63) mod 2 ^ 64 - 2 ^ 63.

(** The values of numpy's [int64]. *)
Definition int64 (z : Z) : Prop := - 2 ^ 63 <= z < 2 ^ 63.

(** The dot product over the integers, with no wrap-around: what the
    specification writes [dot(v, w)]. *)
Definition dot (v w : list Z) : Z :=
  fold_left (fun acc p => acc + fst p * snd p) (combine v w) 0.

(** [np.dot] of two lists of Python ints of one length, each entry within
    [int64]: numpy makes them 64-bit integer arrays and returns the sum of
    products modulo 2^64, that is [dot] wrapped around.  The definition
    matches the code on that domain only.  Outside it numpy behaves
    otherwise: on lists of different lengths [np.dot] raises [ValueError]
    (here the longer list is cut), and an entry outside the 64-bit range
    makes the array unsigned, floating-point or an array of Python objects
    (here the entry is wrapped).  Every pair of vectors the notebook passes
    is inside the domain, two rows of one matrix with entries 0 and 1: see
    [user_vector_domain] and [interest_vector_domain].  On two empty lists
    numpy returns the float [0.0], and [cosine_similarity] is NaN there as
    it is here. *)
Definition np_dot (v w : list Z) : Z :=
  wrap64 (fold_left (fun acc p => acc + fst p * snd p) (combine v w) 0).

(** The binary64 value nearest to an integer (ties to even). *)
Definition float_of_int (z : Z) : float :=
  SF2Prim (binary_normalize prec emax z 0 false).

Definition np_sqrt (z : Z) : float := sqrt (float_of_int z).

(** [[
    def cosine_similarity(v, w):
        return np.dot(v, w) / np.sqrt(np.dot(v, v) * np.dot(w, w))
    ]]
    On the domain of [np_dot]: two lists of one length with entries in
    [int64].  The product of the two 64-bit norms wraps around as well. *)
Definition cosine_similarity (v w : list Z) : float :=
  (float_of_int (np_dot v w)
   / np_sqrt (wrap64 (np_dot v v * np_dot w w)))%float.

Arguments cosine_similarity : simpl never.

(** The running sum [0.0 + x1 + x2 + ...], added left to right. *)
Definition float_sum (l : list float) : float :=
  fold_left PrimFloat.add l 0%float.

(** The binary64 value of a positive integer of at most 53 bits: the
    integer itself, its mantissa shifted up to 53 bits. *)
Definition normal (n : Z) : spec_float :=
  S754_finite false (Z.to_pos (n * 2 ^ (52 - Z.log2 n))) (Z.log2 n - 52).

(** A float that is neither NaN nor below zero. *)
Definition nonneg (x : float) : Prop := (0 <=? x)%float = true.

(** A specified float with sign bit [s]; NaN has none. *)
Definition signed (s : bool) (x : spec_float) : Prop :=
  match x with
  | S754_zero s' | S754_infinity s' | S754_finite s' _ _ => s' = s
  | S754_nan => False
  end.

(** ** The notebook's cells, over any table of users' interests *)

Section Recommender.
Variable users_interests : list (list string).

(** [[
    popular_interests = Counter(interest
                         for users_interests in users_interests
                         for interest in users_interests).most_common()
    ]] *)
Definition popular_interests : list (string * Z) :=
  most_common (Counter (concat users_interests)).

(** [[
    def most_popular_new_interests(user_interests, max_results=5):
        suggested_interests = [(interest, freq)
                              for interest, freq in popular_interests
                              if interest not in user_interests]
        return suggested_interests[:max_results]
    ]] *)
Definition most_popular_new_interests (user_interests : list string) (max_results : Z)
  : list (string * Z) :=
  let suggested_interests :=
    filter (fun p => negb (contains user_interests (fst p))) popular_interests in
  slice_to suggested_interests max_results.

(** [[
    unique_interests = sorted(list({interest for interests in users_interests
                                             for interest in interests}))
    ]]
    Strings compare by code point, which on UTF-8 bytes is the byte order. *)
Definition unique_interests : list string :=
  sorted (fun s => s) String.ltb (set_of (concat users_interests)).

(** [[
    def generate_user_interest_vector(user_interests):
        return [1 if interest in user_interests else 0
               for interest in unique_interests]
    ]] *)
Definition generate_user_interest_vector (user_interests : list string) : list Z :=
  map (fun interest => if contains user_interests interest then 1 else 0)
      unique_interests.

(** [user_interest_matrix = list(map(generate_user_interest_vector, users_interests))] *)
Definition user_interest_matrix : list (list Z) :=
  map generate_user_interest_vector users_interests.

(** [[
    user_similarities = [[cosine_similarity(interest_vector_i, interest_vector_j)
                          for interest_vector_j in user_interest_matrix]
                         for interest_vector_i in user_interest_matrix]
    ]] *)
Definition user_similarities : list (list float) :=
  let matrix := user_interest_matrix in
  map (fun interest_vector_i =>
         map (fun interest_vector_j =>
                cosine_similarity interest_vector_i interest_vector_j)
             matrix)
      matrix.

(** [[
    def get_similar_users(user_id):
        pairs = [(other_user_id, similarity)
                for other_user_id, similarity in enumerate(user_similarities[user_id])
                if user_id != other_user_id and similarity > 0]
        return sorted(pairs, key=lambda x : x[1], reverse=True)
    ]] *)
Definition get_similar_users (user_id : Z) : result (list (Z * float)) :=
  row <- getitem user_similarities user_id ;;
  let pairs :=
    filter (fun p => negb (user_id =? fst p) && (0 <? snd p)%float)
           (enumerate row) in
  Ok (sorted_reverse snd PrimFloat.ltb pairs).

(** The last statement of both suggestion functions,
    [[
    [(suggestion, weight) for suggestion, weight in suggestions
     if suggestion not in users_interests[user_id]]
    ]]
    where [users_interests[user_id]] is subscripted once per suggestion. *)
Definition exclude_current (user_id : Z) (suggestions : list (string * float))
  : result (list (string * float)) :=
  filterM (fun p => mine <- getitem users_interests user_id ;;
                    Ok (negb (contains mine (fst p))))
          suggestions.

(** [[
    def user_based_suggestions(user_id, include_current_interests=False):
        suggestions = defaultdict(float)
        for other_user_id, similarity in get_similar_users(user_id):
            for interest in users_interests[other_user_id]:
                suggestions[interest] += similarity
        suggestions = sorted(suggestions.items(), key=lambda x : x[1], reverse=True)
        if include_current_interests:
            return suggestions
        else:
            return [... if suggestion not in users_interests[user_id]]
    ]] *)
Definition user_based_suggestions (user_id : Z) (include_current_interests : bool)
  : result (list (string * float)) :=
  similar <- get_similar_users user_id ;;
  suggestions <-
    foldM (fun d p =>
             interests <- getitem users_interests (fst p) ;;
             Ok (fold_left (fun d' interest => dict_add d' interest (snd p))
                           interests d))
          similar [] ;;
  let suggestions := sorted_reverse snd PrimFloat.ltb suggestions in
  if include_current_interests
  then Ok suggestions
  else exclude_current user_id suggestions.

(** [[
    interest_user_matrix = [[user_interest_vector[j]
                            for user_interest_vector in user_interest_matrix]
                           for j, _ in enumerate(unique_interests)]
    ]]
    [j] ranges over the positions of [unique_interests], which every row
    has, so the subscript never raises. *)
Definition interest_user_matrix : list (list Z) :=
  let matrix := user_interest_matrix in
  map (fun j => map (fun user_interest_vector => nth j user_interest_vector 0)
                    matrix)
      (seq 0 (length unique_interests)).

(** [[
    interest_similarities = [[cosine_similarity(user_vector_i, user_vector_j)
                             for user_vector_j in interest_user_matrix]
                            for user_vector_i in interest_user_matrix]
    ]] *)
Definition interest_similarities : list (list float) :=
  let matrix := interest_user_matrix in
  map (fun user_vector_i =>
         map (fun user_vector_j => cosine_similarity user_vector_i user_vector_j)
             matrix)
      matrix.

(** [[
    def get_similar_interests(interest_id):
        similarities = interest_similarities[interest_id]
        pairs = [(unique_interests[other_interest_id], similarity)
                 for other_interest_id, similarity in enumerate(similarities)
                 if interest_id != other_interest_id and similarity > 0]
        return sorted(pairs, key=lambda x : x[1], reverse=True)
    ]] *)
Definition get_similar_interests (interest_id : Z) : result (list (string * float)) :=
  similarities <- getitem interest_similarities interest_id ;;
  pairs <-
    mapM (fun p => name <- getitem unique_interests (fst p) ;; Ok (name, snd p))
         (filter (fun p => negb (interest_id =? fst p) && (0 <? snd p)%float)
                 (enumerate similarities)) ;;
  Ok (sorted_reverse snd PrimFloat.ltb pairs).

(** [[
    def item_based_suggestions(user_id, include_current_interests=False):
        suggestions = defaultdict(float)
        user_interest_vector = user_interest_matrix[user_id]
        for interest_id, is_interested in enumerate(user_interest_vector):
            if is_interested == 1:
                similar_interests = get_similar_interests(interest_id)
                for interest, similarity in similar_interests:
                    suggestions[interest] += similarity
        suggestions = sorted(suggestions.items(), key=lambda x : x[1], reverse=True)
        if include_current_interests:
            return suggestions
        else:
            return [... if suggestion not in users_interests[user_id]]
    ]] *)
Definition item_based_suggestions (user_id : Z) (include_current_interests : bool)
  : result (list (string * float)) :=
  user_interest_vector <- getitem user_interest_matrix user_id ;;
  suggestions <-
    foldM (fun d p =>
             if snd p =? 1
             then similar_interests <- get_similar_interests (fst p) ;;
                  Ok (fold_left (fun d' q => dict_add d' (fst q) (snd q))
                                similar_interests d)
             else Ok d)
          (enumerate user_interest_vector) [] ;;
  let suggestions := sorted_reverse snd PrimFloat.ltb suggestions in
  if include_current_interests
  then Ok suggestions
  else exclude_current user_id suggestions.

(** *** Vocabulary of the statements *)

(** [users_interests[user_id]], [user_interest_matrix[user_id]],
    [unique_interests[interest_id]], [interest_user_matrix[interest_id]] and
    [interest_similarities[i][j]] for indices in range. *)
Definition interests_of (user_id : Z) : list string :=
  nth (Z.to_nat user_id) users_interests [].

Definition user_vector (user_id : Z) : list Z :=
  generate_user_interest_vector (interests_of user_id).

Definition interest_name (interest_id : Z) : string :=
  nth (Z.to_nat interest_id) unique_interests EmptyString.

Definition interest_vector (interest_id : Z) : list Z :=
  nth (Z.to_nat interest_id) interest_user_matrix [].

Definition interest_similarity (i j : Z) : float :=
  cosine_similarity (interest_vector i) (interest_vector j).

(** The (interest, similarity) increments [user_based_suggestions] adds, in
    the order it adds them while scanning [similar]. *)
Definition user_based_increments (similar : list (Z * float)) : list (string * float) :=
  flat_map (fun p => map (fun interest => (interest, snd p)) (interests_of (fst p)))
           similar.

(** The list [get_similar_interests] returns (none if it raises). *)
Definition similar_interests (interest_id : Z) : list (string * float) :=
  match get_similar_interests interest_id with
  | Ok pairs => pairs
  | IndexError => []
  end.

(** The increments [item_based_suggestions] adds for a membership vector,
    in the order it adds them. *)
Definition item_based_increments (user_interest_vector : list Z)
  : list (string * float) :=
  flat_map (fun p => if snd p =? 1 then similar_interests (fst p) else [])
           (enumerate user_interest_vector).

(** What interest [i] receives from the interests a user holds: for each
    held interest [j] other than [i], in canonical order, its similarity to
    [i] when that is positive. *)
Definition item_contributions (user_id i : Z) : list float :=
  flat_map (fun p : Z * string =>
              if contains (interests_of user_id) (snd p)
                 && negb (fst p =? i)
                 && (0 <? interest_similarity (fst p) i)%float
              then [interest_similarity (fst p) i]
              else [])
           (enumerate unique_interests).
End Recommender.

(** ** The notebook's table *)

Module Notebook.
Local Open Scope string_scope.

Definition users_interests : list (list string) :=
  [ ["Hadoop"; "Big Data"; "HBase"; "Java"; "Spark"; "Storm"; "Cassandra"];
    ["NoSQL"; "MongoDB"; "Cassandra"; "HBase"; "Postgres"];
    ["Python"; "scikit-learn"; "scipy"; "numpy"; "statsmodels"; "pandas"];
    ["R"; "Python"; "statistics"; "regression"; "probability"];
    ["machine learning"; "regression"; "decision trees"; "libsvm"];
    ["Python"; "R"; "Java"; "C++"; "Haskell"; "programming languages"];
    ["statistics"; "probability"; "mathematics"; "theory"];
    ["machine learning"; "scikit-learn"; "Mahout"; "neural networks"];
    ["neural networks"; "deep learning"; "Big Data"; "artificial intelligence"];
    ["Hadoop"; "Java"; "MapReduce"; "Big Data"];
    ["statistics"; "R"; "statsmodels"];
    ["C++"; "deep learning"; "artificial intelligence"; "probability"];
    ["pandas"; "R"; "Python"];
    ["databases"; "HBase"; "Postgres"; "MySQL"; "MongoDB"];
    ["libsvm"; "regression"; "support vector machines"] ].
End Notebook.

(** * Properties *)

(** ** Subscripts and enumeration *)

Lemma getitem_nat {A : Type} (l : list A) (n : nat) (x : A) :
  nth_error l n = Some x -> getitem l (Z.of_nat n) = Ok x.
Proof.
  intros H. unfold getitem.
  assert (Hn : (n < length l)%nat) by (apply nth_error_Some; congruence).
  destruct (Z.ltb_spec (Z.of_nat n) 0); [lia|].
  destruct (Z.leb_spec 0 (Z.of_nat n)); [|lia].
  destruct (Z.ltb_spec (Z.of_nat n) (Z.of_nat (length l))); [|lia].
  cbn. now rewrite Nat2Z.id, H.
Qed.

Lemma getitem_in_range {A : Type} (l : list A) (i : Z) :
  0 <= i < Z.of_nat (length l) ->
  exists x, nth_error l (Z.to_nat i) = Some x /\ getitem l i = Ok x.
Proof.
  intros Hi.
  destruct (nth_error l (Z.to_nat i)) as [x|] eqn:E.
  - exists x. split; [reflexivity|].
    rewrite <- (Z2Nat.id i) by lia. now apply getitem_nat.
  - apply nth_error_None in E. lia.
Qed.

Lemma getitem_error_iff {A : Type} (l : list A) (i : Z) :
  getitem l i = IndexError <->
  i < - Z.of_nat (length l) \/ Z.of_nat (length l) <= i.
Proof.
  unfold getitem.
  destruct (Z.ltb_spec i 0);
    match goal with
    | |- context [(0 <=? ?j) && (?j <? ?n)] =>
        destruct (Z.leb_spec 0 j); destruct (Z.ltb_spec j n); cbn
    end;
    try (split; [intros _; lia | reflexivity]);
    match goal with
    | |- context [nth_error l ?k] =>
        destruct (nth_error l k) eqn:E;
        [ split; [discriminate | lia]
        | apply nth_error_None in E; lia ]
    end.
Qed.

Lemma getitem_negative {A : Type} (l : list A) (i : Z) :
  - Z.of_nat (length l) <= i < 0 ->
  getitem l i = getitem l (i + Z.of_nat (length l)).
Proof.
  intros Hi. unfold getitem.
  destruct (Z.ltb_spec i 0); [|lia].
  destruct (Z.ltb_spec (i + Z.of_nat (length l)) 0); [lia|].
  reflexivity.
Qed.

Lemma enumerate_from_In {A : Type} (l : list A) (k i : Z) (x : A) :
  In (i, x) (enumerate_from k l) <->
  exists n, i = k + Z.of_nat n /\ nth_error l n = Some x.
Proof.
  revert k. induction l as [|y l IH]; intros k; cbn.
  - split; [tauto|]. intros [[|n] [_ H]]; discriminate.
  - rewrite IH. split.
    + intros [H|[n [Hi Hn]]].
      * inversion H; subst. exists 0%nat. split; [lia|reflexivity].
      * exists (S n). split; [lia|exact Hn].
    + intros [[|n] [Hi Hn]]; cbn in Hn.
      * left. inversion Hn; subst. f_equal. lia.
      * right. exists n. split; [lia|exact Hn].
Qed.

Lemma enumerate_In {A : Type} (l : list A) (i : Z) (x : A) :
  In (i, x) (enumerate l) <-> 0 <= i /\ nth_error l (Z.to_nat i) = Some x.
Proof.
  unfold enumerate. rewrite enumerate_from_In. split.
  - intros [n [Hi Hn]]. subst i. cbn. rewrite Nat2Z.id. split; [lia|exact Hn].
  - intros [Hi Hn]. exists (Z.to_nat i). split; [lia|exact Hn].
Qed.

Lemma enumerate_from_increasing {A : Type} (l : list A) (k : Z) :
  StronglySorted (fun a b : Z * A => fst a < fst b) (enumerate_from k l).
Proof.
  revert k. induction l as [|y l IH]; intros k; cbn; constructor.
  - apply IH.
  - apply Forall_forall. intros [i x] Hin.
    apply enumerate_from_In in Hin. destruct Hin as [n [Hi _]]. cbn. lia.
Qed.

Lemma enumerate_from_snd {A : Type} (l : list A) (k : Z) :
  map snd (enumerate_from k l) = l.
Proof.
  revert k. induction l as [|y l IH]; intros k; cbn; [reflexivity|].
  now rewrite IH.
Qed.

(** ** Membership tests *)

Lemma contains_In (l : list string) (x : string) :
  contains l x = true <-> In x l.
Proof.
  unfold contains. rewrite existsb_exists. split.
  - intros [y [Hy E]]. apply String.eqb_eq in E. now subst.
  - intros H. exists x. split; [exact H|apply String.eqb_refl].
Qed.

Lemma contains_not_In (l : list string) (x : string) :
  contains l x = false <-> ~ In x l.
Proof.
  rewrite <- contains_In. destruct (contains l x); split; congruence.
Qed.

Lemma set_of_In (l : list string) (x : string) : In x (set_of l) <-> In x l.
Proof.
  induction l as [|y l IH]; cbn; [tauto|].
  destruct (contains l y) eqn:E.
  - rewrite IH. apply contains_In in E. split; [tauto|].
    intros [H|H]; [now subst|exact H].
  - cbn. now rewrite IH.
Qed.

Lemma set_of_NoDup (l : list string) : NoDup (set_of l).
Proof.
  induction l as [|y l IH]; cbn; [constructor|].
  destruct (contains l y) eqn:E; [exact IH|].
  constructor; [|exact IH].
  rewrite set_of_In. now apply contains_not_In.
Qed.

(** ** Sorting *)

Lemma StronglySorted_weaken {A : Type} (R R' : A -> A -> Prop) (l : list A) :
  (forall a b, In a l -> In b l -> R a b -> R' a b) ->
  StronglySorted R l -> StronglySorted R' l.
Proof.
  intros Himp Hs. induction Hs as [|a l Hs IH Hall]; constructor.
  - apply IH. intros x y Hx Hy. apply Himp; now right.
  - rewrite Forall_forall in *. intros b Hb.
    apply Himp; [now left|now right|now apply Hall].
Qed.

Lemma StronglySorted_filter {A : Type} (R : A -> A -> Prop) (f : A -> bool) (l : list A) :
  StronglySorted R l -> StronglySorted R (filter f l).
Proof.
  intros Hs. induction Hs as [|a l Hs IH Hall]; cbn; [constructor|].
  destruct (f a); [|exact IH].
  constructor; [exact IH|].
  rewrite Forall_forall in *. intros b Hb.
  apply filter_In in Hb. now apply Hall.
Qed.

Section SortingFacts.
Context {A K : Type}.
Variable key : A -> K.
Variable lt : K -> K -> bool.

Lemma insert_reverse_perm (x : A) (l : list A) :
  Permutation (x :: l) (insert_reverse key lt x l).
Proof.
  induction l as [|y l IH]; cbn; [reflexivity|].
  destruct (lt (key x) (key y)); [|reflexivity].
  rewrite perm_swap. now constructor.
Qed.

Lemma sorted_reverse_perm (l : list A) : Permutation l (sorted_reverse key lt l).
Proof.
  induction l as [|x l IH]; cbn; [constructor|].
  rewrite <- insert_reverse_perm. now constructor.
Qed.

Lemma sorted_reverse_In (l : list A) (x : A) :
  In x (sorted_reverse key lt l) <-> In x l.
Proof.
  split; apply Permutation_in;
    [symmetry|]; apply sorted_reverse_perm.
Qed.

Lemma insert_sorted_perm (x : A) (l : list A) :
  Permutation (x :: l) (insert_sorted key lt x l).
Proof.
  induction l as [|y l IH]; cbn; [reflexivity|].
  destruct (lt (key y) (key x)); [|reflexivity].
  rewrite perm_swap. now constructor.
Qed.

Lemma sorted_perm (l : list A) : Permutation l (sorted key lt l).
Proof.
  induction l as [|x l IH]; cbn; [constructor|].
  rewrite <- insert_sorted_perm. now constructor.
Qed.

Variable comparable : K -> Prop.
Hypothesis lt_asym : forall a b, lt a b = true -> lt b a = false.
Hypothesis lt_negtrans :
  forall a b c, comparable b -> lt a b = false -> lt b c = false -> lt a c = false.

Lemma insert_reverse_sorted (ord : A -> A -> Prop) (x : A) (l : list A) :
  Forall (fun y => comparable (key y)) l ->
  Forall (ord x) l ->
  StronglySorted (descending_stable key lt ord) l ->
  StronglySorted (descending_stable key lt ord) (insert_reverse key lt x l).
Proof.
  intros Hc Ho Hs. induction Hs as [|y l Hs IH Hall]; cbn.
  - repeat constructor.
  - inversion Hc as [|? ? Hcy Hcl]; subst. inversion Ho as [|? ? Hoy Hol]; subst.
    destruct (lt (key x) (key y)) eqn:E.
    + constructor; [now apply IH|].
      apply Forall_forall. intros z Hz.
      apply (Permutation_in _ (Permutation_sym (insert_reverse_perm x l))) in Hz.
      destruct Hz as [<-|Hz].
      * split; [now apply lt_asym|congruence].
      * rewrite Forall_forall in Hall. now apply Hall.
    + constructor; [now constructor|].
      constructor; [split; [exact E|now intros _]|].
      rewrite Forall_forall in *. intros z Hz.
      split; [|intros _; now apply Hol].
      apply lt_negtrans with (b := key y); [exact Hcy|exact E|].
      now apply Hall.
Qed.

Lemma sorted_reverse_sorted (ord : A -> A -> Prop) (l : list A) :
  Forall (fun y => comparable (key y)) l ->
  StronglySorted ord l ->
  StronglySorted (descending_stable key lt ord) (sorted_reverse key lt l).
Proof.
  intros Hc Hs. induction Hs as [|x l Hs IH Hall]; cbn; [constructor|].
  inversion Hc as [|? ? Hcx Hcl]; subst.
  apply insert_reverse_sorted.
  - rewrite Forall_forall in *. intros y Hy. apply Hcl. now apply sorted_reverse_In.
  - rewrite Forall_forall in *. intros y Hy. apply Hall. now apply sorted_reverse_In.
  - now apply IH.
Qed.
End SortingFacts.

(** ** Order and addition of binary64 values *)

Section FloatOrder.
Local Open Scope float_scope.

Lemma Prim2SF_zero : Prim2SF 0 = S754_zero false.
Proof. reflexivity. Qed.

Ltac spec_order :=
  rewrite ?ltb_spec, ?leb_spec, ?eqb_spec, ?Prim2SF_zero;
  repeat match goal with
         | |- context [Prim2SF ?x] => generalize (Prim2SF x); clear x; intro
         end;
  unfold SFltb, SFleb, SFeqb, SFcompare;
  repeat match goal with
         | s : spec_float |- _ => destruct s as [[]|[]| |[] ? ?]
         end;
  cbn; try congruence;
  change (Pos.compare_cont Eq) with Pos.compare;
  repeat match goal with
         | |- context [Z.compare ?a ?b] => destruct (Z.compare_spec a b)
         | |- context [Pos.compare ?a ?b] => destruct (Pos.compare_spec a b)
         end;
  cbn; try congruence; try lia.

Lemma ltb_asym (a b : float) : (a <? b) = true -> (b <? a) = false.
Proof. spec_order. Qed.

Lemma ltb_negtrans (a b c : float) :
  nonneg b -> (a <? b) = false -> (b <? c) = false -> (a <? c) = false.
Proof. unfold nonneg. spec_order. Qed.

Lemma ltb_tie (a b : float) :
  nonneg a -> nonneg b -> (a <? b) = false -> (b <? a) = false -> (a =? b) = true.
Proof. unfold nonneg. spec_order. Qed.

Lemma positive_nonneg (a : float) : (0 <? a) = true -> nonneg a.
Proof. unfold nonneg. spec_order. Qed.

Lemma positive_tie_eq (a b : float) :
  (0 <? a) = true -> (0 <? b) = true ->
  (a <? b) = false -> (b <? a) = false -> a = b.
Proof.
  intros Ha Hb Hab Hba. apply Prim2SF_inj.
  revert Ha Hb Hab Hba. rewrite !ltb_spec, Prim2SF_zero.
  generalize (Prim2SF a) (Prim2SF b). clear a b. intros a b.
  unfold SFltb, SFcompare.
  destruct a as [[]|[]| |[] ma ea], b as [[]|[]| |[] mb eb];
    cbn; try congruence.
  change (Pos.compare_cont Eq) with Pos.compare.
  repeat match goal with
         | |- context [Z.compare ?x ?y] => destruct (Z.compare_spec x y)
         | |- context [Pos.compare ?x ?y] => destruct (Pos.compare_spec x y)
         end;
    intros; subst; try congruence; lia.
Qed.

(** Rounding a non-negative mantissa never yields NaN or changes sign. *)
Lemma shr_1_nonneg (mrs : shr_record) :
  (0 <= shr_m mrs)%Z -> (0 <= shr_m (shr_1 mrs))%Z.
Proof. destruct mrs as [[|[p|p|]|p] r s]; cbn; lia. Qed.

Lemma iter_shr_1_nonneg (p : positive) (mrs : shr_record) :
  (0 <= shr_m mrs)%Z -> (0 <= shr_m (iter_pos shr_1 p mrs))%Z.
Proof.
  revert mrs. induction p as [p IH|p IH|]; intros mrs H; cbn.
  - apply IH, IH. now apply shr_1_nonneg.
  - now apply IH, IH.
  - now apply shr_1_nonneg.
Qed.

Lemma shr_fexp_nonneg (m e : Z) (l : location) :
  (0 <= m)%Z -> (0 <= shr_m (fst (shr_fexp prec emax m e l)))%Z.
Proof.
  intros H. unfold shr_fexp, shr.
  assert (H0 : (0 <= shr_m (shr_record_of_loc m l))%Z)
    by (destruct l as [|[]]; exact H).
  destruct (fexp prec emax (Zdigits2 m + e) - e)%Z; cbn [fst]; try exact H0.
  now apply iter_shr_1_nonneg.
Qed.

Lemma round_nearest_even_nonneg (m : Z) (l : location) :
  (0 <= m)%Z -> (0 <= round_nearest_even m l)%Z.
Proof.
  intros H. destruct l as [|[]]; cbn; try lia.
  destruct (Z.even m); lia.
Qed.

Lemma binary_round_aux_signed (s : bool) (m e : Z) (l : location) :
  (0 <= m)%Z -> signed s (binary_round_aux prec emax s m e l).
Proof.
  intros H. unfold binary_round_aux.
  pose proof (shr_fexp_nonneg m e l H) as H1.
  destruct (shr_fexp prec emax m e l) as [mrs' e']. cbn [fst] in H1.
  pose proof (shr_fexp_nonneg _ e' loc_Exact
                (round_nearest_even_nonneg _ (loc_of_shr_record mrs') H1)) as H2.
  destruct (shr_fexp prec emax _ e' loc_Exact) as [mrs'' e'']. cbn [fst] in H2.
  destruct (shr_m mrs'') as [|p|p]; [reflexivity| |lia].
  destruct (e'' <=? emax - prec)%Z; reflexivity.
Qed.

Lemma add_nonneg (a b : float) : nonneg a -> nonneg b -> nonneg (a + b).
Proof.
  unfold nonneg. rewrite !leb_spec, add_spec, Prim2SF_zero.
  generalize (Prim2SF a) (Prim2SF b). clear a b. intros a b.
  assert (Hs : forall x, signed false x -> SFleb (S754_zero false) x = true)
    by (intros [[]|[]| |[] ? ?]; cbn; intros; congruence || contradiction).
  destruct a as [[]|[]| |[] ma ea], b as [[]|[]| |[] mb eb];
    cbn; try congruence.
  intros _ _. apply Hs. unfold binary_round.
  destruct (shl_align _ _ _) as [mz ez].
  apply binary_round_aux_signed. lia.
Qed.
End FloatOrder.

(** ** Dictionaries *)

Lemma index_of_app_in (x : string) (l l' : list string) :
  In x l -> index_of x (l ++ l') = index_of x l.
Proof.
  induction l as [|y l IH]; cbn; [tauto|].
  destruct (String.eqb_spec y x) as [->|Hne]; [reflexivity|].
  intros [H|H]; [contradiction|]. now rewrite IH.
Qed.

Lemma index_of_app_notin (x : string) (l l' : list string) :
  ~ In x l -> index_of x (l ++ l') = (length l + index_of x l')%nat.
Proof.
  induction l as [|y l IH]; cbn; [reflexivity|].
  destruct (String.eqb_spec y x) as [->|Hne]; [tauto|].
  intros H. rewrite IH; tauto.
Qed.

Lemma index_of_In (x : string) (l : list string) :
  In x l -> (index_of x l < length l)%nat.
Proof.
  induction l as [|y l IH]; cbn; [tauto|].
  destruct (String.eqb_spec y x) as [->|Hne]; [lia|].
  intros [H|H]; [contradiction|]. apply IH in H. lia.
Qed.

Lemma StronglySorted_snoc {A : Type} (R : A -> A -> Prop) (l : list A) (x : A) :
  StronglySorted R l -> Forall (fun a => R a x) l -> StronglySorted R (l ++ [x]).
Proof.
  intros Hs Hx. induction Hs as [|a l Hs IH Hall]; cbn.
  - repeat constructor.
  - inversion Hx as [|? ? Hax Hlx]; subst.
    constructor; [now apply IH|].
    apply Forall_app. split; [exact Hall|]. now repeat constructor.
Qed.

Lemma StronglySorted_map {A B : Type} (R : B -> B -> Prop) (f : A -> B) (l : list A) :
  StronglySorted R (map f l) -> StronglySorted (fun a b => R (f a) (f b)) l.
Proof.
  induction l as [|a l IH]; cbn; intros Hs; [constructor|].
  inversion Hs as [|? ? Hs' Hall]; subst.
  constructor; [now apply IH|].
  rewrite Forall_forall in *. intros b Hb. apply Hall. now apply in_map.
Qed.

Section DictFacts.
Context {V E : Type}.
Variable default : V.
Variable ekey : E -> string.
Variable step : E -> V -> V.

Lemma dict_update_keys (f : V -> V) (d : list (string * V)) (k : string) :
  map fst (dict_update default f d k) =
  map fst d ++ (if contains (map fst d) k then [] else [k]).
Proof.
  induction d as [|[k' v] d IH]; cbn; [reflexivity|].
  rewrite (String.eqb_sym k k').
  destruct (String.eqb k' k); cbn; [now rewrite app_nil_r|].
  now rewrite IH.
Qed.

Lemma dict_update_lookup (f : V -> V) (d : list (string * V)) (k x : string) :
  lookup (dict_update default f d k) x =
  if String.eqb k x
  then Some (f (match lookup d k with Some v => v | None => default end))
  else lookup d x.
Proof.
  induction d as [|[k' v] d IH]; cbn.
  - reflexivity.
  - destruct (String.eqb_spec k' k) as [->|Hne]; cbn.
    + destruct (String.eqb k x); reflexivity.
    + rewrite IH. destruct (String.eqb_spec k x) as [->|Hkx]; [|reflexivity].
      destruct (String.eqb_spec k' x); [contradiction|reflexivity].
Qed.

Lemma lookup_In (d : list (string * V)) (x : string) (v : V) :
  NoDup (map fst d) -> In (x, v) d -> lookup d x = Some v.
Proof.
  induction d as [|[k' v'] d IH]; cbn; [tauto|].
  intros Hnd. inversion Hnd as [|? ? Hk Hd]; subst.
  intros [H|H].
  - inversion H; subst. now rewrite String.eqb_refl.
  - destruct (String.eqb_spec k' x) as [->|Hne]; [|now apply IH].
    exfalso. apply Hk. change x with (fst (x, v)). now apply in_map.
Qed.

(** The dictionary after a stream of updates [d[ekey e] = step e d[ekey e]]. *)
Lemma dict_fold_snoc (es : list E) (e : E) (d : list (string * V)) :
  fold_left (fun d e => dict_update default (step e) d (ekey e)) (es ++ [e]) d =
  dict_update default (step e)
    (fold_left (fun d e => dict_update default (step e) d (ekey e)) es d) (ekey e).
Proof. now rewrite fold_left_app. Qed.

Lemma dict_fold_keys_In (es : list E) (x : string) :
  In x (map fst (fold_left (fun d e => dict_update default (step e) d (ekey e)) es []))
  <-> In x (map ekey es).
Proof.
  revert x. induction es as [|e es IH] using rev_ind; intros x; [reflexivity|].
  rewrite dict_fold_snoc, dict_update_keys, map_app, !in_app_iff, IH. cbn.
  destruct (contains _ (ekey e)) eqn:Ec; cbn; [|tauto].
  apply contains_In, IH in Ec. split; [tauto|].
  intros [H|[<-|[]]]; tauto.
Qed.

Lemma dict_fold_NoDup (es : list E) :
  NoDup (map fst (fold_left (fun d e => dict_update default (step e) d (ekey e)) es [])).
Proof.
  induction es as [|e es IH] using rev_ind; [constructor|].
  rewrite dict_fold_snoc, dict_update_keys.
  destruct (contains _ (ekey e)) eqn:Ec; [now rewrite app_nil_r|].
  apply contains_not_In in Ec.
  apply NoDup_app; [exact IH|repeat constructor; tauto|].
  intros a Ha [<-|[]]. contradiction.
Qed.

(** Keys are kept in the order they are first met in the stream. *)
Lemma dict_fold_first_seen (es : list E) :
  StronglySorted
    (fun a b => (index_of a (map ekey es) < index_of b (map ekey es))%nat)
    (map fst (fold_left (fun d e => dict_update default (step e) d (ekey e)) es [])).
Proof.
  induction es as [|e es IH] using rev_ind; [constructor|].
  rewrite dict_fold_snoc, dict_update_keys, map_app. cbn [map].
  assert (Hold : StronglySorted
            (fun a b => (index_of a (map ekey es ++ [ekey e])
                         < index_of b (map ekey es ++ [ekey e]))%nat)
            (map fst (fold_left (fun d e => dict_update default (step e) d (ekey e)) es []))).
  { revert IH. apply StronglySorted_weaken. intros a b Ha Hb Hab.
    apply dict_fold_keys_In in Ha, Hb.
    now rewrite !index_of_app_in. }
  destruct (contains _ (ekey e)) eqn:Ec; [now rewrite app_nil_r|].
  apply contains_not_In in Ec.
  apply StronglySorted_snoc; [exact Hold|].
  apply Forall_forall. intros a Ha.
  pose proof Ha as Ha'. apply dict_fold_keys_In in Ha'.
  rewrite dict_fold_keys_In in Ec.
  rewrite index_of_app_in by exact Ha'.
  rewrite index_of_app_notin by exact Ec.
  apply index_of_In in Ha'. rewrite length_map in *. lia.
Qed.

(** The value of a key is what the updates on that key, in stream order,
    make of the default. *)
Lemma dict_fold_lookup (es : list E) (d : list (string * V)) (x : string) :
  lookup (fold_left (fun d e => dict_update default (step e) d (ekey e)) es d) x =
  match filter (fun e => String.eqb (ekey e) x) es with
  | [] => lookup d x
  | es' => Some (fold_left (fun v e => step e v) es'
                           (match lookup d x with Some v => v | None => default end))
  end.
Proof.
  revert d. induction es as [|e es IH]; intros d; cbn [fold_left filter]; [reflexivity|].
  rewrite IH, dict_update_lookup.
  destruct (String.eqb_spec (ekey e) x) as [<-|Hne]; [|reflexivity].
  cbn [fold_left]. now destruct (filter _ es).
Qed.

Lemma dict_fold_In (es : list E) (x : string) (v : V) :
  In (x, v) (fold_left (fun d e => dict_update default (step e) d (ekey e)) es []) ->
  v = fold_left (fun v e => step e v)
                (filter (fun e => String.eqb (ekey e) x) es) default.
Proof.
  intros H. apply lookup_In in H; [|apply dict_fold_NoDup].
  rewrite dict_fold_lookup in H. cbn [lookup] in H.
  destruct (filter _ es); congruence.
Qed.
End DictFacts.

(** ** The popularity baseline *)

Lemma StronglySorted_trivial {A : Type} (l : list A) :
  StronglySorted (fun _ _ => True) l.
Proof.
  induction l as [|a l IH]; constructor; [exact IH|].
  now apply Forall_forall.
Qed.

Lemma StronglySorted_firstn {A : Type} (R : A -> A -> Prop) (n : nat) (l : list A) :
  StronglySorted R l -> StronglySorted R (firstn n l).
Proof.
  intros Hs. revert n. induction Hs as [|a l Hs IH Hall]; intros [|n]; cbn;
    try constructor.
  - apply IH.
  - rewrite Forall_forall in *. intros b Hb. apply Hall.
    rewrite <- (firstn_skipn n l). apply in_or_app. now left.
Qed.

Lemma slice_to_In {A : Type} (l : list A) (k : Z) (x : A) :
  In x (slice_to l k) -> In x l.
Proof.
  unfold slice_to. intros H.
  destruct (k <? 0);
    match type of H with
    | In _ (firstn ?n _) =>
        rewrite <- (firstn_skipn n l); apply in_or_app; now left
    end.
Qed.

Lemma slice_to_sorted {A : Type} (R : A -> A -> Prop) (l : list A) (k : Z) :
  StronglySorted R l -> StronglySorted R (slice_to l k).
Proof. unfold slice_to. destruct (k <? 0); apply StronglySorted_firstn. Qed.

Lemma slice_to_length {A : Type} (l : list A) (k : Z) :
  0 <= k -> Z.of_nat (length (slice_to l k)) <= k.
Proof.
  intros Hk. unfold slice_to. destruct (Z.ltb_spec k 0); [lia|].
  rewrite length_firstn. lia.
Qed.

Lemma count_steps (l : list string) (a : Z) :
  fold_left (fun (v : Z) (_ : string) => v + 1) l a = a + Z.of_nat (length l).
Proof.
  revert a. induction l as [|y l IH]; intros a; cbn [fold_left length]; [lia|].
  rewrite IH. lia.
Qed.

Lemma filter_eqb_count (l : list string) (x : string) :
  length (filter (fun e => String.eqb e x) l) = count_occ string_dec l x.
Proof.
  induction l as [|y l IH]; cbn; [reflexivity|].
  destruct (String.eqb_spec y x), (string_dec y x); cbn; congruence.
Qed.

Lemma Counter_In (l : list string) (x : string) (c : Z) :
  In (x, c) (Counter l) -> c = Z.of_nat (count_occ string_dec l x).
Proof.
  intros H.
  apply (dict_fold_In 0 (fun s : string => s) (fun _ n => n + 1)) in H.
  now rewrite H, count_steps, filter_eqb_count.
Qed.

Lemma Counter_keys (l : list string) (x : string) :
  In x (map fst (Counter l)) <-> In x l.
Proof.
  unfold Counter, counter_incr.
  rewrite (dict_fold_keys_In 0 (fun s : string => s) (fun _ n => n + 1)).
  now rewrite map_id.
Qed.

Lemma most_common_sorted (c : list (string * Z)) :
  StronglySorted (fun a b => snd b <= snd a) (most_common c).
Proof.
  unfold most_common.
  assert (Hs : StronglySorted (descending_stable snd Z.ltb (fun _ _ => True))
                 (sorted_reverse snd Z.ltb c)).
  { apply sorted_reverse_sorted with (comparable := fun _ => True).
    - intros a b. rewrite Z.ltb_lt, Z.ltb_ge. lia.
    - intros a b d _. rewrite !Z.ltb_ge. lia.
    - now apply Forall_forall.
    - apply StronglySorted_trivial. }
  revert Hs. apply StronglySorted_weaken.
  intros a b _ _ [H _]. now apply Z.ltb_ge in H.
Qed.

Section Popularity.
Variable users_interests : list (list string).

Lemma popular_interests_In (x : string) (c : Z) :
  In (x, c) (popular_interests users_interests) ->
  c = Z.of_nat (count_occ string_dec (concat users_interests) x).
Proof.
  unfold popular_interests, most_common. rewrite sorted_reverse_In.
  apply Counter_In.
Qed.

Lemma most_popular_new_interests_pairs (user_interests : list string) (max_results : Z)
      (x : string) (c : Z) :
  In (x, c) (most_popular_new_interests users_interests user_interests max_results) ->
  ~ In x user_interests /\
  c = Z.of_nat (count_occ string_dec (concat users_interests) x).
Proof.
  unfold most_popular_new_interests. intros H.
  apply slice_to_In, filter_In in H. destruct H as [Hin Hf]. cbn in Hf.
  split; [|now apply popular_interests_In].
  apply contains_not_In. now destruct (contains user_interests x).
Qed.

Lemma most_popular_new_interests_sorted (user_interests : list string) (max_results : Z) :
  StronglySorted (fun a b => snd b <= snd a)
    (most_popular_new_interests users_interests user_interests max_results).
Proof.
  unfold most_popular_new_interests.
  apply slice_to_sorted, StronglySorted_filter, most_common_sorted.
Qed.
End Popularity.

(** ** Monadic traversals that cannot fail *)

Lemma foldM_pure {A S : Type} (f : S -> A -> result S) (g : S -> A -> S)
      (l : list A) (s : S) :
  (forall a s', In a l -> f s' a = Ok (g s' a)) ->
  foldM f l s = Ok (fold_left g l s).
Proof.
  revert s. induction l as [|a l IH]; intros s H; cbn; [reflexivity|].
  rewrite H by now left. cbn. apply IH. intros b s' Hb. apply H. now right.
Qed.

Lemma filterM_pure {A : Type} (f : A -> result bool) (g : A -> bool) (l : list A) :
  (forall a, In a l -> f a = Ok (g a)) ->
  filterM f l = Ok (filter g l).
Proof.
  induction l as [|a l IH]; intros H; cbn; [reflexivity|].
  rewrite H by now left. cbn. rewrite IH by (intros b Hb; apply H; now right).
  reflexivity.
Qed.

Lemma mapM_pure {A B : Type} (f : A -> result B) (g : A -> B) (l : list A) :
  (forall a, In a l -> f a = Ok (g a)) ->
  mapM f l = Ok (map g l).
Proof.
  induction l as [|a l IH]; intros H; cbn; [reflexivity|].
  rewrite H by now left. cbn. rewrite IH by (intros b Hb; apply H; now right).
  reflexivity.
Qed.

Lemma mapM_Forall {A B : Type} (f : A -> result B) (P : A -> Prop) (Q : B -> Prop)
      (l : list A) (ys : list B) :
  (forall a b, P a -> f a = Ok b -> Q b) ->
  Forall P l -> mapM f l = Ok ys -> Forall Q ys.
Proof.
  intros Hf Hl. revert ys. induction Hl as [|a l Ha Hl IH]; cbn; intros ys E.
  - inversion E. constructor.
  - destruct (f a) as [b|] eqn:Eb; [|discriminate]. cbn in E.
    destruct (mapM f l) as [ys'|]; [|discriminate]. cbn in E.
    inversion E; subst. constructor; [now apply (Hf a)|now apply IH].
Qed.

Lemma fold_left_flat_map {A B S : Type} (g : S -> B -> S) (h : A -> list B)
      (l : list A) (s : S) :
  fold_left g (flat_map h l) s = fold_left (fun s' a => fold_left g (h a) s') l s.
Proof.
  revert s. induction l as [|a l IH]; intros s; cbn; [reflexivity|].
  now rewrite fold_left_app, IH.
Qed.

Lemma fold_left_map {A B S : Type} (g : S -> B -> S) (h : A -> B) (l : list A) (s : S) :
  fold_left g (map h l) s = fold_left (fun s' a => g s' (h a)) l s.
Proof.
  revert s. induction l as [|a l IH]; intros s; cbn; [reflexivity|]. apply IH.
Qed.

(** ** Running sums *)

Lemma float_sum_from_nonneg (l : list float) (a : float) :
  nonneg a -> Forall nonneg l -> nonneg (fold_left PrimFloat.add l a).
Proof.
  revert a. induction l as [|x l IH]; intros a Ha Hl; cbn; [exact Ha|].
  inversion Hl; subst. apply IH; [now apply add_nonneg|assumption].
Qed.

Lemma float_sum_nonneg (l : list float) : Forall nonneg l -> nonneg (float_sum l).
Proof. apply float_sum_from_nonneg. reflexivity. Qed.

Lemma accumulate_In (increments : list (string * float)) (x : string) (w : float) :
  In (x, w) (accumulate increments) ->
  w = float_sum (map snd (filter (fun e => String.eqb (fst e) x) increments)).
Proof.
  intros H.
  apply (dict_fold_In 0%float fst (fun e v => (v + snd e)%float)) in H.
  unfold float_sum. now rewrite H, fold_left_map.
Qed.

Lemma accumulate_keys (increments : list (string * float)) (x : string) :
  In x (map fst (accumulate increments)) <-> In x (map fst increments).
Proof. apply (dict_fold_keys_In 0%float fst (fun e v => (v + snd e)%float)). Qed.

Lemma accumulate_first_seen (increments : list (string * float)) :
  StronglySorted
    (fun a b => (index_of (fst a) (map fst increments)
                 < index_of (fst b) (map fst increments))%nat)
    (accumulate increments).
Proof.
  apply StronglySorted_map with (R := fun a b =>
    (index_of a (map fst increments) < index_of b (map fst increments))%nat).
  apply (dict_fold_first_seen 0%float fst (fun e v => (v + snd e)%float)).
Qed.

(** The final ranking of either recommender: a stable descending sort of
    the accumulated weights, all of which are sums of positive increments. *)
Lemma ranking_sorted (increments : list (string * float)) :
  Forall (fun e => (0 <? snd e)%float = true) increments ->
  StronglySorted
    (fun a b =>
       (snd b <? snd a)%float = true \/
       ((snd a =? snd b)%float = true /\
        (index_of (fst a) (map fst increments)
         < index_of (fst b) (map fst increments))%nat))
    (sorted_reverse snd PrimFloat.ltb (accumulate increments)).
Proof.
  intros Hpos.
  assert (Hnn : forall p, In p (accumulate increments) -> nonneg (snd p)).
  { intros [x w] Hp. apply accumulate_In in Hp. cbn. subst w.
    apply float_sum_nonneg, Forall_forall. intros s Hs.
    apply in_map_iff in Hs. destruct Hs as [e [<- He]].
    apply filter_In in He. destruct He as [He _].
    rewrite Forall_forall in Hpos. now apply positive_nonneg, Hpos. }
  pose proof (sorted_reverse_sorted snd PrimFloat.ltb nonneg ltb_asym ltb_negtrans
                _ (accumulate increments)
                (proj2 (Forall_forall _ _) Hnn)
                (accumulate_first_seen increments)) as Hs.
  revert Hs. apply StronglySorted_weaken.
  intros a b Ha Hb [Hab Hord]. apply sorted_reverse_In in Ha, Hb.
  destruct (snd b <? snd a)%float eqn:E; [now left|right].
  split; [|now apply Hord].
  apply ltb_tie; auto.
Qed.

Lemma getitem_Ok_nth {A : Type} (l : list A) (i : Z) (x : A) :
  getitem l i = Ok x ->
  exists n, nth_error l n = Some x /\ (0 <= i -> n = Z.to_nat i).
Proof.
  unfold getitem.
  destruct (Z.ltb_spec i 0);
    match goal with
    | |- context [(0 <=? ?j) && (?j <? ?n)] =>
        destruct ((0 <=? j) && (j <? n)); [|discriminate]
    end;
    match goal with
    | |- context [nth_error l ?k] =>
        destruct (nth_error l k) eqn:E; [|discriminate];
        intros Hx; inversion Hx; subst; exists k; split; [exact E|intros; lia || reflexivity]
    end.
Qed.

Lemma getitem_total {A : Type} (l : list A) (i : Z) :
  - Z.of_nat (length l) <= i < Z.of_nat (length l) ->
  exists x, getitem l i = Ok x.
Proof.
  intros Hi. destruct (getitem l i) as [x|] eqn:E; [now exists x|].
  apply getitem_error_iff in E. lia.
Qed.

(** ** The user-based side *)

Section UserBased.
Variable users_interests : list (list string).

Lemma user_interest_matrix_length :
  length (user_interest_matrix users_interests) = length users_interests.
Proof. apply length_map. Qed.

(** Every row of the user-interest matrix has one slot per interest, so
    [np.dot] only ever meets vectors of one length. *)
Lemma user_interest_matrix_rows :
  Forall (fun v => length v = length (unique_interests users_interests))
         (user_interest_matrix users_interests).
Proof.
  apply Forall_forall. intros v Hv. apply in_map_iff in Hv.
  destruct Hv as [l [<- _]]. apply length_map.
Qed.

Lemma user_similarities_length :
  length (user_similarities users_interests) = length users_interests.
Proof.
  unfold user_similarities. cbv zeta. now rewrite length_map, user_interest_matrix_length.
Qed.

Lemma nth_error_user_interest_matrix (n : nat) (v : list Z) :
  nth_error (user_interest_matrix users_interests) n = Some v <->
  (n < length users_interests)%nat /\ v = user_vector users_interests (Z.of_nat n).
Proof.
  unfold user_interest_matrix, user_vector, interests_of.
  rewrite nth_error_map, Nat2Z.id.
  destruct (nth_error users_interests n) as [l|] eqn:E; cbn.
  - assert (Hn : (n < length users_interests)%nat) by (apply nth_error_Some; congruence).
    rewrite (nth_error_nth _ _ [] E). split.
    + intros H. inversion H. auto.
    + intros [_ ->]. reflexivity.
  - apply nth_error_None in E. split; [discriminate|lia].
Qed.

Lemma user_similarities_row (i : Z) (row : list float) :
  getitem (user_similarities users_interests) i = Ok row ->
  exists vi,
    row = map (cosine_similarity vi) (user_interest_matrix users_interests) /\
    (0 <= i -> vi = user_vector users_interests i).
Proof.
  intros H. apply getitem_Ok_nth in H. destruct H as [n [Hn Hi]].
  unfold user_similarities in Hn. cbv zeta in Hn. rewrite nth_error_map in Hn.
  destruct (nth_error (user_interest_matrix users_interests) n) as [vi|] eqn:E;
    [|discriminate].
  cbn in Hn. inversion Hn; subst. exists vi. split; [reflexivity|].
  intros Hpos. apply nth_error_user_interest_matrix in E.
  destruct E as [_ ->]. rewrite (Hi Hpos). f_equal. lia.
Qed.

Lemma similarity_row_entry (vi : list Z) (v : Z) (s : float) :
  In (v, s) (enumerate (map (cosine_similarity vi) (user_interest_matrix users_interests)))
  <-> 0 <= v < Z.of_nat (length users_interests) /\
      s = cosine_similarity vi (user_vector users_interests v).
Proof.
  rewrite enumerate_In, nth_error_map.
  destruct (nth_error (user_interest_matrix users_interests) (Z.to_nat v)) as [w|] eqn:E; cbn.
  - apply nth_error_user_interest_matrix in E. destruct E as [Hn ->].
    split.
    + intros [Hv H]. inversion H. rewrite Z2Nat.id by lia. split; [lia|reflexivity].
    + intros [Hv ->]. rewrite Z2Nat.id by lia. split; [lia|reflexivity].
  - apply nth_error_None in E. rewrite user_interest_matrix_length in E.
    split; [intros [_ H]; discriminate|]. intros [Hv _]. lia.
Qed.

(** What [get_similar_users] returns when its subscript is in range. *)
Lemma get_similar_users_Ok (i : Z) :
  - Z.of_nat (length users_interests) <= i < Z.of_nat (length users_interests) ->
  exists vi,
    (0 <= i -> vi = user_vector users_interests i) /\
    get_similar_users users_interests i =
    Ok (sorted_reverse snd PrimFloat.ltb
          (filter (fun p => negb (i =? fst p) && (0 <? snd p)%float)
                  (enumerate (map (cosine_similarity vi)
                                  (user_interest_matrix users_interests))))).
Proof.
  intros Hi. rewrite <- user_similarities_length in Hi.
  destruct (getitem_total _ _ Hi) as [row Hrow].
  destruct (user_similarities_row _ _ Hrow) as [vi [-> Hvi]].
  exists vi. split; [exact Hvi|].
  unfold get_similar_users. now rewrite Hrow.
Qed.

Lemma get_similar_users_In (i : Z) (similar : list (Z * float)) (v : Z) (s : float) :
  get_similar_users users_interests i = Ok similar ->
  In (v, s) similar ->
  0 <= v < Z.of_nat (length users_interests) /\ v <> i /\ (0 <? s)%float = true.
Proof.
  unfold get_similar_users.
  destruct (getitem (user_similarities users_interests) i) as [row|] eqn:Hrow;
    [|discriminate].
  destruct (user_similarities_row _ _ Hrow) as [vi [-> _]].
  cbn. intros H. inversion H; subst. clear H.
  rewrite sorted_reverse_In, filter_In, similarity_row_entry. cbn.
  rewrite andb_true_iff, negb_true_iff, Z.eqb_neq. intuition congruence.
Qed.

Lemma get_similar_users_error_iff (i : Z) :
  get_similar_users users_interests i = IndexError <->
  i < - Z.of_nat (length users_interests) \/ Z.of_nat (length users_interests) <= i.
Proof.
  rewrite <- user_similarities_length, <- getitem_error_iff.
  unfold get_similar_users.
  destruct (getitem (user_similarities users_interests) i); cbn;
    split; congruence.
Qed.
End UserBased.

Section UserRanking.
Variable users_interests : list (list string).

Lemma getitem_interests_of (v : Z) :
  0 <= v < Z.of_nat (length users_interests) ->
  getitem users_interests v = Ok (interests_of users_interests v).
Proof.
  intros Hv. destruct (getitem_in_range users_interests v Hv) as [l [Hn ->]].
  unfold interests_of. now rewrite (nth_error_nth _ _ [] Hn).
Qed.

Lemma get_similar_users_spec (u : Z) :
  0 <= u < Z.of_nat (length users_interests) ->
  exists similar,
    get_similar_users users_interests u = Ok similar /\
    (forall v s,
        In (v, s) similar <->
        0 <= v < Z.of_nat (length users_interests) /\ v <> u /\
        s = cosine_similarity (user_vector users_interests u)
                              (user_vector users_interests v) /\
        (0 <? s)%float = true) /\
    StronglySorted
      (fun a b => (snd b <? snd a)%float = true \/ (snd a = snd b /\ fst a < fst b))
      similar.
Proof.
  intros Hu.
  destruct (get_similar_users_Ok users_interests u) as [vi [Hvi Heq]]; [lia|].
  rewrite (Hvi (proj1 Hu)) in Heq. clear Hvi vi.
  eexists. split; [exact Heq|]. split.
  - intros v s.
    rewrite sorted_reverse_In, filter_In, similarity_row_entry. cbn.
    rewrite andb_true_iff, negb_true_iff, Z.eqb_neq. intuition congruence.
  - match goal with |- StronglySorted _ (sorted_reverse _ _ ?l) => set (pairs := l) end.
    assert (Hpos : forall p, In p pairs -> (0 <? snd p)%float = true).
    { intros p Hp. apply filter_In in Hp. destruct Hp as [_ Hp].
      now apply andb_true_iff in Hp. }
    assert (Hs : StronglySorted
                   (descending_stable snd PrimFloat.ltb (fun a b => fst a < fst b))
                   (sorted_reverse snd PrimFloat.ltb pairs)).
    { apply sorted_reverse_sorted with (comparable := nonneg).
      - exact ltb_asym.
      - exact ltb_negtrans.
      - apply Forall_forall. intros p Hp. now apply positive_nonneg, Hpos.
      - apply StronglySorted_filter, enumerate_from_increasing. }
    revert Hs. apply StronglySorted_weaken.
    intros a b Ha Hb [Hab Hord]. apply sorted_reverse_In in Ha, Hb.
    destruct (snd b <? snd a)%float eqn:E; [now left|right].
    split; [|now apply Hord].
    apply positive_tie_eq; auto.
Qed.

Lemma user_based_fold (similar : list (Z * float)) (d : list (string * float)) :
  fold_left
    (fun d p =>
       fold_left (fun d' interest => dict_add d' interest (snd p))
                 (interests_of users_interests (fst p)) d)
    similar d =
  fold_left (fun d e => dict_add d (fst e) (snd e))
            (user_based_increments users_interests similar) d.
Proof.
  revert d. induction similar as [|p similar IH]; intros d; cbn; [reflexivity|].
  now rewrite fold_left_app, fold_left_map, IH.
Qed.

(** [user_based_suggestions] as a pure ranking of the accumulated weights. *)
Lemma user_based_suggestions_eq (i : Z) (include_current_interests : bool)
      (similar : list (Z * float)) (mine : list string) :
  get_similar_users users_interests i = Ok similar ->
  getitem users_interests i = Ok mine ->
  user_based_suggestions users_interests i include_current_interests =
  Ok (let ranked :=
        sorted_reverse snd PrimFloat.ltb
          (accumulate (user_based_increments users_interests similar)) in
      if include_current_interests
      then ranked
      else filter (fun p => negb (contains mine (fst p))) ranked).
Proof.
  intros Hsim Hmine. unfold user_based_suggestions. rewrite Hsim. cbn [bind].
  rewrite foldM_pure with
    (g := fun d p => fold_left (fun d' interest => dict_add d' interest (snd p))
                               (interests_of users_interests (fst p)) d).
  - cbn [bind]. rewrite user_based_fold. fold (accumulate (user_based_increments users_interests similar)).
    destruct include_current_interests; [reflexivity|].
    unfold exclude_current. apply filterM_pure.
    intros p _. now rewrite Hmine.
  - intros [v s] d Hp. cbn [fst snd].
    destruct (get_similar_users_In _ _ _ _ _ Hsim Hp) as [Hv _].
    now rewrite getitem_interests_of.
Qed.

Lemma user_based_suggestions_error_iff (i : Z) (include_current_interests : bool) :
  user_based_suggestions users_interests i include_current_interests = IndexError <->
  i < - Z.of_nat (length users_interests) \/ Z.of_nat (length users_interests) <= i.
Proof.
  split.
  - intros H.
    destruct (Z_lt_ge_dec i (- Z.of_nat (length users_interests))); [now left|].
    destruct (Z_le_gt_dec (Z.of_nat (length users_interests)) i); [now right|].
    exfalso.
    destruct (get_similar_users_Ok users_interests i) as [vi [_ Hsim]]; [lia|].
    destruct (getitem_total users_interests i) as [mine Hmine]; [lia|].
    rewrite (user_based_suggestions_eq _ _ _ _ Hsim Hmine) in H. discriminate.
  - intros H. apply get_similar_users_error_iff in H.
    unfold user_based_suggestions. now rewrite H.
Qed.

Lemma user_based_increments_positive (i : Z) (similar : list (Z * float)) :
  get_similar_users users_interests i = Ok similar ->
  Forall (fun e => (0 <? snd e)%float = true)
         (user_based_increments users_interests similar).
Proof.
  intros Hsim. apply Forall_forall. intros e He.
  apply in_flat_map in He. destruct He as [[v s] [Hp He]].
  apply in_map_iff in He. destruct He as [x [<- _]]. cbn.
  now destruct (get_similar_users_In _ _ _ _ _ Hsim Hp) as [_ [_ Hs]].
Qed.

Lemma user_based_increments_keys (similar : list (Z * float)) (x : string) :
  In x (map fst (user_based_increments users_interests similar)) <->
  exists p, In p similar /\ In x (interests_of users_interests (fst p)).
Proof.
  rewrite in_map_iff. split.
  - intros [e [<- He]]. apply in_flat_map in He. destruct He as [p [Hp He]].
    apply in_map_iff in He. destruct He as [y [<- Hy]]. now exists p.
  - intros [p [Hp Hx]]. exists (x, snd p). split; [reflexivity|].
    apply in_flat_map. exists p. split; [exact Hp|].
    apply in_map_iff. now exists x.
Qed.

Lemma increments_of_holder (l : list string) (s : float) (x : string) :
  NoDup l ->
  map snd (filter (fun e : string * float => String.eqb (fst e) x)
                  (map (fun interest => (interest, s)) l)) =
  if contains l x then [s] else [].
Proof.
  unfold contains. induction l as [|y l IH]; intros Hnd; cbn; [reflexivity|].
  inversion Hnd as [|? ? Hy Hl]; subst.
  rewrite (String.eqb_sym x y).
  destruct (String.eqb_spec y x) as [->|Hne]; cbn.
  - rewrite (IH Hl).
    destruct (existsb (String.eqb x) l) eqn:E; [|reflexivity].
    exfalso. apply Hy. now apply contains_In.
  - now apply IH.
Qed.

Lemma interests_of_NoDup (v : Z) :
  Forall (@NoDup string) users_interests -> NoDup (interests_of users_interests v).
Proof.
  intros H. unfold interests_of.
  destruct (nth_in_or_default (Z.to_nat v) users_interests []) as [Hin| ->].
  - rewrite Forall_forall in H. now apply H.
  - constructor.
Qed.

(** With no interest listed twice by a user, the increments of an interest
    are the similarities of the similar users that hold it. *)
Lemma user_based_increments_of (similar : list (Z * float)) (x : string) :
  Forall (@NoDup string) users_interests ->
  map snd (filter (fun e => String.eqb (fst e) x)
                  (user_based_increments users_interests similar)) =
  map snd (filter (fun p => contains (interests_of users_interests (fst p)) x) similar).
Proof.
  intros Hnd. unfold user_based_increments.
  induction similar as [|p similar IH]; [reflexivity|].
  cbn [flat_map filter].
  rewrite filter_app, map_app, IH, increments_of_holder by now apply interests_of_NoDup.
  now destruct (contains _ x).
Qed.
End UserRanking.

(** ** The item-based side *)

Lemma nth_error_Some_nth {A : Type} (l : list A) (n : nat) (d x : A) :
  nth_error l n = Some x <-> (n < length l)%nat /\ x = nth n l d.
Proof.
  split.
  - intros H. split; [apply nth_error_Some; congruence|].
    symmetry. now apply nth_error_nth.
  - intros [Hn ->]. now apply nth_error_nth'.
Qed.

Lemma enumerate_from_map {A B : Type} (g : A -> B) (l : list A) (k : Z) :
  enumerate_from k (map g l) = map (fun p => (fst p, g (snd p))) (enumerate_from k l).
Proof.
  revert k. induction l as [|a l IH]; intros k; cbn; [reflexivity|].
  now rewrite IH.
Qed.

Lemma enumerate_from_NoDup {A : Type} (l : list A) (k : Z) :
  NoDup (map fst (enumerate_from k l)).
Proof.
  revert k. induction l as [|a l IH]; intros k; cbn; constructor; [|apply IH].
  rewrite in_map_iff. intros [[i x] [Hi Hin]]. cbn in Hi. subst i.
  apply enumerate_from_In in Hin. destruct Hin as [n [Hn _]]. lia.
Qed.

Lemma filter_key_absent {V : Type} (l : list (string * V)) (x : string) :
  ~ In x (map fst l) -> filter (fun e => String.eqb (fst e) x) l = [].
Proof.
  induction l as [|[k v] l IH]; cbn; [reflexivity|]. intros H.
  destruct (String.eqb_spec k x) as [->|Hne]; [tauto|]. apply IH. tauto.
Qed.

Lemma filter_key_unique {V : Type} (l : list (string * V)) (x : string) (v : V) :
  NoDup (map fst l) -> In (x, v) l ->
  filter (fun e => String.eqb (fst e) x) l = [(x, v)].
Proof.
  induction l as [|[k v'] l IH]; cbn; [tauto|].
  intros Hnd. inversion Hnd as [|? ? Hk Hl]; subst. intros [H|H].
  - inversion H; subst. rewrite String.eqb_refl. f_equal.
    now apply filter_key_absent.
  - destruct (String.eqb_spec k x) as [->|Hne]; [|now apply IH].
    exfalso. apply Hk. change x with (fst (x, v)). now apply in_map.
Qed.

Lemma flat_map_filter_map {A B C : Type} (h : A -> list B) (f : B -> bool) (g : B -> C)
      (l : list A) :
  map g (filter f (flat_map h l)) = flat_map (fun a => map g (filter f (h a))) l.
Proof.
  induction l as [|a l IH]; cbn; [reflexivity|].
  now rewrite filter_app, map_app, IH.
Qed.

Section ItemBased.
Variable users_interests : list (list string).

Lemma unique_interests_NoDup : NoDup (unique_interests users_interests).
Proof.
  unfold unique_interests.
  eapply Permutation_NoDup; [apply sorted_perm|apply set_of_NoDup].
Qed.

Lemma unique_interests_In (x : string) :
  In x (unique_interests users_interests) <-> In x (concat users_interests).
Proof.
  unfold unique_interests. rewrite <- (set_of_In (concat users_interests)).
  split; apply Permutation_in; [symmetry|]; apply sorted_perm.
Qed.

Lemma enumerate_unique_interests (j : Z) (x : string) :
  In (j, x) (enumerate (unique_interests users_interests)) <->
  0 <= j < Z.of_nat (length (unique_interests users_interests)) /\
  x = interest_name users_interests j.
Proof.
  rewrite enumerate_In, (nth_error_Some_nth _ _ EmptyString).
  unfold interest_name. intuition lia.
Qed.

Lemma getitem_interest_name (j : Z) :
  0 <= j < Z.of_nat (length (unique_interests users_interests)) ->
  getitem (unique_interests users_interests) j = Ok (interest_name users_interests j).
Proof.
  intros Hj. destruct (getitem_in_range _ j Hj) as [x [Hn ->]].
  unfold interest_name. now rewrite (nth_error_nth _ _ EmptyString Hn).
Qed.

Lemma interest_name_inj (i j : Z) :
  0 <= i < Z.of_nat (length (unique_interests users_interests)) ->
  0 <= j < Z.of_nat (length (unique_interests users_interests)) ->
  interest_name users_interests i = interest_name users_interests j -> i = j.
Proof.
  intros Hi Hj H. unfold interest_name in H.
  apply (proj1 (NoDup_nth _ EmptyString) unique_interests_NoDup) in H; lia.
Qed.

Lemma interest_user_matrix_length :
  length (interest_user_matrix users_interests) =
  length (unique_interests users_interests).
Proof. unfold interest_user_matrix. cbv zeta. now rewrite length_map, length_seq. Qed.

(** Every row of the transposed matrix has one slot per user. *)
Lemma interest_user_matrix_rows :
  Forall (fun v => length v = length users_interests)
         (interest_user_matrix users_interests).
Proof.
  apply Forall_forall. intros v Hv. unfold interest_user_matrix in Hv. cbv zeta in Hv.
  apply in_map_iff in Hv. destruct Hv as [j [<- _]].
  now rewrite length_map, user_interest_matrix_length.
Qed.

Lemma interest_similarities_length :
  length (interest_similarities users_interests) =
  length (unique_interests users_interests).
Proof.
  unfold interest_similarities. cbv zeta.
  now rewrite length_map, interest_user_matrix_length.
Qed.

Lemma interest_similarities_row (i : Z) (row : list float) :
  getitem (interest_similarities users_interests) i = Ok row ->
  exists vi,
    row = map (cosine_similarity vi) (interest_user_matrix users_interests) /\
    (0 <= i -> vi = interest_vector users_interests i).
Proof.
  intros H. apply getitem_Ok_nth in H. destruct H as [n [Hn Hi]].
  unfold interest_similarities in Hn. cbv zeta in Hn. rewrite nth_error_map in Hn.
  destruct (nth_error (interest_user_matrix users_interests) n) as [vi|] eqn:E;
    [|discriminate].
  cbn in Hn. inversion Hn; subst. exists vi. split; [reflexivity|].
  intros Hpos. apply (nth_error_Some_nth _ _ []) in E.
  destruct E as [_ ->]. now rewrite (Hi Hpos).
Qed.

Lemma interest_row_entry (vj : list Z) (i : Z) (s : float) :
  In (i, s) (enumerate (map (cosine_similarity vj)
                            (interest_user_matrix users_interests)))
  <-> 0 <= i < Z.of_nat (length (unique_interests users_interests)) /\
      s = cosine_similarity vj (interest_vector users_interests i).
Proof.
  rewrite enumerate_In, nth_error_map. unfold interest_vector.
  destruct (nth_error (interest_user_matrix users_interests) (Z.to_nat i)) as [w|] eqn:E;
    cbn.
  - apply (nth_error_Some_nth _ _ []) in E. destruct E as [Hn ->].
    rewrite interest_user_matrix_length in Hn.
    split.
    + intros [Hv H]. inversion H. split; [lia|reflexivity].
    + intros [Hv ->]. split; [lia|reflexivity].
  - apply nth_error_None in E. rewrite interest_user_matrix_length in E.
    split; [intros [_ H]; discriminate|]. intros [Hv _]. lia.
Qed.

Lemma get_similar_interests_Ok (j : Z) :
  - Z.of_nat (length (unique_interests users_interests)) <= j
    < Z.of_nat (length (unique_interests users_interests)) ->
  exists vj,
    (0 <= j -> vj = interest_vector users_interests j) /\
    get_similar_interests users_interests j =
    Ok (sorted_reverse snd PrimFloat.ltb
          (map (fun p => (interest_name users_interests (fst p), snd p))
               (filter (fun p => negb (j =? fst p) && (0 <? snd p)%float)
                       (enumerate (map (cosine_similarity vj)
                                       (interest_user_matrix users_interests)))))).
Proof.
  intros Hj. pose proof Hj as Hj'. rewrite <- interest_similarities_length in Hj'.
  destruct (getitem_total _ _ Hj') as [row Hrow].
  destruct (interest_similarities_row _ _ Hrow) as [vj [-> Hvj]].
  exists vj. split; [exact Hvj|].
  unfold get_similar_interests. rewrite Hrow. cbn [bind].
  rewrite mapM_pure with
    (g := fun p : Z * float => (interest_name users_interests (fst p), snd p));
    [reflexivity|].
  intros [i s] Hp. apply filter_In in Hp. destruct Hp as [Hp _].
  apply interest_row_entry in Hp. destruct Hp as [Hi _]. cbn [fst snd].
  now rewrite getitem_interest_name.
Qed.

Lemma get_similar_interests_total (j : Z) :
  - Z.of_nat (length (unique_interests users_interests)) <= j
    < Z.of_nat (length (unique_interests users_interests)) ->
  get_similar_interests users_interests j = Ok (similar_interests users_interests j).
Proof.
  intros Hj. destruct (get_similar_interests_Ok j Hj) as [vj [_ H]].
  unfold similar_interests. now rewrite H.
Qed.

Lemma get_similar_interests_error_iff (j : Z) :
  get_similar_interests users_interests j = IndexError <->
  j < - Z.of_nat (length (unique_interests users_interests)) \/
  Z.of_nat (length (unique_interests users_interests)) <= j.
Proof.
  split.
  - intros H.
    destruct (Z_lt_ge_dec j (- Z.of_nat (length (unique_interests users_interests))));
      [now left|].
    destruct (Z_le_gt_dec (Z.of_nat (length (unique_interests users_interests))) j);
      [now right|].
    rewrite get_similar_interests_total in H by lia. discriminate.
  - intros H. rewrite <- interest_similarities_length in H.
    apply getitem_error_iff in H.
    unfold get_similar_interests. now rewrite H.
Qed.

Lemma similar_interests_In (j : Z) (x : string) (s : float) :
  0 <= j < Z.of_nat (length (unique_interests users_interests)) ->
  In (x, s) (similar_interests users_interests j) <->
  exists i,
    0 <= i < Z.of_nat (length (unique_interests users_interests)) /\ i <> j /\
    x = interest_name users_interests i /\
    s = interest_similarity users_interests j i /\ (0 <? s)%float = true.
Proof.
  intros Hj. unfold similar_interests.
  destruct (get_similar_interests_Ok j) as [vj [Hvj ->]]; [lia|].
  rewrite (Hvj (proj1 Hj)). clear Hvj vj.
  rewrite sorted_reverse_In, in_map_iff. unfold interest_similarity. split.
  - intros [[i s'] [Heq Hp]]. cbn in Heq. inversion Heq; subst.
    apply filter_In in Hp. destruct Hp as [Hp Hc]. cbn in Hc.
    apply interest_row_entry in Hp.
    rewrite andb_true_iff, negb_true_iff, Z.eqb_neq in Hc.
    exists i. intuition congruence.
  - intros [i [Hi [Hne [-> [-> Hs]]]]].
    exists (i, cosine_similarity (interest_vector users_interests j)
                                 (interest_vector users_interests i)).
    split; [reflexivity|]. apply filter_In. split.
    + now apply interest_row_entry.
    + cbn. rewrite andb_true_iff, negb_true_iff, Z.eqb_neq. split; congruence.
Qed.

Lemma similar_interests_positive (j : Z) :
  Forall (fun e => (0 <? snd e)%float = true) (similar_interests users_interests j).
Proof.
  unfold similar_interests, get_similar_interests.
  destruct (getitem (interest_similarities users_interests) j) as [row|]; cbn;
    [|constructor].
  match goal with |- context [mapM ?f ?l] => destruct (mapM f l) as [pairs|] eqn:E end;
    cbn; [|constructor].
  apply Forall_forall. intros e He. apply sorted_reverse_In in He.
  apply (mapM_Forall _ (fun p : Z * float => (0 <? snd p)%float = true)
                     (fun e : string * float => (0 <? snd e)%float = true)) in E.
  - rewrite Forall_forall in E. now apply E.
  - intros p q Hp Hq.
    destruct (getitem (unique_interests users_interests) (fst p)); [|discriminate].
    cbn in Hq. now inversion Hq.
  - apply Forall_forall. intros p Hp. apply filter_In in Hp.
    destruct Hp as [_ Hp]. now apply andb_true_iff in Hp.
Qed.

Lemma similar_interests_NoDup (j : Z) :
  NoDup (map fst (similar_interests users_interests j)).
Proof.
  destruct (Z_lt_ge_dec j (- Z.of_nat (length (unique_interests users_interests))))
    as [Hlo|Hlo];
    [|destruct (Z_le_gt_dec (Z.of_nat (length (unique_interests users_interests))) j)
       as [Hhi|Hhi]].
  - unfold similar_interests.
    rewrite (proj2 (get_similar_interests_error_iff j)) by now left. constructor.
  - unfold similar_interests.
    rewrite (proj2 (get_similar_interests_error_iff j)) by now right. constructor.
  - unfold similar_interests.
    destruct (get_similar_interests_Ok j) as [vj [_ ->]]; [lia|].
    eapply Permutation_NoDup; [apply Permutation_map, sorted_reverse_perm|].
    rewrite map_map. cbn [fst].
    match goal with |- NoDup (map _ ?l) => set (pairs := l) end.
    assert (Hr : forall p, In p pairs ->
                 0 <= fst p < Z.of_nat (length (unique_interests users_interests))).
    { intros [i s] Hp. apply filter_In in Hp. destruct Hp as [Hp _].
      now apply interest_row_entry in Hp. }
    assert (Hnd : NoDup (map fst pairs)).
    { subst pairs. unfold enumerate.
      match goal with |- context [filter ?f (enumerate_from 0 ?l)] =>
        pose proof (enumerate_from_NoDup l 0) as H; revert H;
        generalize (enumerate_from 0 l) end.
      intros l H. induction l as [|p l IH]; cbn; [constructor|].
      cbn in H. inversion H as [|? ? Hp Hl]; subst.
      destruct (negb (j =? fst p) && (0 <? snd p)%float); [|now apply IH].
      cbn. constructor; [|now apply IH].
      intros Hin. apply Hp. apply in_map_iff in Hin. destruct Hin as [q [Hq Hin]].
      apply filter_In in Hin. apply in_map_iff. exists q. tauto. }
    rewrite <- (map_map fst (interest_name users_interests)).
    apply NoDup_map_NoDup_ForallPairs; [|exact Hnd].
    intros a b Ha Hb Heq.
    apply in_map_iff in Ha, Hb. destruct Ha as [pa [<- Ha]], Hb as [pb [<- Hb]].
    apply interest_name_inj; auto.
Qed.

(** What one held interest [j] adds to interest [i]. *)
Lemma similar_interests_of (j i : Z) :
  0 <= j < Z.of_nat (length (unique_interests users_interests)) ->
  0 <= i < Z.of_nat (length (unique_interests users_interests)) ->
  map snd (filter (fun e => String.eqb (fst e) (interest_name users_interests i))
                  (similar_interests users_interests j)) =
  if negb (j =? i) && (0 <? interest_similarity users_interests j i)%float
  then [interest_similarity users_interests j i]
  else [].
Proof.
  intros Hj Hi.
  destruct (negb (j =? i) && (0 <? interest_similarity users_interests j i)%float) eqn:Ec.
  - rewrite andb_true_iff, negb_true_iff, Z.eqb_neq in Ec.
    rewrite filter_key_unique with (v := interest_similarity users_interests j i);
      [reflexivity|apply similar_interests_NoDup|].
    apply similar_interests_In; [exact Hj|]. exists i. intuition congruence.
  - rewrite filter_key_absent; [reflexivity|].
    rewrite in_map_iff. intros [[x s] [Hx Hin]]. cbn in Hx. subst x.
    apply similar_interests_In in Hin; [|exact Hj].
    destruct Hin as [i' [Hi' [Hne [Hname [-> Hs]]]]].
    apply interest_name_inj in Hname; auto. subst i'.
    rewrite andb_false_iff, negb_false_iff, Z.eqb_eq in Ec.
    destruct Ec; congruence.
Qed.
End ItemBased.

Lemma flat_map_ext_in {A B : Type} (f g : A -> list B) (l : list A) :
  (forall a, In a l -> f a = g a) -> flat_map f l = flat_map g l.
Proof.
  induction l as [|a l IH]; cbn; intros H; [reflexivity|].
  rewrite H by now left. rewrite IH; [reflexivity|].
  intros b Hb. apply H. now right.
Qed.

Lemma flat_map_of_map {A B C : Type} (f : B -> list C) (h : A -> B) (l : list A) :
  flat_map f (map h l) = flat_map (fun a => f (h a)) l.
Proof. induction l as [|a l IH]; cbn; [reflexivity|]. now rewrite IH. Qed.

Section ItemRanking.
Variable users_interests : list (list string).

Lemma getitem_user_vector (i : Z) (vec : list Z) :
  getitem (user_interest_matrix users_interests) i = Ok vec ->
  length vec = length (unique_interests users_interests) /\
  (0 <= i -> vec = user_vector users_interests i).
Proof.
  intros H. apply getitem_Ok_nth in H. destruct H as [n [Hn Hi]]. split.
  - pose proof (user_interest_matrix_rows users_interests) as Hrows.
    rewrite Forall_forall in Hrows. apply Hrows. eapply nth_error_In, Hn.
  - intros Hpos. apply nth_error_user_interest_matrix in Hn.
    destruct Hn as [_ ->]. rewrite (Hi Hpos). f_equal. lia.
Qed.

Lemma item_based_fold (l : list (Z * Z)) (d : list (string * float)) :
  fold_left
    (fun d p =>
       if snd p =? 1
       then fold_left (fun d' q => dict_add d' (fst q) (snd q))
                      (similar_interests users_interests (fst p)) d
       else d)
    l d =
  fold_left (fun d e => dict_add d (fst e) (snd e))
            (flat_map (fun p => if snd p =? 1
                                then similar_interests users_interests (fst p)
                                else [])
                      l)
            d.
Proof.
  revert d. induction l as [|p l IH]; intros d; cbn [fold_left flat_map]; [reflexivity|].
  rewrite fold_left_app, IH. now destruct (snd p =? 1).
Qed.

(** [item_based_suggestions] as a pure ranking of the accumulated weights. *)
Lemma item_based_suggestions_eq (i : Z) (include_current_interests : bool)
      (vec : list Z) (mine : list string) :
  getitem (user_interest_matrix users_interests) i = Ok vec ->
  getitem users_interests i = Ok mine ->
  item_based_suggestions users_interests i include_current_interests =
  Ok (let ranked :=
        sorted_reverse snd PrimFloat.ltb
          (accumulate (item_based_increments users_interests vec)) in
      if include_current_interests
      then ranked
      else filter (fun p => negb (contains mine (fst p))) ranked).
Proof.
  intros Hvec Hmine. unfold item_based_suggestions. rewrite Hvec. cbn [bind].
  destruct (getitem_user_vector _ _ Hvec) as [Hlen _].
  rewrite foldM_pure with
    (g := fun d p =>
            if snd p =? 1
            then fold_left (fun d' q => dict_add d' (fst q) (snd q))
                           (similar_interests users_interests (fst p)) d
            else d).
  - cbn [bind]. rewrite item_based_fold.
    fold (item_based_increments users_interests vec).
    fold (accumulate (item_based_increments users_interests vec)).
    destruct include_current_interests; [reflexivity|].
    unfold exclude_current. apply filterM_pure.
    intros p _. now rewrite Hmine.
  - intros [j b] d Hp. cbn [fst snd].
    destruct (b =? 1); [|reflexivity].
    apply enumerate_In in Hp. destruct Hp as [Hj Hn].
    assert (Hlt : (Z.to_nat j < length vec)%nat) by (apply nth_error_Some; congruence).
    rewrite get_similar_interests_total by lia. reflexivity.
Qed.

Lemma item_based_suggestions_error_iff (i : Z) (include_current_interests : bool) :
  item_based_suggestions users_interests i include_current_interests = IndexError <->
  i < - Z.of_nat (length users_interests) \/ Z.of_nat (length users_interests) <= i.
Proof.
  split.
  - intros H.
    destruct (Z_lt_ge_dec i (- Z.of_nat (length users_interests))); [now left|].
    destruct (Z_le_gt_dec (Z.of_nat (length users_interests)) i); [now right|].
    exfalso.
    destruct (getitem_total (user_interest_matrix users_interests) i) as [vec Hvec];
      [rewrite user_interest_matrix_length; lia|].
    destruct (getitem_total users_interests i) as [mine Hmine]; [lia|].
    rewrite (item_based_suggestions_eq _ _ _ _ Hvec Hmine) in H. discriminate.
  - intros H. rewrite <- user_interest_matrix_length in H.
    apply getitem_error_iff in H.
    unfold item_based_suggestions. now rewrite H.
Qed.

Lemma item_based_increments_positive (vec : list Z) :
  Forall (fun e => (0 <? snd e)%float = true)
         (item_based_increments users_interests vec).
Proof.
  apply Forall_forall. intros e He. apply in_flat_map in He.
  destruct He as [p [_ He]]. destruct (snd p =? 1); [|contradiction].
  pose proof (similar_interests_positive users_interests (fst p)) as H.
  rewrite Forall_forall in H. now apply H.
Qed.

Lemma user_vector_enumerate (u : Z) :
  enumerate (user_vector users_interests u) =
  map (fun p => (fst p,
                 if contains (interests_of users_interests u) (snd p) then 1 else 0))
      (enumerate (unique_interests users_interests)).
Proof.
  unfold enumerate, user_vector, generate_user_interest_vector.
  apply (enumerate_from_map
           (fun interest =>
              if contains (interests_of users_interests u) interest then 1 else 0)).
Qed.

(** The interests that receive an increment: those with a positive
    similarity to a different interest that the user holds. *)
Lemma item_based_increments_keys (u : Z) (x : string) :
  In x (map fst (item_based_increments users_interests (user_vector users_interests u)))
  <-> exists j i,
      0 <= j < Z.of_nat (length (unique_interests users_interests)) /\
      0 <= i < Z.of_nat (length (unique_interests users_interests)) /\
      In (interest_name users_interests j) (interests_of users_interests u) /\
      i <> j /\ x = interest_name users_interests i /\
      (0 <? interest_similarity users_interests j i)%float = true.
Proof.
  unfold item_based_increments.
  rewrite user_vector_enumerate, flat_map_of_map, in_map_iff. cbn [fst snd]. split.
  - intros [[x' s] [Hx He]]. cbn in Hx. subst x'.
    apply in_flat_map in He. destruct He as [[j name] [Hp He]]. cbn [fst snd] in He.
    apply enumerate_unique_interests in Hp. destruct Hp as [Hj ->].
    destruct (contains _ (interest_name users_interests j)) eqn:Ec; [|contradiction].
    cbn in He. apply similar_interests_In in He; [|exact Hj].
    destruct He as [i [Hi [Hne [-> [-> Hs]]]]].
    exists j, i. apply contains_In in Ec. intuition.
  - intros [j [i [Hj [Hi [Hheld [Hne [-> Hs]]]]]]].
    exists (interest_name users_interests i, interest_similarity users_interests j i).
    split; [reflexivity|]. apply in_flat_map.
    exists (j, interest_name users_interests j). split.
    + now apply enumerate_unique_interests.
    + cbn [fst snd]. apply contains_In in Hheld. rewrite Hheld. cbn.
      apply similar_interests_In; [exact Hj|]. exists i. intuition.
Qed.

(** The increments of interest [i], in the order they are added. *)
Lemma item_based_increments_of (u i : Z) :
  0 <= i < Z.of_nat (length (unique_interests users_interests)) ->
  map snd (filter (fun e => String.eqb (fst e) (interest_name users_interests i))
                  (item_based_increments users_interests
                                         (user_vector users_interests u))) =
  item_contributions users_interests u i.
Proof.
  intros Hi. unfold item_based_increments, item_contributions.
  rewrite flat_map_filter_map, user_vector_enumerate, flat_map_of_map.
  apply flat_map_ext_in. intros [j name] Hp. cbn [fst snd].
  apply enumerate_unique_interests in Hp. destruct Hp as [Hj ->].
  destruct (contains _ (interest_name users_interests j)); cbn [andb].
  - cbn. now apply similar_interests_of.
  - reflexivity.
Qed.
End ItemRanking.

(** ** Cosine similarity *)

Lemma dot_zero_l (v w : list Z) (acc : Z) :
  Forall (fun x => x = 0) v ->
  fold_left (fun acc p => acc + fst p * snd p) (combine v w) acc = acc.
Proof.
  intros Hv. revert w acc. induction Hv as [|x v Hx Hv IH]; intros w acc; cbn;
    [reflexivity|].
  destruct w as [|y w]; cbn; [reflexivity|]. subst x. rewrite IH. lia.
Qed.

Lemma dot_zero_r (v w : list Z) (acc : Z) :
  Forall (fun x => x = 0) w ->
  fold_left (fun acc p => acc + fst p * snd p) (combine v w) acc = acc.
Proof.
  intros Hw. revert v acc. induction Hw as [|y w Hy Hw IH]; intros v acc.
  - now destruct v.
  - destruct v as [|x v]; cbn; [reflexivity|]. subst y. rewrite IH. lia.
Qed.

Lemma np_dot_zero (v w : list Z) :
  Forall (fun x => x = 0) v \/ Forall (fun x => x = 0) w -> np_dot v w = 0.
Proof.
  unfold np_dot. intros [H|H]; [rewrite dot_zero_l|rewrite dot_zero_r]; auto.
Qed.

Lemma cosine_similarity_zero (v w : list Z) :
  Forall (fun x => x = 0) v \/ Forall (fun x => x = 0) w ->
  cosine_similarity v w = nan.
Proof.
  intros H. unfold cosine_similarity, np_sqrt.
  rewrite (np_dot_zero v w H).
  destruct H as [H|H].
  - rewrite (np_dot_zero v v (or_introl H)). reflexivity.
  - rewrite (np_dot_zero w w (or_introl H)), Z.mul_0_r. reflexivity.
Qed.

Lemma wrap64_small (z : Z) : - 2 ^ 63 <= z < 2 ^ 63 -> wrap64 z = z.
Proof.
  intros H. unfold wrap64. rewrite Z.mod_small; lia.
Qed.

(** *** Exact conversions, square roots and quotients *)

Lemma digits2_log2 (p : positive) : Z.pos (digits2_pos p) = Z.log2 (Z.pos p) + 1.
Proof.
  assert (H : digits2_pos p = Pos.size p) by (induction p; cbn; congruence).
  rewrite H. destruct p; cbn; try reflexivity; now rewrite Pos.add_1_r.
Qed.

Lemma iter_xO_shiftl (m j : positive) :
  Z.pos (Pos.iter xO m j) = Z.pos m * 2 ^ Z.pos j.
Proof.
  rewrite <- Z.shiftl_mul_pow2 by lia. cbn [Z.shiftl].
  apply (Pos.iter_swap_gen _ _ Z.pos xO (Z.mul 2)). reflexivity.
Qed.

(** A 53-bit mantissa with an exponent in range is already rounded. *)
Lemma binary_round_aux_canonical (s : bool) (m : positive) (e : Z) :
  Z.log2 (Z.pos m) + 1 = 53 -> -1074 <= e <= 971 ->
  binary_round_aux prec emax s (Z.pos m) e loc_Exact = S754_finite s m e.
Proof.
  intros Hm He.
  assert (Hshift : forall e', e' = e ->
            shr_fexp prec emax (Z.pos m) e' loc_Exact
            = ({| shr_m := Z.pos m; shr_r := false; shr_s := false |}, e)).
  { intros e' ->. unfold shr_fexp, shr, Zdigits2, shr_record_of_loc.
    rewrite digits2_log2, Hm.
    replace (fexp prec emax (53 + e) - e) with 0; [reflexivity|].
    unfold fexp, SpecFloat.emin, prec, emax. lia. }
  unfold binary_round_aux. rewrite (Hshift e eq_refl).
  cbn [shr_m loc_of_shr_record round_nearest_even].
  rewrite (Hshift e eq_refl). cbn [shr_m].
  replace (e <=? emax - prec) with true; [reflexivity|].
  symmetry. apply Z.leb_le. unfold emax, prec. lia.
Qed.

Lemma log2_small (n : Z) : 0 < n < 2 ^ 53 -> 0 <= Z.log2 n <= 52.
Proof.
  intros H. split; [apply Z.log2_nonneg|].
  assert (Z.log2 n < 53) by (apply Z.log2_lt_pow2; lia). lia.
Qed.

Lemma normal_mantissa (n : Z) :
  0 < n < 2 ^ 53 -> Z.log2 (n * 2 ^ (52 - Z.log2 n)) + 1 = 53.
Proof.
  intros H. pose proof (log2_small n H).
  rewrite Z.log2_mul_pow2 by lia. lia.
Qed.

Lemma binary_normalize_small (n : Z) :
  0 < n < 2 ^ 53 -> binary_normalize prec emax n 0 false = normal n.
Proof.
  intros H. pose proof (log2_small n H) as Hl. pose proof (normal_mantissa n H) as Hm.
  unfold normal in *.
  destruct n as [|p|p]; try lia. cbn [binary_normalize]. unfold binary_round.
  rewrite digits2_log2, Z.add_0_r.
  set (l := Z.log2 (Z.pos p)) in *.
  replace (fexp prec emax (l + 1)) with (l - 52)
    by (unfold fexp, SpecFloat.emin, prec, emax; lia).
  unfold shl_align.
  destruct (l - 52 - 0) as [|d|d] eqn:E; try lia.
  - replace l with 52 in * by lia. cbn [Z.sub Z.pos_sub Z.opp Z.pow] in *.
    rewrite Z.mul_1_r in *. cbn [Z.to_pos].
    apply binary_round_aux_canonical; [exact Hm|lia].
  - assert (Hd : 52 - l = Z.pos d) by lia. rewrite Hd in *.
    rewrite <- iter_xO_shiftl in *. cbn [Z.to_pos].
    apply binary_round_aux_canonical; [exact Hm|lia].
Qed.

Lemma normal_valid (n : Z) : 0 < n < 2 ^ 53 -> valid_binary (normal n) = true.
Proof.
  intros H. pose proof (log2_small n H) as Hl. pose proof (normal_mantissa n H) as Hm.
  unfold normal. cbn [SpecFloat.valid_binary]. unfold bounded, canonical_mantissa.
  assert (Hpos : 0 < n * 2 ^ (52 - Z.log2 n)) by (apply Z.mul_pos_pos; [lia|apply Z.pow_pos_nonneg; lia]).
  destruct (n * 2 ^ (52 - Z.log2 n)) as [|q|q] eqn:E; try lia. cbn [Z.to_pos].
  rewrite digits2_log2, Hm. apply andb_true_iff. split.
  - apply Z.eqb_eq. unfold fexp, SpecFloat.emin, prec, emax. lia.
  - apply Z.leb_le. unfold prec, emax. lia.
Qed.

Lemma float_of_int_small (n : Z) :
  0 < n < 2 ^ 53 -> Prim2SF (float_of_int n) = normal n.
Proof.
  intros H. unfold float_of_int. rewrite binary_normalize_small by exact H.
  apply Prim2SF_SF2Prim, normal_valid, H.
Qed.

Lemma div_eucl_exact (a b : Z) : 0 < a -> Z.div_eucl (a * b) a = (b, 0).
Proof.
  intros Ha.
  rewrite (surjective_pairing (Z.div_eucl (a * b) a)).
  change (fst (Z.div_eucl (a * b) a)) with (a * b / a).
  change (snd (Z.div_eucl (a * b) a)) with ((a * b) mod a).
  rewrite (Z.mul_comm a b), Z.div_mul, Z.mod_mul by lia. reflexivity.
Qed.

(** A normal number divided by itself is exactly one. *)
Lemma SFdiv_self (m : positive) (e : Z) :
  Z.log2 (Z.pos m) + 1 = 53 ->
  SFdiv prec emax (S754_finite false m e) (S754_finite false m e)
  = S754_finite false 4503599627370496 (-52).
Proof.
  intros Hm. cbn [SFdiv]. unfold SFdiv_core_binary. cbv zeta. unfold Zdigits2.
  rewrite !digits2_log2, Hm, !Z.sub_diag.
  change (Z.min (fexp prec emax 0) 0) with (-53).
  change (0 - -53) with 53.
  rewrite Z.shiftl_mul_pow2 by lia.
  rewrite div_eucl_exact by lia.
  assert (Hloc : new_location (Z.pos m) 0 = loc_Exact)
    by (unfold new_location; destruct (Z.even (Z.pos m)); reflexivity).
  rewrite Hloc. vm_compute. reflexivity.
Qed.

Lemma log2_square (d : Z) :
  0 < d -> Z.log2 (d * d) = 2 * Z.log2 d \/ Z.log2 (d * d) = 2 * Z.log2 d + 1.
Proof.
  intros Hd. pose proof (Z.log2_spec d Hd) as [Hlo Hhi].
  pose proof (Z.log2_nonneg d) as Hk. set (k := Z.log2 d) in *.
  assert (Hp : 0 < 2 ^ k) by (apply Z.pow_pos_nonneg; lia).
  assert (H1 : 2 * k <= Z.log2 (d * d)).
  { apply Z.log2_le_pow2; [nia|].
    replace (2 * k) with (k + k) by lia. rewrite Z.pow_add_r by lia. nia. }
  assert (H2 : Z.log2 (d * d) < 2 * k + 2).
  { apply Z.log2_lt_pow2; [nia|].
    replace (2 * k + 2) with (Z.succ k + Z.succ k) by lia.
    rewrite Z.pow_add_r by lia. nia. }
  lia.
Qed.

Lemma sqrtrem_square (q : Z) : 0 < q -> Z.sqrtrem (q * q) = (q, 0).
Proof.
  intros Hq. pose proof (Z.sqrtrem_spec (q * q)) as H.
  destruct (Z.sqrtrem (q * q)) as [s r].
  destruct H as [H Hr]; [nia|].
  assert (s = q) by nia. subst s. f_equal. lia.
Qed.

(** The square root of an exactly represented square is exact. *)
Lemma SFsqrt_square (d : Z) :
  0 < d -> d * d < 2 ^ 53 ->
  SFsqrt prec emax (normal (d * d)) = normal d.
Proof.
  intros Hd Hsq.
  assert (Hd53 : 0 < d < 2 ^ 53) by nia.
  assert (Hdd : 0 < d * d < 2 ^ 53) by nia.
  pose proof (log2_small d Hd53) as Hk.
  pose proof (log2_small (d * d) Hdd) as Hl2.
  pose proof (normal_mantissa (d * d) Hdd) as Hm2.
  pose proof (normal_mantissa d Hd53) as Hm.
  pose proof (log2_square d Hd) as Hcase.
  unfold normal.
  set (k := Z.log2 d) in *. set (l2 := Z.log2 (d * d)) in *.
  assert (Hpow2 : 0 < 2 ^ (52 - l2)) by (apply Z.pow_pos_nonneg; lia).
  assert (Hpow : 0 < 2 ^ (52 - k)) by (apply Z.pow_pos_nonneg; lia).
  destruct (d * d * 2 ^ (52 - l2)) as [|mx|mx] eqn:E; try nia.
  cbn [Z.to_pos SFsqrt]. unfold SFsqrt_core_binary. cbv zeta. unfold Zdigits2.
  rewrite digits2_log2, Hm2.
  replace (Z.min (fexp prec emax (Z.div2 (53 + (l2 - 52) + 1))) (Z.div2 (l2 - 52)))
    with (k - 52)
    by (unfold fexp, SpecFloat.emin, prec, emax; rewrite !Z.div2_div;
        Z.to_euclidean_division_equations; lia).
  assert (Hroot : exists s : Z,
             l2 - 52 - 2 * (k - 52) = s /\ 0 < s /\
             Z.shiftl (Z.pos mx) s = (d * 2 ^ (52 - k)) * (d * 2 ^ (52 - k))).
  { exists (l2 - 52 - 2 * (k - 52)). split; [reflexivity|]. split; [lia|].
    rewrite Z.shiftl_mul_pow2 by lia. rewrite <- E.
    replace (l2 - 52 - 2 * (k - 52)) with ((52 - k) + (52 - k) - (52 - l2)) by lia.
    assert (Hsplit : 2 ^ (52 - k) * 2 ^ (52 - k)
                     = 2 ^ (52 - l2) * 2 ^ (52 - k + (52 - k) - (52 - l2))).
    { rewrite <- !Z.pow_add_r by lia. f_equal. lia. }
    nia. }
  destruct Hroot as [s [-> [Hs Hshift]]].
  destruct s as [|s|s]; try lia.
  rewrite Hshift, sqrtrem_square by nia.
  cbn [Z.eqb].
  destruct (d * 2 ^ (52 - k)) as [|q|q] eqn:Eq; try nia.
  cbn [Z.to_pos]. apply binary_round_aux_canonical; [exact Hm|lia].
Qed.

Lemma cosine_similarity_self_exact (v : list Z) :
  0 < np_dot v v -> np_dot v v * np_dot v v < 2 ^ 53 ->
  cosine_similarity v v = 1%float.
Proof.
  intros Hd Hsq. unfold cosine_similarity, np_sqrt.
  set (d := np_dot v v) in *.
  assert (Hd53 : 0 < d < 2 ^ 53) by nia.
  rewrite wrap64_small by lia.
  apply Prim2SF_inj.
  rewrite div_spec, sqrt_spec, !float_of_int_small by nia.
  unfold SF64div, SF64sqrt. rewrite SFsqrt_square by assumption.
  pose proof (normal_mantissa d Hd53) as Hm. unfold normal.
  assert (Hpos : 0 < d * 2 ^ (52 - Z.log2 d))
    by (apply Z.mul_pos_pos; [lia|apply Z.pow_pos_nonneg; pose proof (log2_small d Hd53); lia]).
  destruct (d * 2 ^ (52 - Z.log2 d)) as [|m|m]; try lia.
  cbn [Z.to_pos]. now rewrite SFdiv_self.
Qed.

(** ** The two rankers on a valid user *)

Lemma user_based_increments_fst (users_interests : list (list string))
      (similar : list (Z * float)) :
  map fst (user_based_increments users_interests similar) =
  flat_map (fun p => interests_of users_interests (fst p)) similar.
Proof.
  unfold user_based_increments.
  induction similar as [|p similar IH]; cbn; [reflexivity|].
  rewrite map_app, map_map, IH. cbn. now rewrite map_id.
Qed.

Section Rankers.
Variable users_interests : list (list string).

Lemma user_based_ranked (u : Z) (include_current_interests : bool) :
  0 <= u < Z.of_nat (length users_interests) ->
  exists similar,
    get_similar_users users_interests u = Ok similar /\
    user_based_suggestions users_interests u include_current_interests =
    Ok (let ranked :=
          sorted_reverse snd PrimFloat.ltb
            (accumulate (user_based_increments users_interests similar)) in
        if include_current_interests
        then ranked
        else filter (fun p => negb (contains (interests_of users_interests u) (fst p)))
                    ranked).
Proof.
  intros Hu.
  destruct (get_similar_users_spec users_interests u Hu) as [similar [Hsim _]].
  exists similar. split; [exact Hsim|].
  apply user_based_suggestions_eq; [exact Hsim|].
  now apply getitem_interests_of.
Qed.

Lemma item_based_ranked (u : Z) (include_current_interests : bool) :
  0 <= u < Z.of_nat (length users_interests) ->
  item_based_suggestions users_interests u include_current_interests =
  Ok (let ranked :=
        sorted_reverse snd PrimFloat.ltb
          (accumulate (item_based_increments users_interests
                                             (user_vector users_interests u))) in
      if include_current_interests
      then ranked
      else filter (fun p => negb (contains (interests_of users_interests u) (fst p)))
                  ranked).
Proof.
  intros Hu.
  destruct (getitem_total (user_interest_matrix users_interests) u) as [vec Hvec];
    [rewrite user_interest_matrix_length; lia|].
  destruct (getitem_user_vector _ _ _ Hvec) as [_ Hv]. rewrite (Hv (proj1 Hu)) in Hvec.
  apply item_based_suggestions_eq; [exact Hvec|].
  now apply getitem_interests_of.
Qed.

(** Membership in a ranking, with or without the user's own interests. *)
Lemma ranked_In (increments : list (string * float)) (mine : list string)
      (include_current_interests : bool) (x : string) (w : float) :
  In (x, w)
     (let ranked := sorted_reverse snd PrimFloat.ltb (accumulate increments) in
      if include_current_interests
      then ranked
      else filter (fun p => negb (contains mine (fst p))) ranked) ->
  In (x, w) (accumulate increments) /\
  (include_current_interests = false -> ~ In x mine).
Proof.
  cbv zeta. destruct include_current_interests.
  - rewrite sorted_reverse_In. intros H. split; [exact H|discriminate].
  - rewrite filter_In, sorted_reverse_In. cbn. intros [H Hc]. split; [exact H|].
    intros _. apply contains_not_In. now destruct (contains mine x).
Qed.

Lemma ranked_sorted (increments : list (string * float)) (mine : list string)
      (include_current_interests : bool) :
  Forall (fun e => (0 <? snd e)%float = true) increments ->
  StronglySorted
    (fun a b =>
       (snd b <? snd a)%float = true \/
       ((snd a =? snd b)%float = true /\
        (index_of (fst a) (map fst increments)
         < index_of (fst b) (map fst increments))%nat))
    (let ranked := sorted_reverse snd PrimFloat.ltb (accumulate increments) in
     if include_current_interests
     then ranked
     else filter (fun p => negb (contains mine (fst p))) ranked).
Proof.
  intros Hpos. cbv zeta. destruct include_current_interests.
  - now apply ranking_sorted.
  - now apply StronglySorted_filter, ranking_sorted.
Qed.

(** A ranking with default filtering is non-empty exactly when some
    interest that received an increment is not the user's own. *)
Lemma ranked_nonempty (increments : list (string * float)) (mine : list string) :
  filter (fun p => negb (contains mine (fst p)))
         (sorted_reverse snd PrimFloat.ltb (accumulate increments)) <> [] <->
  exists x, In x (map fst increments) /\ ~ In x mine.
Proof.
  split.
  - intros H.
    destruct (filter _ _) as [|[x w] l] eqn:E; [contradiction|].
    assert (Hin : In (x, w) ((x, w) :: l)) by now left.
    rewrite <- E in Hin. apply filter_In in Hin. destruct Hin as [Hin Hc].
    apply sorted_reverse_In in Hin. cbn in Hc.
    exists x. split.
    + apply accumulate_keys. change x with (fst (x, w)). now apply in_map.
    + apply contains_not_In. now destruct (contains mine x).
  - intros [x [Hx Hmine]] E.
    apply accumulate_keys, in_map_iff in Hx. destruct Hx as [[x' w] [Hx' Hin]].
    cbn in Hx'. subst x'.
    assert (Hf : In (x, w) (filter (fun p => negb (contains mine (fst p)))
                                   (sorted_reverse snd PrimFloat.ltb
                                                   (accumulate increments)))).
    { apply filter_In. split; [now apply sorted_reverse_In|].
      cbn. apply contains_not_In in Hmine. now rewrite Hmine. }
    rewrite E in Hf. contradiction.
Qed.

(** With no interest listed twice by any user, the weight of an interest
    is the running sum of the similarities of the similar users holding it. *)
Lemma user_based_weights (u : Z) (include_current_interests : bool) :
  Forall (@NoDup string) users_interests ->
  0 <= u < Z.of_nat (length users_interests) ->
  exists similar suggestions,
    get_similar_users users_interests u = Ok similar /\
    user_based_suggestions users_interests u include_current_interests = Ok suggestions /\
    (forall x w,
        In (x, w) suggestions ->
        w = float_sum
              (map snd (filter (fun p => contains (interests_of users_interests (fst p)) x)
                               similar))) /\
    StronglySorted
      (fun a b =>
         (snd b <? snd a)%float = true \/
         ((snd a =? snd b)%float = true /\
          (index_of (fst a) (flat_map (fun p => interests_of users_interests (fst p)) similar)
           < index_of (fst b) (flat_map (fun p => interests_of users_interests (fst p)) similar))%nat))
      suggestions.
Proof.
  intros Hnd Hu.
  destruct (user_based_ranked u include_current_interests Hu) as [similar [Hsim Heq]].
  eexists similar, _. split; [exact Hsim|]. split; [exact Heq|]. split.
  - intros x w Hin. apply ranked_In in Hin. destruct Hin as [Hin _].
    apply accumulate_In in Hin. now rewrite user_based_increments_of in Hin.
  - rewrite <- user_based_increments_fst.
    apply ranked_sorted. now apply user_based_increments_positive with (i := u).
Qed.
End Rankers.

Lemma all_distinct_NoDup (l : list string) : all_distinct l = true -> NoDup l.
Proof.
  induction l as [|x l IH]; cbn; [constructor|].
  rewrite andb_true_iff, negb_true_iff. intros [Hx Hl].
  constructor; [now apply contains_not_In|now apply IH].
Qed.

Lemma notebook_interests_distinct : Forall (@NoDup string) Notebook.users_interests.
Proof.
  apply Forall_forall. intros l Hl. apply all_distinct_NoDup.
  assert (H : forallb all_distinct Notebook.users_interests = true)
    by (vm_compute; reflexivity).
  rewrite forallb_forall in H. now apply H.
Qed.

(** ** The canonical order of the interests *)

Lemma string_compare_not_lt_trans (a b c : string) :
  String.compare a b <> Lt -> String.compare b c <> Lt -> String.compare a c <> Lt.
Proof.
  revert b c. induction a as [|x a IH]; intros [|y b] [|z c]; cbn; try congruence.
  unfold Ascii.compare.
  destruct (N.compare_spec (N_of_ascii x) (N_of_ascii y)) as [Exy|Lxy|Gxy];
    destruct (N.compare_spec (N_of_ascii y) (N_of_ascii z)) as [Eyz|Lyz|Gyz];
    destruct (N.compare_spec (N_of_ascii x) (N_of_ascii z)) as [Exz|Lxz|Gxz];
    try congruence; try lia.
  apply IH.
Qed.

Lemma string_ltb_asym (a b : string) : String.ltb a b = true -> String.ltb b a = false.
Proof.
  unfold String.ltb. rewrite (String.compare_antisym b a).
  now destruct (String.compare a b).
Qed.

Lemma string_ltb_negtrans (a b c : string) :
  String.ltb a b = false -> String.ltb b c = false -> String.ltb a c = false.
Proof.
  unfold String.ltb. intros Hab Hbc.
  pose proof (string_compare_not_lt_trans a b c) as H.
  destruct (String.compare a b), (String.compare b c), (String.compare a c);
    try discriminate; try reflexivity; exfalso; apply H; congruence.
Qed.

Lemma string_ltb_total (a b : string) :
  String.ltb a b = false -> String.ltb b a = false -> a = b.
Proof.
  unfold String.ltb. rewrite (String.compare_antisym b a).
  destruct (String.compare a b) eqn:E; cbn; try discriminate.
  intros _ _. now apply String.compare_eq_iff.
Qed.

Lemma sorted_as_sorted_reverse {A K : Type} (key : A -> K) (lt : K -> K -> bool)
      (l : list A) :
  sorted key lt l = sorted_reverse key (fun a b => lt b a) l.
Proof.
  unfold sorted, sorted_reverse.
  induction l as [|x l IH]; cbn [fold_right]; [reflexivity|]. rewrite IH.
  generalize (fold_right (insert_reverse key (fun a b => lt b a)) [] l). intros s.
  induction s as [|y s IHs]; cbn; [reflexivity|]. now rewrite IHs.
Qed.

Lemma StronglySorted_distinct {A : Type} (R : A -> A -> Prop) (l : list A) :
  NoDup l -> StronglySorted R l -> StronglySorted (fun a b => R a b /\ a <> b) l.
Proof.
  intros Hnd Hs. induction Hs as [|a l Hs IH Hall]; [constructor|].
  inversion Hnd as [|? ? Ha Hl]; subst.
  constructor; [now apply IH|].
  rewrite Forall_forall in *. intros b Hb. split; [now apply Hall|].
  intros ->. contradiction.
Qed.

(** [unique_interests] is the set of all interests in strictly ascending
    order: that is what [sorted(list({...}))] is, whatever order the set
    lists its elements in. *)
Lemma unique_interests_ascending (users_interests : list (list string)) :
  StronglySorted (fun a b => String.ltb a b = true) (unique_interests users_interests).
Proof.
  pose proof (unique_interests_NoDup users_interests) as Hnd.
  unfold unique_interests in *. rewrite sorted_as_sorted_reverse in *.
  assert (Hs : StronglySorted
                 (descending_stable (fun s : string => s) (fun a b => String.ltb b a)
                                    (fun _ _ => True))
                 (sorted_reverse (fun s : string => s) (fun a b => String.ltb b a)
                                 (set_of (concat users_interests)))).
  { apply sorted_reverse_sorted with (comparable := fun _ => True).
    - intros a b. apply string_ltb_asym.
    - intros a b c _ Hab Hbc. now apply string_ltb_negtrans with (b := b).
    - now apply Forall_forall.
    - apply StronglySorted_trivial. }
  apply (StronglySorted_distinct _ _ Hnd) in Hs.
  revert Hs. apply StronglySorted_weaken.
  intros a b _ _ [[Hba _] Hne].
  destruct (String.ltb a b) eqn:E; [reflexivity|].
  exfalso. apply Hne. now apply string_ltb_total.
Qed.

(** ** Symmetry *)

Lemma dot_comm (v w : list Z) (acc : Z) :
  fold_left (fun acc p => acc + fst p * snd p) (combine v w) acc =
  fold_left (fun acc p => acc + fst p * snd p) (combine w v) acc.
Proof.
  revert w acc. induction v as [|x v IH]; intros [|y w] acc; cbn; try reflexivity.
  now rewrite IH, (Z.mul_comm x y).
Qed.

Lemma np_dot_comm (v w : list Z) : np_dot v w = np_dot w v.
Proof. unfold np_dot. now rewrite dot_comm. Qed.

Lemma cosine_similarity_symmetric (v w : list Z) :
  cosine_similarity v w = cosine_similarity w v.
Proof.
  unfold cosine_similarity.
  now rewrite (np_dot_comm v w), (Z.mul_comm (np_dot v v)).
Qed.

(** ** Membership vectors and the diagonals *)

Lemma binary_dot_self (v : list Z) (acc : Z) :
  Forall (fun x => x = 0 \/ x = 1) v ->
  fold_left (fun acc p => acc + fst p * snd p) (combine v v) acc =
  acc + Z.of_nat (count_occ Z.eq_dec v 1).
Proof.
  intros Hv. revert acc. induction Hv as [|x v Hx Hv IH]; intros acc; cbn [combine fold_left].
  - cbn. lia.
  - rewrite IH. cbn [fst snd count_occ].
    destruct Hx as [->| ->]; destruct (Z.eq_dec _ 1); try lia.
Qed.

Lemma binary_np_dot_self (v : list Z) :
  Forall (fun x => x = 0 \/ x = 1) v ->
  In 1 v ->
  Z.of_nat (length v) <= 2 ^ 26 ->
  0 < np_dot v v /\ np_dot v v * np_dot v v < 2 ^ 53.
Proof.
  intros Hv H1 Hlen. unfold np_dot. rewrite binary_dot_self by exact Hv.
  pose proof (count_occ_bound Z.eq_dec 1 v) as Hb.
  apply (count_occ_In Z.eq_dec) in H1.
  rewrite wrap64_small by lia.
  split; [lia|]. change (2 ^ 53) with (2 * (2 ^ 26 * 2 ^ 26)). nia.
Qed.

Section Diagonals.
Variable users_interests : list (list string).

Lemma generate_user_interest_vector_binary (user_interests : list string) :
  Forall (fun x => x = 0 \/ x = 1)
         (generate_user_interest_vector users_interests user_interests).
Proof.
  apply Forall_forall. intros x Hx. apply in_map_iff in Hx.
  destruct Hx as [s [<- _]]. destruct (contains user_interests s); auto.
Qed.

Lemma interests_of_In (u : Z) :
  0 <= u < Z.of_nat (length users_interests) ->
  In (interests_of users_interests u) users_interests.
Proof. intros Hu. apply nth_In. lia. Qed.

Lemma user_vector_holds (u : Z) :
  0 <= u < Z.of_nat (length users_interests) ->
  interests_of users_interests u <> [] ->
  In 1 (user_vector users_interests u).
Proof.
  intros Hu Hne. destruct (interests_of users_interests u) as [|x l] eqn:E;
    [contradiction|].
  apply in_map_iff. exists x. rewrite E. split.
  - cbn. now rewrite String.eqb_refl.
  - apply unique_interests_In, in_concat.
    exists (x :: l). split; [rewrite <- E; now apply interests_of_In|now left].
Qed.

Lemma interest_vector_entries (j : Z) :
  0 <= j < Z.of_nat (length (unique_interests users_interests)) ->
  interest_vector users_interests j =
  map (fun user_interests =>
         if contains user_interests (interest_name users_interests j) then 1 else 0)
      users_interests.
Proof.
  intros Hj. unfold interest_vector, interest_user_matrix. cbv zeta.
  rewrite nth_indep with (d' := map (fun v => nth (Z.to_nat j) v 0)
                                    (user_interest_matrix users_interests))
    by (rewrite length_map, length_seq; lia).
  rewrite (map_nth (fun j' => map (fun v => nth j' v 0)
                                  (user_interest_matrix users_interests))).
  rewrite seq_nth by lia. cbn [Nat.add].
  unfold user_interest_matrix. rewrite map_map.
  apply map_ext. intros l. unfold generate_user_interest_vector, interest_name.
  rewrite nth_indep with (d' := if contains l EmptyString then 1 else 0)
    by (rewrite length_map; lia).
  now rewrite (map_nth (fun interest => if contains l interest then 1 else 0)).
Qed.

Lemma interest_vector_binary (j : Z) :
  0 <= j < Z.of_nat (length (unique_interests users_interests)) ->
  Forall (fun x => x = 0 \/ x = 1) (interest_vector users_interests j).
Proof.
  intros Hj. rewrite interest_vector_entries by exact Hj.
  apply Forall_forall. intros x Hx. apply in_map_iff in Hx.
  destruct Hx as [l [<- _]]. destruct (contains l _); auto.
Qed.

Lemma interest_vector_holds (j : Z) :
  0 <= j < Z.of_nat (length (unique_interests users_interests)) ->
  In 1 (interest_vector users_interests j).
Proof.
  intros Hj. rewrite interest_vector_entries by exact Hj.
  assert (Hin : In (interest_name users_interests j) (concat users_interests)).
  { apply unique_interests_In. apply nth_In. lia. }
  apply in_concat in Hin. destruct Hin as [l [Hl Hx]].
  apply in_map_iff. exists l. split; [|exact Hl].
  apply contains_In in Hx. now rewrite Hx.
Qed.

Lemma user_similarities_entry (u v : Z) :
  0 <= u < Z.of_nat (length users_interests) ->
  0 <= v < Z.of_nat (length users_interests) ->
  getitem2 (user_similarities users_interests) u v =
  Ok (cosine_similarity (user_vector users_interests u) (user_vector users_interests v)).
Proof.
  intros Hu Hv. unfold getitem2.
  destruct (getitem_total (user_similarities users_interests) u) as [row Hrow];
    [rewrite user_similarities_length; lia|].
  rewrite Hrow. cbn [bind].
  destruct (user_similarities_row _ _ _ Hrow) as [vi [-> Hvi]].
  rewrite (Hvi (proj1 Hu)).
  assert (Hin : In (v, cosine_similarity (user_vector users_interests u)
                                        (user_vector users_interests v))
                   (enumerate (map (cosine_similarity (user_vector users_interests u))
                                   (user_interest_matrix users_interests))))
    by (apply similarity_row_entry; split; [exact Hv|reflexivity]).
  apply enumerate_In in Hin. destruct Hin as [_ Hn].
  destruct (getitem_in_range
              (map (cosine_similarity (user_vector users_interests u))
                   (user_interest_matrix users_interests)) v) as [x [Hx ->]];
    [rewrite length_map, user_interest_matrix_length; lia|].
  congruence.
Qed.

Lemma interest_similarities_entry (i j : Z) :
  0 <= i < Z.of_nat (length (unique_interests users_interests)) ->
  0 <= j < Z.of_nat (length (unique_interests users_interests)) ->
  getitem2 (interest_similarities users_interests) i j =
  Ok (interest_similarity users_interests i j).
Proof.
  intros Hi Hj. unfold getitem2.
  destruct (getitem_total (interest_similarities users_interests) i) as [row Hrow];
    [rewrite interest_similarities_length; lia|].
  rewrite Hrow. cbn [bind].
  destruct (interest_similarities_row _ _ _ Hrow) as [vi [-> Hvi]].
  rewrite (Hvi (proj1 Hi)).
  assert (Hin : In (j, interest_similarity users_interests i j)
                   (enumerate (map (cosine_similarity (interest_vector users_interests i))
                                   (interest_user_matrix users_interests))))
    by (apply interest_row_entry; split; [exact Hj|reflexivity]).
  apply enumerate_In in Hin. destruct Hin as [_ Hn].
  destruct (getitem_in_range
              (map (cosine_similarity (interest_vector users_interests i))
                   (interest_user_matrix users_interests)) j) as [x [Hx ->]];
    [rewrite length_map, interest_user_matrix_length; lia|].
  congruence.
Qed.
End Diagonals.

Lemma index_of_nth (l : list string) (n : nat) :
  NoDup l -> (n < length l)%nat -> index_of (nth n l EmptyString) l = n.
Proof.
  intros Hnd. revert n. induction Hnd as [|x l Hx Hnd IH]; intros n Hn; cbn in *; [lia|].
  destruct n as [|n].
  - now rewrite String.eqb_refl.
  - destruct (String.eqb_spec x (nth n l EmptyString)) as [->|Hne].
    + exfalso. apply Hx. apply nth_In. lia.
    + rewrite IH; [reflexivity|lia].
Qed.

Lemma StronglySorted_map_intro {A B : Type} (R : B -> B -> Prop) (f : A -> B)
      (l : list A) :
  StronglySorted (fun a b => R (f a) (f b)) l -> StronglySorted R (map f l).
Proof.
  intros Hs. induction Hs as [|a l Hs IH Hall]; cbn; constructor; [exact IH|].
  rewrite Forall_forall in *. intros b Hb. apply in_map_iff in Hb.
  destruct Hb as [a' [<- Ha']]. now apply Hall.
Qed.

Lemma get_similar_interests_spec (users_interests : list (list string)) (j : Z) :
  0 <= j < Z.of_nat (length (unique_interests users_interests)) ->
  exists similar,
    get_similar_interests users_interests j = Ok similar /\
    (forall x s,
        In (x, s) similar <->
        exists i,
          0 <= i < Z.of_nat (length (unique_interests users_interests)) /\ i <> j /\
          x = interest_name users_interests i /\
          s = interest_similarity users_interests j i /\ (0 <? s)%float = true) /\
    StronglySorted
      (fun a b =>
         (snd b <? snd a)%float = true \/
         (snd a = snd b /\
          (index_of (fst a) (unique_interests users_interests)
           < index_of (fst b) (unique_interests users_interests))%nat))
      similar.
Proof.
  intros Hj. exists (similar_interests users_interests j).
  split; [apply get_similar_interests_total; lia|].
  split; [intros x s; now apply similar_interests_In|].
  unfold similar_interests.
  destruct (get_similar_interests_Ok users_interests j) as [vj [_ ->]]; [lia|].
  match goal with |- StronglySorted _ (sorted_reverse _ _ (map ?f ?l)) =>
    set (pairs := l); set (name := f) end.
  assert (Hr : forall p, In p pairs ->
               0 <= fst p < Z.of_nat (length (unique_interests users_interests)) /\
               (0 <? snd p)%float = true).
  { intros [i s] Hp. apply filter_In in Hp. destruct Hp as [Hp Hc].
    apply interest_row_entry in Hp. cbn in Hc. apply andb_true_iff in Hc. cbn. tauto. }
  assert (Hs : StronglySorted
                 (descending_stable snd PrimFloat.ltb
                    (fun a b =>
                       (index_of (fst a) (unique_interests users_interests)
                        < index_of (fst b) (unique_interests users_interests))%nat))
                 (sorted_reverse snd PrimFloat.ltb (map name pairs))).
  { apply sorted_reverse_sorted with (comparable := nonneg).
    - exact ltb_asym.
    - exact ltb_negtrans.
    - apply Forall_forall. intros q Hq. apply in_map_iff in Hq.
      destruct Hq as [p [<- Hp]]. apply positive_nonneg. now apply Hr.
    - apply StronglySorted_map_intro.
      assert (Hinc : StronglySorted (fun a b : Z * float => fst a < fst b) pairs)
        by apply StronglySorted_filter, enumerate_from_increasing.
      revert Hinc. apply StronglySorted_weaken. intros a b Ha Hb Hab.
      subst name. cbn [fst]. unfold interest_name.
      rewrite !index_of_nth; try apply unique_interests_NoDup;
        destruct (Hr a Ha), (Hr b Hb); lia. }
  revert Hs. apply StronglySorted_weaken.
  intros a b Ha Hb [Hab Hord]. apply sorted_reverse_In in Ha, Hb.
  assert (Hpos : forall q, In q (map name pairs) -> (0 <? snd q)%float = true).
  { intros q Hq. apply in_map_iff in Hq. destruct Hq as [p [<- Hp]]. now apply Hr. }
  destruct (snd b <? snd a)%float eqn:E; [now left|right].
  split; [|now apply Hord].
  apply positive_tie_eq; auto.
Qed.

(** ** Positive similarities *)

(** Roots and quotients of normal numbers of moderate exponent stay normal,
    so they are positive. *)

Lemma log2_bounds (m L : Z) : 0 < m -> Z.log2 m = L -> 2 ^ L <= m < 2 ^ (L + 1).
Proof. intros Hm <-. apply (Z.log2_spec m Hm). Qed.

(** Rounding a mantissa of at most 54 bits shifts it by at most one bit. *)
Lemma shr_fexp_small (m e : Z) (l : location) :
  0 < m < 2 ^ 54 -> -1074 <= e ->
  0 < shr_m (fst (shr_fexp prec emax m e l)) < 2 ^ 53 /\
  e <= snd (shr_fexp prec emax m e l) <= e + 1.
Proof.
  intros Hm He. destruct m as [|p|p]; try lia.
  unfold shr_fexp, shr, Zdigits2. rewrite digits2_log2.
  assert (HL : 0 <= Z.log2 (Z.pos p) <= 53).
  { split; [apply Z.log2_nonneg|].
    assert (Z.log2 (Z.pos p) < 54) by (apply Z.log2_lt_pow2; lia). lia. }
  pose proof (log2_bounds (Z.pos p) _ (proj1 Hm) eq_refl) as Hb.
  set (L := Z.log2 (Z.pos p)) in *.
  assert (Hrec : shr_m (shr_record_of_loc (Z.pos p) l) = Z.pos p)
    by (destruct l as [|[]]; reflexivity).
  destruct (fexp prec emax (L + 1 + e) - e) as [|n|n] eqn:En;
    unfold fexp, SpecFloat.emin, prec, emax in En; cbn [fst snd].
  - rewrite Hrec. assert (L <= 52) by lia.
    assert (2 ^ (L + 1) <= 2 ^ 53) by (apply Z.pow_le_mono_r; lia). lia.
  - assert (L = 53) by lia. assert (n = 1%positive) by lia. subst n.
    replace L with 53 in * by lia. cbn [iter_pos].
    destruct l as [|[]]; cbn [shr_record_of_loc shr_1];
      destruct p as [p|p|]; cbn [shr_m]; lia.
  - rewrite Hrec. assert (L <= 52) by lia.
    assert (2 ^ (L + 1) <= 2 ^ 53) by (apply Z.pow_le_mono_r; lia). lia.
Qed.

Lemma round_nearest_even_small (m : Z) (l : location) :
  0 < m < 2 ^ 53 -> 0 < round_nearest_even m l < 2 ^ 54.
Proof.
  intros H. destruct l as [|[]]; cbn; try lia. destruct (Z.even m); lia.
Qed.

(** Rounding a positive mantissa of at most 54 bits, well inside the
    exponent range, gives a positive finite number. *)
Lemma binary_round_aux_small (m e : Z) (l : location) :
  0 < m < 2 ^ 54 -> -1074 <= e <= 969 ->
  exists m' e',
    binary_round_aux prec emax false m e l = S754_finite false m' e' /\
    e <= e' <= e + 2.
Proof.
  intros Hm He. unfold binary_round_aux.
  pose proof (shr_fexp_small m e l Hm (proj1 He)) as [Hm1 He1].
  destruct (shr_fexp prec emax m e l) as [mrs1 e1]. cbn [fst snd] in *.
  pose proof (round_nearest_even_small _ (loc_of_shr_record mrs1) Hm1) as Hr.
  pose proof (shr_fexp_small _ e1 loc_Exact Hr ltac:(lia)) as [Hm2 He2].
  destruct (shr_fexp prec emax _ e1 loc_Exact) as [mrs2 e2]. cbn [fst snd] in *.
  destruct (shr_m mrs2) as [|q|q]; try lia.
  replace (e2 <=? emax - prec) with true
    by (symmetry; apply Z.leb_le; unfold emax, prec; lia).
  exists q, e2. split; [reflexivity|lia].
Qed.

Lemma SFsqrt_normal (p : Z) :
  0 < p < 2 ^ 53 ->
  exists m e, SFsqrt prec emax (normal p) = S754_finite false m e /\ -52 <= e <= -24.
Proof.
  intros Hp. pose proof (log2_small p Hp) as Hl.
  pose proof (normal_mantissa p Hp) as Hm. unfold normal.
  set (l := Z.log2 p) in *.
  assert (Hpow : 0 < 2 ^ (52 - l)) by (apply Z.pow_pos_nonneg; lia).
  destruct (p * 2 ^ (52 - l)) as [|mx|mx] eqn:E; try nia.
  pose proof (log2_bounds (Z.pos mx) 52 ltac:(lia) ltac:(lia)) as Hmx.
  cbn [Z.to_pos SFsqrt]. unfold SFsqrt_core_binary. cbv zeta. unfold Zdigits2.
  rewrite digits2_log2, Hm.
  set (e' := Z.min (fexp prec emax (Z.div2 (53 + (l - 52) + 1))) (Z.div2 (l - 52))).
  assert (He' : -52 <= e' <= -26 /\ (l - 52 - 2 * e' = 52 \/ l - 52 - 2 * e' = 53)).
  { subst e'. unfold fexp, SpecFloat.emin, prec, emax. rewrite !Z.div2_div.
    Z.to_euclidean_division_equations. lia. }
  destruct He' as [He' Hs].
  assert (Hroot : exists m' : Z,
             match l - 52 - 2 * e' with
             | 0 => Z.pos mx
             | Z.pos _ => Z.shiftl (Z.pos mx) (l - 52 - 2 * e')
             | Z.neg _ => 0
             end = m' /\ 2 ^ 104 <= m' < 2 ^ 106).
  { destruct Hs as [-> | ->]; eexists; (split; [reflexivity|]);
      rewrite Z.shiftl_mul_pow2 by lia.
    - change (2 ^ 104) with (2 ^ 52 * 2 ^ 52). change (2 ^ 106) with (2 ^ 54 * 2 ^ 52).
      change (2 ^ (52 + 1)) with (2 ^ 53) in Hmx. nia.
    - change (2 ^ 104) with (2 ^ 51 * 2 ^ 53). change (2 ^ 106) with (2 ^ 53 * 2 ^ 53).
      change (2 ^ (52 + 1)) with (2 ^ 53) in Hmx. nia. }
  destruct Hroot as [m' [-> Hm']].
  pose proof (Z.sqrtrem_sqrt m') as Hq.
  pose proof (Z.sqrt_spec m' ltac:(lia)) as Hsqrt.
  destruct (Z.sqrtrem m') as [q r]. cbn [fst] in Hq. subst q.
  assert (Hq : 0 < Z.sqrt m' < 2 ^ 54).
  { split; [apply Z.sqrt_pos; lia|].
    apply Z.sqrt_lt_square; [lia|lia|].
    unfold Z.square. change (2 ^ 54 * 2 ^ 54) with (2 ^ 108). lia. }
  destruct (binary_round_aux_small (Z.sqrt m') e'
              (if r =? 0 then loc_Exact
               else loc_Inexact (if r <=? Z.sqrt m' then Lt else Gt)) Hq ltac:(lia))
    as [m'' [e'' [Heq He'']]].
  exists m'', e''. split; [exact Heq|lia].
Qed.

Lemma SFdiv_normal (ma m : positive) (ea e : Z) :
  Z.log2 (Z.pos ma) = 52 -> Z.log2 (Z.pos m) = 52 ->
  -60 <= ea - e <= 60 ->
  exists m' e',
    SFdiv prec emax (S754_finite false ma ea) (S754_finite false m e)
    = S754_finite false m' e'.
Proof.
  intros Hma Hm He.
  pose proof (log2_bounds (Z.pos ma) 52 ltac:(lia) Hma) as Hba.
  pose proof (log2_bounds (Z.pos m) 52 ltac:(lia) Hm) as Hb.
  change (2 ^ (52 + 1)) with (2 ^ 53) in *.
  cbn [SFdiv xorb]. unfold SFdiv_core_binary. cbv zeta. unfold Zdigits2.
  rewrite !digits2_log2, Hma, Hm.
  replace (Z.min (fexp prec emax (52 + 1 + ea - (52 + 1 + e))) (ea - e))
    with (ea - e - 53)
    by (unfold fexp, SpecFloat.emin, prec, emax; lia).
  replace (ea - e - (ea - e - 53)) with 53 by lia.
  rewrite Z.shiftl_mul_pow2 by lia.
  pose proof (Z_div_mod (Z.pos ma * 2 ^ 53) (Z.pos m) ltac:(lia)) as Hdiv.
  destruct (Z.div_eucl (Z.pos ma * 2 ^ 53) (Z.pos m)) as [q r].
  destruct Hdiv as [Hdiv Hr].
  assert (Hq : 0 < q < 2 ^ 54).
  { change (2 ^ 54) with (2 * 2 ^ 53). split; nia. }
  destruct (binary_round_aux_small q (ea - e - 53) (new_location (Z.pos m) r) Hq
                                   ltac:(lia)) as [m' [e' [Heq _]]].
  exists m', e'. exact Heq.
Qed.

Lemma cosine_similarity_positive (v w : list Z) :
  0 < np_dot v w < 2 ^ 53 ->
  0 < np_dot v v * np_dot w w < 2 ^ 53 ->
  (0 <? cosine_similarity v w)%float = true.
Proof.
  intros Ha Hp. unfold cosine_similarity, np_sqrt.
  set (a := np_dot v w) in *. set (p := np_dot v v * np_dot w w) in *.
  rewrite wrap64_small by lia.
  pose proof (Prim2SF_valid (sqrt (float_of_int p))) as Hvalid.
  rewrite ltb_spec, div_spec, sqrt_spec, !float_of_int_small by assumption.
  rewrite sqrt_spec, float_of_int_small in Hvalid by assumption.
  unfold SF64div, SF64sqrt in *.
  destruct (SFsqrt_normal p Hp) as [m [e [Hsqrt He]]]. rewrite Hsqrt in *.
  assert (Hm : Z.log2 (Z.pos m) = 52).
  { cbn [SpecFloat.valid_binary] in Hvalid. unfold bounded, canonical_mantissa in Hvalid.
    apply andb_true_iff in Hvalid. destruct Hvalid as [Hc _].
    apply Z.eqb_eq in Hc. rewrite digits2_log2 in Hc.
    unfold fexp, SpecFloat.emin, prec, emax in Hc. lia. }
  pose proof (normal_mantissa a Ha) as Hma. pose proof (log2_small a Ha) as Hla.
  unfold normal.
  assert (Hpos : 0 < a * 2 ^ (52 - Z.log2 a))
    by (apply Z.mul_pos_pos; [lia|apply Z.pow_pos_nonneg; lia]).
  destruct (a * 2 ^ (52 - Z.log2 a)) as [|ma|ma]; try lia. cbn [Z.to_pos].
  destruct (SFdiv_normal ma m (Z.log2 a - 52) e) as [m' [e' Hdiv]]; try lia.
  rewrite Hdiv. reflexivity.
Qed.

(** ** Overlapping membership vectors *)

Lemma binary_dot_bounds (v w : list Z) (acc : Z) :
  Forall (fun x => x = 0 \/ x = 1) v ->
  Forall (fun x => x = 0 \/ x = 1) w ->
  acc <= fold_left (fun acc p => acc + fst p * snd p) (combine v w) acc
      <= acc + Z.of_nat (length v).
Proof.
  intros Hv. revert w acc.
  induction Hv as [|x v Hx Hv IH]; intros w acc Hw; [cbn; lia|].
  destruct Hw as [|y w Hy Hw]; [cbn; lia|].
  cbn [combine fold_left fst snd length].
  specialize (IH w (acc + x * y) Hw).
  destruct Hx as [->| ->], Hy as [->| ->]; lia.
Qed.

Lemma binary_dot_shared (v w : list Z) (k : nat) (acc : Z) :
  Forall (fun x => x = 0 \/ x = 1) v ->
  Forall (fun x => x = 0 \/ x = 1) w ->
  nth k v 0 = 1 -> nth k w 0 = 1 ->
  acc + 1 <= fold_left (fun acc p => acc + fst p * snd p) (combine v w) acc.
Proof.
  intros Hv. revert w k acc.
  induction Hv as [|x v Hx Hv IH]; intros w k acc Hw Hkv Hkw;
    [destruct k; discriminate|].
  destruct Hw as [|y w Hy Hw]; [destruct k; discriminate|].
  cbn [combine fold_left fst snd]. destruct k as [|k]; cbn [nth] in Hkv, Hkw.
  - subst x y. pose proof (binary_dot_bounds v w (acc + 1 * 1) Hv Hw). lia.
  - specialize (IH w k (acc + x * y) Hw Hkv Hkw).
    destruct Hx as [->| ->], Hy as [->| ->]; lia.
Qed.

Lemma binary_cosine_positive (v w : list Z) (k : nat) :
  Forall (fun x => x = 0 \/ x = 1) v ->
  Forall (fun x => x = 0 \/ x = 1) w ->
  Z.of_nat (length v) <= 2 ^ 26 -> Z.of_nat (length w) <= 2 ^ 26 ->
  nth k v 0 = 1 -> nth k w 0 = 1 ->
  (0 <? cosine_similarity v w)%float = true.
Proof.
  intros Hv Hw Hlv Hlw Hkv Hkw.
  pose proof (binary_dot_bounds v w 0 Hv Hw) as Hvw.
  pose proof (binary_dot_shared v w k 0 Hv Hw Hkv Hkw) as Hvw1.
  pose proof (binary_dot_bounds v v 0 Hv Hv) as Hvv.
  pose proof (binary_dot_shared v v k 0 Hv Hv Hkv Hkv) as Hvv1.
  pose proof (binary_dot_bounds w w 0 Hw Hw) as Hww.
  pose proof (binary_dot_shared w w k 0 Hw Hw Hkw Hkw) as Hww1.
  apply cosine_similarity_positive; unfold np_dot; rewrite !wrap64_small by lia.
  - lia.
  - change (2 ^ 53) with (2 * (2 ^ 26 * 2 ^ 26)). split; nia.
Qed.

Section SharedInterests.
Variable users_interests : list (list string).

Lemma interests_of_known (u : Z) (x : string) :
  0 <= u < Z.of_nat (length users_interests) ->
  In x (interests_of users_interests u) ->
  exists j,
    0 <= j < Z.of_nat (length (unique_interests users_interests)) /\
    interest_name users_interests j = x.
Proof.
  intros Hu Hx.
  assert (Hin : In x (unique_interests users_interests)).
  { apply unique_interests_In, in_concat.
    exists (interests_of users_interests u). split; [|exact Hx].
    apply nth_In. lia. }
  destruct (In_nth _ _ EmptyString Hin) as [n [Hn <-]].
  exists (Z.of_nat n). split; [lia|].
  unfold interest_name. now rewrite Nat2Z.id.
Qed.

Lemma user_vector_entry (u j : Z) :
  0 <= j < Z.of_nat (length (unique_interests users_interests)) ->
  nth (Z.to_nat j) (user_vector users_interests u) 0 =
  if contains (interests_of users_interests u) (interest_name users_interests j)
  then 1 else 0.
Proof.
  intros Hj. unfold user_vector, generate_user_interest_vector, interest_name.
  rewrite nth_indep
    with (d' := if contains (interests_of users_interests u) EmptyString then 1 else 0)
    by (rewrite length_map; lia).
  now rewrite (map_nth (fun interest =>
                          if contains (interests_of users_interests u) interest
                          then 1 else 0)).
Qed.

Lemma interest_vector_entry (j v : Z) :
  0 <= j < Z.of_nat (length (unique_interests users_interests)) ->
  0 <= v < Z.of_nat (length users_interests) ->
  nth (Z.to_nat v) (interest_vector users_interests j) 0 =
  if contains (interests_of users_interests v) (interest_name users_interests j)
  then 1 else 0.
Proof.
  intros Hj Hv. rewrite interest_vector_entries by exact Hj. unfold interests_of.
  rewrite nth_indep
    with (d' := if contains [] (interest_name users_interests j) then 1 else 0)
    by (rewrite length_map; lia).
  now rewrite (map_nth (fun user_interests =>
                          if contains user_interests (interest_name users_interests j)
                          then 1 else 0)).
Qed.

(** Two users who share an interest have positive similarity. *)
Lemma shared_interest_similarity (u v : Z) (x : string) :
  Z.of_nat (length (unique_interests users_interests)) <= 2 ^ 26 ->
  0 <= u < Z.of_nat (length users_interests) ->
  In x (interests_of users_interests u) ->
  In x (interests_of users_interests v) ->
  (0 <? cosine_similarity (user_vector users_interests u)
                          (user_vector users_interests v))%float = true.
Proof.
  intros Hlen Hu Hxu Hxv.
  destruct (interests_of_known u x Hu Hxu) as [j [Hj Hname]].
  assert (Hl : forall w, length (user_vector users_interests w)
                         = length (unique_interests users_interests))
    by (intros w; apply length_map).
  apply binary_cosine_positive with (k := Z.to_nat j);
    try apply generate_user_interest_vector_binary; rewrite ?Hl; try exact Hlen.
  - rewrite user_vector_entry, Hname by exact Hj.
    apply contains_In in Hxu. now rewrite Hxu.
  - rewrite user_vector_entry, Hname by exact Hj.
    apply contains_In in Hxv. now rewrite Hxv.
Qed.

(** Two interests held by one user have positive similarity. *)
Lemma common_holder_similarity (v j i : Z) :
  Z.of_nat (length users_interests) <= 2 ^ 26 ->
  0 <= v < Z.of_nat (length users_interests) ->
  0 <= j < Z.of_nat (length (unique_interests users_interests)) ->
  0 <= i < Z.of_nat (length (unique_interests users_interests)) ->
  In (interest_name users_interests j) (interests_of users_interests v) ->
  In (interest_name users_interests i) (interests_of users_interests v) ->
  (0 <? interest_similarity users_interests j i)%float = true.
Proof.
  intros Hlen Hv Hj Hi Hjv Hiv. unfold interest_similarity.
  assert (Hl : forall k, 0 <= k < Z.of_nat (length (unique_interests users_interests)) ->
                         length (interest_vector users_interests k)
                         = length users_interests)
    by (intros k Hk; rewrite interest_vector_entries by exact Hk; apply length_map).
  apply binary_cosine_positive with (k := Z.to_nat v);
    try (apply interest_vector_binary; assumption);
    rewrite ?Hl by assumption; try exact Hlen.
  - rewrite interest_vector_entry by assumption.
    apply contains_In in Hjv. now rewrite Hjv.
  - rewrite interest_vector_entry by assumption.
    apply contains_In in Hiv. now rewrite Hiv.
Qed.
End SharedInterests.

(** ** Counting without repetition *)

Lemma filter_fst_length {A B : Type} (f : A -> bool) (l : list (A * B)) :
  length (filter (fun p => f (fst p)) l) = length (filter f (map fst l)).
Proof.
  induction l as [|p l IH]; cbn; [reflexivity|].
  destruct (f (fst p)); cbn; now rewrite IH.
Qed.

Lemma filter_length_same_elements {A : Type} (f : A -> bool) (l l' : list A) :
  NoDup l -> NoDup l' -> (forall x, In x l <-> In x l') ->
  length (filter f l) = length (filter f l').
Proof.
  intros Hl Hl' Hsame. apply Permutation_length.
  apply NoDup_Permutation; try now apply NoDup_filter.
  intros x. rewrite !filter_In, Hsame. reflexivity.
Qed.

Lemma string_ltb_irrefl (a : string) : String.ltb a a = false.
Proof.
  destruct (String.ltb a a) eqn:E; [|reflexivity].
  pose proof (string_ltb_asym a a E). congruence.
Qed.

(** Two strictly ascending lists with the same elements are equal. *)
Lemma ascending_same_elements (l l' : list string) :
  StronglySorted (fun a b => String.ltb a b = true) l ->
  StronglySorted (fun a b => String.ltb a b = true) l' ->
  (forall x, In x l <-> In x l') ->
  l = l'.
Proof.
  intros Hl. revert l'. induction Hl as [|a l Hl IH Ha]; intros l' Hl' Hsame.
  - destruct l' as [|b l']; [reflexivity|].
    exfalso. apply (proj2 (Hsame b)). now left.
  - destruct Hl' as [|b l' Hl' Hb].
    + exfalso. apply (proj1 (Hsame a)). now left.
    + rewrite Forall_forall in Ha, Hb.
      assert (a = b).
      { destruct (proj1 (Hsame a) (or_introl eq_refl)) as [->|Hin]; [reflexivity|].
        destruct (proj2 (Hsame b) (or_introl eq_refl)) as [->|Hin']; [reflexivity|].
        pose proof (string_ltb_asym _ _ (Hb a Hin)) as H.
        rewrite (Ha b Hin') in H. discriminate. }
      subst b. f_equal. apply IH; [exact Hl'|].
      intros x. split; intros Hx.
      * destruct (proj1 (Hsame x) (or_intror Hx)) as [<-|H]; [|exact H].
        pose proof (Ha a Hx) as H. rewrite string_ltb_irrefl in H. discriminate.
      * destruct (proj2 (Hsame x) (or_intror Hx)) as [<-|H]; [|exact H].
        pose proof (Hb a Hx) as H. rewrite string_ltb_irrefl in H. discriminate.
Qed.

(** ** The popularity ranking *)

Lemma Counter_NoDup (l : list string) : NoDup (map fst (Counter l)).
Proof. apply (dict_fold_NoDup 0 (fun s : string => s) (fun _ n => n + 1)). Qed.

Lemma Counter_first_seen (l : list string) :
  StronglySorted (fun a b => (index_of (fst a) l < index_of (fst b) l)%nat) (Counter l).
Proof.
  apply StronglySorted_map with (R := fun a b => (index_of a l < index_of b l)%nat).
  pose proof (dict_fold_first_seen 0 (fun s : string => s) (fun _ n => n + 1) l) as H.
  now rewrite map_id in H.
Qed.

Lemma Counter_complete (l : list string) (x : string) :
  In x l -> In (x, Z.of_nat (count_occ string_dec l x)) (Counter l).
Proof.
  intros Hx. apply Counter_keys, in_map_iff in Hx.
  destruct Hx as [[x' c] [Hx' Hin]]. cbn in Hx'. subst x'.
  now rewrite <- (Counter_In l x c Hin).
Qed.

Section PopularityFacts.
Variable users_interests : list (list string).

Lemma popular_interests_keys :
  Permutation (map fst (popular_interests users_interests))
              (map fst (Counter (concat users_interests))).
Proof.
  unfold popular_interests, most_common.
  apply Permutation_map. symmetry. apply sorted_reverse_perm.
Qed.

Lemma popular_interests_NoDup : NoDup (map fst (popular_interests users_interests)).
Proof.
  eapply Permutation_NoDup; [symmetry; apply popular_interests_keys|].
  apply Counter_NoDup.
Qed.

Lemma popular_interests_known (x : string) :
  In x (map fst (popular_interests users_interests)) <->
  In x (unique_interests users_interests).
Proof.
  rewrite unique_interests_In, <- (Counter_keys (concat users_interests) x).
  split; apply Permutation_in; [|symmetry]; apply popular_interests_keys.
Qed.

Lemma popular_interests_ranked :
  StronglySorted
    (fun a b =>
       snd b < snd a \/
       (snd a = snd b /\
        (index_of (fst a) (concat users_interests)
         < index_of (fst b) (concat users_interests))%nat))
    (popular_interests users_interests).
Proof.
  unfold popular_interests, most_common.
  assert (Hs : StronglySorted
                 (descending_stable snd Z.ltb
                    (fun a b => (index_of (fst a) (concat users_interests)
                                 < index_of (fst b) (concat users_interests))%nat))
                 (sorted_reverse snd Z.ltb (Counter (concat users_interests)))).
  { apply sorted_reverse_sorted with (comparable := fun _ => True).
    - intros a b. rewrite Z.ltb_lt, Z.ltb_ge. lia.
    - intros a b d _. rewrite !Z.ltb_ge. lia.
    - now apply Forall_forall.
    - apply Counter_first_seen. }
  revert Hs. apply StronglySorted_weaken.
  intros a b _ _ [Hab Hord]. apply Z.ltb_ge in Hab.
  destruct (Z.ltb_spec (snd b) (snd a)) as [Hlt|Hge]; [now left|right].
  split; [lia|]. apply Hord. reflexivity.
Qed.

Lemma candidates_length (user_interests : list string) :
  length (filter (fun p : string * Z => negb (contains user_interests (fst p)))
                 (popular_interests users_interests)) =
  length (filter (fun x => negb (contains user_interests x))
                 (unique_interests users_interests)).
Proof.
  rewrite (filter_fst_length (fun x => negb (contains user_interests x))).
  apply filter_length_same_elements.
  - apply popular_interests_NoDup.
  - apply unique_interests_NoDup.
  - apply popular_interests_known.
Qed.
End PopularityFacts.

(** ** Similarity as counting *)

(** The dot product of two membership vectors over one list counts the
    members of both. *)
Lemma dot_membership {A : Type} (f g : A -> bool) (l : list A) (acc : Z) :
  fold_left (fun acc p => acc + fst p * snd p)
            (combine (map (fun x => if f x then 1 else 0) l)
                     (map (fun x => if g x then 1 else 0) l)) acc =
  acc + Z.of_nat (length (filter (fun x => f x && g x) l)).
Proof.
  revert acc. induction l as [|x l IH]; intros acc; cbn [map combine fold_left filter].
  - cbn. lia.
  - rewrite IH. cbn [fst snd]. destruct (f x), (g x); cbn [andb length]; lia.
Qed.

Lemma np_dot_membership {A : Type} (f g : A -> bool) (l : list A) :
  Z.of_nat (length l) < 2 ^ 63 ->
  np_dot (map (fun x => if f x then 1 else 0) l) (map (fun x => if g x then 1 else 0) l)
  = Z.of_nat (length (filter (fun x => f x && g x) l)).
Proof.
  intros Hlen. unfold np_dot. rewrite dot_membership.
  pose proof (filter_length_le (fun x => f x && g x) l).
  apply wrap64_small. lia.
Qed.

Lemma cosine_similarity_disjoint (v w : list Z) :
  np_dot v w = 0 -> (0 <? cosine_similarity v w)%float = false.
Proof.
  intros H. unfold cosine_similarity. rewrite H.
  replace (float_of_int 0) with 0%float by (vm_compute; reflexivity).
  rewrite ltb_spec, div_spec, Prim2SF_zero.
  destruct (Prim2SF (np_sqrt (wrap64 (np_dot v v * np_dot w w)))); reflexivity.
Qed.

Lemma set_of_length (held : list string) (l : list string) :
  NoDup l -> (forall x, In x held -> In x l) ->
  length (filter (fun x => contains held x && contains held x) l)
  = length (set_of held).
Proof.
  intros Hl Hsub. apply Permutation_length, NoDup_Permutation.
  - now apply NoDup_filter.
  - apply set_of_NoDup.
  - intros x. rewrite filter_In, set_of_In, andb_diag, contains_In.
    split; [tauto|]. intros Hx. split; [now apply Hsub|exact Hx].
Qed.

Lemma shared_length (held held' : list string) (l : list string) :
  NoDup l -> (forall x, In x held -> In x l) ->
  length (filter (fun x => contains held x && contains held' x) l)
  = length (filter (contains held') (set_of held)).
Proof.
  intros Hl Hsub. apply Permutation_length, NoDup_Permutation.
  - now apply NoDup_filter.
  - apply NoDup_filter, set_of_NoDup.
  - intros x. rewrite !filter_In, set_of_In, andb_true_iff, !contains_In.
    split; [tauto|]. intros [Hx Hx']. split; [now apply Hsub|tauto].
Qed.

Section Counting.
Variable users_interests : list (list string).

Lemma interests_of_unique (u : Z) (x : string) :
  In x (interests_of users_interests u) -> In x (unique_interests users_interests).
Proof.
  intros Hx. apply unique_interests_In, in_concat.
  exists (interests_of users_interests u). split; [|exact Hx].
  unfold interests_of in *.
  destruct (Nat.lt_ge_cases (Z.to_nat u) (length users_interests)) as [Hlt|Hge].
  - now apply nth_In.
  - rewrite nth_overflow in Hx by exact Hge. contradiction.
Qed.

Lemma user_vectors_dot (u v : Z) :
  Z.of_nat (length (unique_interests users_interests)) < 2 ^ 63 ->
  np_dot (user_vector users_interests u) (user_vector users_interests v) =
  Z.of_nat (length (filter (fun x => contains (interests_of users_interests u) x
                                     && contains (interests_of users_interests v) x)
                           (unique_interests users_interests))).
Proof. intros Hlen. now apply np_dot_membership. Qed.

Lemma interest_vectors_dot (j i : Z) :
  Z.of_nat (length users_interests) < 2 ^ 63 ->
  0 <= j < Z.of_nat (length (unique_interests users_interests)) ->
  0 <= i < Z.of_nat (length (unique_interests users_interests)) ->
  np_dot (interest_vector users_interests j) (interest_vector users_interests i) =
  Z.of_nat (length (filter (fun l => contains l (interest_name users_interests j)
                                     && contains l (interest_name users_interests i))
                           users_interests)).
Proof.
  intros Hlen Hj Hi. rewrite !interest_vector_entries by assumption.
  now apply (np_dot_membership (fun l => contains l (interest_name users_interests j))
                               (fun l => contains l (interest_name users_interests i))).
Qed.

(** Users with positive similarity share an interest. *)
Lemma similar_users_share (u v : Z) :
  Z.of_nat (length (unique_interests users_interests)) < 2 ^ 63 ->
  (0 <? cosine_similarity (user_vector users_interests u)
                          (user_vector users_interests v))%float = true ->
  exists x, In x (interests_of users_interests u) /\ In x (interests_of users_interests v).
Proof.
  intros Hlen Hpos.
  destruct (filter (fun x => contains (interests_of users_interests u) x
                             && contains (interests_of users_interests v) x)
                   (unique_interests users_interests)) as [|x l] eqn:E.
  - rewrite cosine_similarity_disjoint in Hpos; [discriminate|].
    now rewrite user_vectors_dot, E.
  - assert (Hx : In x (x :: l)) by now left.
    rewrite <- E in Hx. apply filter_In in Hx. destruct Hx as [_ Hx].
    apply andb_true_iff in Hx. rewrite !contains_In in Hx. now exists x.
Qed.

(** Interests with positive similarity have a common holder. *)
Lemma similar_interests_share (j i : Z) :
  Z.of_nat (length users_interests) < 2 ^ 63 ->
  0 <= j < Z.of_nat (length (unique_interests users_interests)) ->
  0 <= i < Z.of_nat (length (unique_interests users_interests)) ->
  (0 <? interest_similarity users_interests j i)%float = true ->
  exists v,
    0 <= v < Z.of_nat (length users_interests) /\
    In (interest_name users_interests j) (interests_of users_interests v) /\
    In (interest_name users_interests i) (interests_of users_interests v).
Proof.
  intros Hlen Hj Hi Hpos. unfold interest_similarity in Hpos.
  destruct (filter (fun l => contains l (interest_name users_interests j)
                             && contains l (interest_name users_interests i))
                   users_interests) as [|l ls] eqn:E.
  - rewrite cosine_similarity_disjoint in Hpos; [discriminate|].
    now rewrite interest_vectors_dot, E.
  - assert (Hl : In l (l :: ls)) by now left.
    rewrite <- E in Hl. apply filter_In in Hl. destruct Hl as [Hin Hl].
    apply andb_true_iff in Hl. rewrite !contains_In in Hl.
    destruct (In_nth _ _ [] Hin) as [n [Hn Hnth]].
    exists (Z.of_nat n). split; [lia|].
    unfold interests_of. rewrite Nat2Z.id, Hnth. exact Hl.
Qed.
End Counting.

(** ** Who is similar, and what is suggested *)

Lemma NoDup_map_filter {A B : Type} (f : A -> B) (g : A -> bool) (l : list A) :
  NoDup (map f l) -> NoDup (map f (filter g l)).
Proof.
  induction l as [|a l IH]; cbn; [constructor|].
  intros H. inversion H as [|? ? Ha Hl]; subst.
  destruct (g a); cbn; [|now apply IH].
  constructor; [|now apply IH].
  intros Hin. apply Ha. apply in_map_iff in Hin. destruct Hin as [a' [Heq Ha']].
  apply filter_In in Ha'. apply in_map_iff. exists a'. tauto.
Qed.

Lemma ranked_NoDup (increments : list (string * float)) (mine : list string)
      (include_current_interests : bool) :
  NoDup (map fst
           (let ranked := sorted_reverse snd PrimFloat.ltb (accumulate increments) in
            if include_current_interests
            then ranked
            else filter (fun p => negb (contains mine (fst p))) ranked)).
Proof.
  cbv zeta.
  assert (H : NoDup (map fst (sorted_reverse snd PrimFloat.ltb (accumulate increments)))).
  { eapply Permutation_NoDup; [apply Permutation_map, sorted_reverse_perm|].
    apply (dict_fold_NoDup 0%float fst (fun e v => (v + snd e)%float)). }
  destruct include_current_interests; [exact H|now apply NoDup_map_filter].
Qed.

Lemma ranked_keys (increments : list (string * float)) (mine : list string) (x : string) :
  In x (map fst (filter (fun p => negb (contains mine (fst p)))
                        (sorted_reverse snd PrimFloat.ltb (accumulate increments)))) <->
  In x (map fst increments) /\ ~ In x mine.
Proof.
  rewrite <- (accumulate_keys increments x), !in_map_iff. split.
  - intros [[x' w] [Heq Hin]]. cbn in Heq. subst x'.
    apply filter_In in Hin. destruct Hin as [Hin Hc]. apply sorted_reverse_In in Hin.
    cbn in Hc. split; [now exists (x, w)|].
    apply contains_not_In. now destruct (contains mine x).
  - intros [[[x' w] [Heq Hin]] Hmine]. cbn in Heq. subst x'.
    exists (x, w). split; [reflexivity|]. apply filter_In.
    split; [now apply sorted_reverse_In|].
    cbn. apply contains_not_In in Hmine. now rewrite Hmine.
Qed.

Lemma no_keys_nil {A B : Type} (l : list (A * B)) :
  (forall x, ~ In x (map fst l)) -> l = [].
Proof.
  destruct l as [|[a b] l]; [reflexivity|].
  intros H. exfalso. apply (H a). now left.
Qed.

Section Similar.
Variable users_interests : list (list string).

Lemma similar_users_iff (u v : Z) :
  Z.of_nat (length (unique_interests users_interests)) <= 2 ^ 26 ->
  0 <= u < Z.of_nat (length users_interests) ->
  (0 <? cosine_similarity (user_vector users_interests u)
                          (user_vector users_interests v))%float = true <->
  exists x, In x (interests_of users_interests u) /\ In x (interests_of users_interests v).
Proof.
  intros Hlen Hu. split.
  - apply similar_users_share. lia.
  - intros [x [Hxu Hxv]]. now apply shared_interest_similarity with (x := x).
Qed.

Lemma similar_interests_iff (j i : Z) :
  Z.of_nat (length users_interests) <= 2 ^ 26 ->
  0 <= j < Z.of_nat (length (unique_interests users_interests)) ->
  0 <= i < Z.of_nat (length (unique_interests users_interests)) ->
  (0 <? interest_similarity users_interests j i)%float = true <->
  exists v,
    0 <= v < Z.of_nat (length users_interests) /\
    In (interest_name users_interests j) (interests_of users_interests v) /\
    In (interest_name users_interests i) (interests_of users_interests v).
Proof.
  intros Hlen Hj Hi. split.
  - apply similar_interests_share; (assumption || lia).
  - intros [v [Hv [Hjv Hiv]]]. now apply common_holder_similarity with (v := v).
Qed.

Lemma get_similar_users_NoDup (i : Z) (similar : list (Z * float)) :
  get_similar_users users_interests i = Ok similar -> NoDup (map fst similar).
Proof.
  intros H.
  destruct (get_similar_users users_interests i) as [s|] eqn:E; [|discriminate].
  assert (Hr : - Z.of_nat (length users_interests) <= i
               < Z.of_nat (length users_interests)).
  { destruct (Z.lt_ge_cases i (- Z.of_nat (length users_interests))) as [Hlo|Hlo];
      [|destruct (Z.lt_ge_cases i (Z.of_nat (length users_interests))) as [Hhi|Hhi];
        [lia|]];
      rewrite (proj2 (get_similar_users_error_iff users_interests i)) in E
        by lia; discriminate. }
  destruct (get_similar_users_Ok users_interests i Hr) as [vi [_ Heq]].
  rewrite Heq in E. inversion E; subst. inversion H; subst.
  eapply Permutation_NoDup; [apply Permutation_map, sorted_reverse_perm|].
  apply NoDup_map_filter, enumerate_from_NoDup.
Qed.
End Similar.

Lemma getitem_nth {A : Type} (l : list A) (i : Z) (d : A) :
  0 <= i < Z.of_nat (length l) -> getitem l i = Ok (nth (Z.to_nat i) l d).
Proof.
  intros Hi. destruct (getitem_in_range l i Hi) as [x [Hn ->]].
  now rewrite (nth_error_nth _ _ d Hn).
Qed.

Section Matrices.
Variable users_interests : list (list string).

Lemma user_interest_matrix_entry (u j : Z) :
  0 <= u < Z.of_nat (length users_interests) ->
  0 <= j < Z.of_nat (length (unique_interests users_interests)) ->
  getitem2 (user_interest_matrix users_interests) u j =
  Ok (if contains (interests_of users_interests u) (interest_name users_interests j)
      then 1 else 0).
Proof.
  intros Hu Hj. unfold getitem2.
  destruct (getitem_total (user_interest_matrix users_interests) u) as [vec Hvec];
    [rewrite user_interest_matrix_length; lia|].
  destruct (getitem_user_vector _ _ _ Hvec) as [Hlen Hv].
  rewrite Hvec. cbn [bind]. rewrite (Hv (proj1 Hu)) in *.
  rewrite (getitem_nth _ _ 0) by (rewrite Hlen; exact Hj).
  now rewrite user_vector_entry.
Qed.

Lemma interest_user_matrix_entry (j u : Z) :
  0 <= u < Z.of_nat (length users_interests) ->
  0 <= j < Z.of_nat (length (unique_interests users_interests)) ->
  getitem2 (interest_user_matrix users_interests) j u =
  Ok (if contains (interests_of users_interests u) (interest_name users_interests j)
      then 1 else 0).
Proof.
  intros Hu Hj. unfold getitem2.
  rewrite (getitem_nth _ _ []) by (rewrite interest_user_matrix_length; exact Hj).
  cbn [bind]. fold (interest_vector users_interests j).
  rewrite (getitem_nth _ _ 0)
    by (rewrite interest_vector_entries, length_map by exact Hj; exact Hu).
  now rewrite interest_vector_entry.
Qed.

Lemma get_similar_users_negative (i : Z) :
  - Z.of_nat (length users_interests) <= i < 0 ->
  get_similar_users users_interests i =
  Ok (sorted_reverse snd PrimFloat.ltb
        (filter (fun p => negb (i =? fst p) && (0 <? snd p)%float)
                (enumerate
                   (map (cosine_similarity
                           (user_vector users_interests
                                        (Z.of_nat (length users_interests) + i)))
                        (user_interest_matrix users_interests))))).
Proof.
  intros Hi. unfold get_similar_users.
  rewrite getitem_negative by (rewrite user_similarities_length; exact Hi).
  rewrite user_similarities_length.
  destruct (getitem_total (user_similarities users_interests)
                          (i + Z.of_nat (length users_interests))) as [row Hrow];
    [rewrite user_similarities_length; lia|].
  rewrite Hrow. cbn [bind].
  destruct (user_similarities_row _ _ _ Hrow) as [vi [-> Hvi]].
  rewrite Hvi by lia. now rewrite Z.add_comm.
Qed.
End Matrices.

(** ** Sums of positive weights *)

Lemma shr_1_half (mrs : shr_record) :
  0 <= shr_m mrs -> shr_m (shr_1 mrs) = shr_m mrs / 2.
Proof.
  destruct mrs as [[|[p|p|]|p] r s]; cbn [shr_m shr_1]; intros H; try lia;
    try reflexivity.
  - rewrite <- Z.div2_div. reflexivity.
  - rewrite <- Z.div2_div. reflexivity.
Qed.

Lemma iter_shr_1_div (p : positive) (mrs : shr_record) :
  0 <= shr_m mrs -> shr_m (iter_pos shr_1 p mrs) = shr_m mrs / 2 ^ Z.pos p.
Proof.
  revert mrs. induction p as [p IH|p IH|]; intros mrs H; cbn [iter_pos].
  - rewrite IH by (apply iter_shr_1_nonneg, shr_1_nonneg, H).
    rewrite IH by (apply shr_1_nonneg, H).
    rewrite shr_1_half by exact H.
    rewrite !Z.div_div by lia.
    f_equal. replace (Z.pos p~1) with (1 + Z.pos p + Z.pos p) by lia.
    rewrite !Z.pow_add_r by lia. change (2 ^ 1) with 2. lia.
  - rewrite IH by (apply iter_shr_1_nonneg, H).
    rewrite IH by exact H.
    rewrite Z.div_div by lia.
    f_equal. replace (Z.pos p~0) with (Z.pos p + Z.pos p) by lia.
    rewrite Z.pow_add_r by lia. lia.
  - now apply shr_1_half.
Qed.

(** Rounding a positive mantissa at an exponent of the format never rounds
    it down to zero. *)
Lemma shr_fexp_pos (m e : Z) (l : location) :
  0 < m -> -1074 <= e ->
  0 < shr_m (fst (shr_fexp prec emax m e l)) /\
  -1074 <= snd (shr_fexp prec emax m e l).
Proof.
  intros Hm He. destruct m as [|p|p]; try lia.
  unfold shr_fexp, shr, Zdigits2. rewrite digits2_log2.
  pose proof (log2_bounds (Z.pos p) _ Hm eq_refl) as Hb.
  pose proof (Z.log2_nonneg (Z.pos p)) as HL.
  set (L := Z.log2 (Z.pos p)) in *.
  assert (Hrec : shr_m (shr_record_of_loc (Z.pos p) l) = Z.pos p)
    by (destruct l as [|[]]; reflexivity).
  destruct (fexp prec emax (L + 1 + e) - e) as [|n|n] eqn:En;
    unfold fexp, SpecFloat.emin, prec, emax in En; cbn [fst snd].
  - rewrite Hrec. lia.
  - rewrite iter_shr_1_div by (rewrite Hrec; lia). rewrite Hrec.
    assert (Hn : Z.pos n = L - 52) by lia. rewrite Hn. split; [|lia].
    apply Z.div_str_pos. split; [apply Z.pow_pos_nonneg; lia|].
    apply Z.le_trans with (2 ^ L); [apply Z.pow_le_mono_r; lia|lia].
  - rewrite Hrec. lia.
Qed.

Lemma round_nearest_even_pos (m : Z) (l : location) :
  0 < m -> 0 < round_nearest_even m l.
Proof. intros H. destruct l as [|[]]; cbn; try lia. destruct (Z.even m); lia. Qed.

Lemma binary_round_aux_pos (m e : Z) (l : location) :
  0 < m -> -1074 <= e ->
  SFltb (S754_zero false) (binary_round_aux prec emax false m e l) = true.
Proof.
  intros Hm He. unfold binary_round_aux.
  pose proof (shr_fexp_pos m e l Hm He) as [Hm1 He1].
  destruct (shr_fexp prec emax m e l) as [mrs1 e1]. cbn [fst snd] in *.
  pose proof (round_nearest_even_pos _ (loc_of_shr_record mrs1) Hm1) as Hr.
  pose proof (shr_fexp_pos _ e1 loc_Exact Hr He1) as [Hm2 He2].
  destruct (shr_fexp prec emax _ e1 loc_Exact) as [mrs2 e2]. cbn [fst snd] in *.
  destruct (shr_m mrs2) as [|q|q]; try lia.
  destruct (e2 <=? emax - prec); reflexivity.
Qed.

Lemma valid_exponent (s : bool) (m : positive) (e : Z) :
  SpecFloat.valid_binary prec emax (S754_finite s m e) = true -> -1074 <= e.
Proof.
  cbn [SpecFloat.valid_binary]. unfold bounded, canonical_mantissa. intros H.
  apply andb_true_iff in H. destruct H as [Hc _]. apply Z.eqb_eq in Hc.
  unfold fexp, SpecFloat.emin, prec, emax in Hc. lia.
Qed.

Lemma shl_align_exponent (m : positive) (e e' : Z) :
  Z.min e e' <= snd (shl_align m e e').
Proof. unfold shl_align. destruct (e' - e) eqn:E; cbn [snd]; lia. Qed.

Lemma SFadd_pos (a b : spec_float) :
  SpecFloat.valid_binary prec emax a = true -> SpecFloat.valid_binary prec emax b = true ->
  SFleb (S754_zero false) a = true -> SFltb (S754_zero false) b = true ->
  SFltb (S754_zero false) (SFadd prec emax a b) = true.
Proof.
  intros Va Vb.
  destruct a as [[]|[]| |[] ma ea], b as [[]|[]| |[] mb eb];
    cbn; try congruence.
  intros _ _. apply valid_exponent in Va, Vb.
  unfold binary_round.
  match goal with
  | |- context [shl_align ?m ?e ?e'] =>
      pose proof (shl_align_exponent m e e') as He;
      destruct (shl_align m e e') as [mz ez]
  end.
  cbn [snd] in He.
  apply binary_round_aux_pos; [lia|].
  unfold fexp, SpecFloat.emin, prec, emax in He. lia.
Qed.

Lemma add_pos (a b : float) :
  nonneg a -> (0 <? b)%float = true -> (0 <? a + b)%float = true.
Proof.
  unfold nonneg. rewrite !ltb_spec, leb_spec, add_spec, Prim2SF_zero.
  apply SFadd_pos; apply Prim2SF_valid.
Qed.

Lemma float_sum_from_pos (l : list float) (a : float) :
  (0 <? a)%float = true -> Forall (fun x => (0 <? x)%float = true) l ->
  (0 <? fold_left PrimFloat.add l a)%float = true.
Proof.
  revert a. induction l as [|x l IH]; intros a Ha Hl; cbn; [exact Ha|].
  inversion Hl; subst. apply IH; [|assumption].
  apply add_pos; [now apply positive_nonneg|assumption].
Qed.

Lemma float_sum_pos (l : list float) :
  l <> [] -> Forall (fun x => (0 <? x)%float = true) l ->
  (0 <? float_sum l)%float = true.
Proof.
  destruct l as [|x l]; [contradiction|]. intros _ Hl. inversion Hl; subst.
  unfold float_sum. cbn [fold_left]. apply float_sum_from_pos; [|assumption].
  apply add_pos; [reflexivity|assumption].
Qed.

(** Every accumulated weight is a sum of at least one increment. *)
Lemma accumulate_positive (increments : list (string * float)) (x : string) (w : float) :
  Forall (fun e => (0 <? snd e)%float = true) increments ->
  In (x, w) (accumulate increments) -> (0 <? w)%float = true.
Proof.
  intros Hpos Hin.
  assert (Hx : In x (map fst increments)).
  { apply accumulate_keys. change x with (fst (x, w)). now apply in_map. }
  rewrite (accumulate_In _ _ _ Hin).
  apply in_map_iff in Hx. destruct Hx as [e [He Hine]].
  rewrite Forall_forall in Hpos.
  apply float_sum_pos.
  - intros Hnil. apply map_eq_nil in Hnil.
    assert (Hf : In e (filter (fun e => String.eqb (fst e) x) increments))
      by (apply filter_In; split; [exact Hine|now apply String.eqb_eq]).
    rewrite Hnil in Hf. contradiction.
  - apply Forall_forall. intros s Hs. apply in_map_iff in Hs.
    destruct Hs as [e' [<- He']]. apply filter_In in He'. now apply Hpos.
Qed.

Lemma increments_of_lister (l : list string) (s : float) (x : string) :
  map snd (filter (fun e : string * float => String.eqb (fst e) x)
                  (map (fun interest => (interest, s)) l)) =
  repeat s (count_occ string_dec l x).
Proof.
  induction l as [|y l IH]; cbn; [reflexivity|].
  destruct (String.eqb_spec y x) as [Heq|Hne], (string_dec y x) as [E|E];
    cbn; try congruence.
Qed.

Lemma user_based_increments_repeated (users_interests : list (list string))
      (similar : list (Z * float)) (x : string) :
  map snd (filter (fun e => String.eqb (fst e) x)
                  (user_based_increments users_interests similar)) =
  flat_map (fun p => repeat (snd p)
                            (count_occ string_dec (interests_of users_interests (fst p)) x))
           similar.
Proof.
  unfold user_based_increments. rewrite flat_map_filter_map.
  apply flat_map_ext. intros p. apply increments_of_lister.
Qed.

(** ** Similarities are at most one *)

Lemma shr_record_of_loc_m (m : Z) (l : location) : shr_m (shr_record_of_loc m l) = m.
Proof. destruct l as [|[]]; reflexivity. Qed.

Lemma loc_of_shr_record_of_loc (m : Z) (l : location) :
  loc_of_shr_record (shr_record_of_loc m l) = l.
Proof. destruct l as [|[]]; reflexivity. Qed.

(** A mantissa of at most 53 bits is not shifted, one of 54 bits is shifted
    by one bit. *)
Lemma shr_fexp_53 (m e : Z) (l : location) :
  0 < m < 2 ^ 53 -> -1074 <= e ->
  shr_fexp prec emax m e l = (shr_record_of_loc m l, e).
Proof.
  intros Hm He. destruct m as [|p|p]; try lia.
  unfold shr_fexp, shr, Zdigits2. rewrite digits2_log2.
  assert (HL : 0 <= Z.log2 (Z.pos p) < 53)
    by (split; [apply Z.log2_nonneg|apply Z.log2_lt_pow2; lia]).
  destruct (fexp prec emax (Z.log2 (Z.pos p) + 1 + e) - e) as [|n|n] eqn:En;
    unfold fexp, SpecFloat.emin, prec, emax in En; try reflexivity; lia.
Qed.

Lemma shr_fexp_54 (m e : Z) (l : location) :
  2 ^ 53 <= m < 2 ^ 54 -> -1074 <= e ->
  shr_fexp prec emax m e l = (shr_1 (shr_record_of_loc m l), e + 1).
Proof.
  intros Hm He. destruct m as [|p|p]; try lia.
  unfold shr_fexp, shr, Zdigits2. rewrite digits2_log2.
  assert (HL : Z.log2 (Z.pos p) = 53).
  { apply Z.le_antisymm.
    - assert (Z.log2 (Z.pos p) < 54) by (apply Z.log2_lt_pow2; lia). lia.
    - apply Z.log2_le_pow2; lia. }
  rewrite HL.
  destruct (fexp prec emax (53 + 1 + e) - e) as [|n|n] eqn:En;
    unfold fexp, SpecFloat.emin, prec, emax in En; try lia.
  assert (n = 1%positive) by lia. subst n. reflexivity.
Qed.

Lemma round_nearest_even_range (m : Z) (l : location) :
  m <= round_nearest_even m l <= m + 1.
Proof. destruct l as [|[]]; cbn; try lia. destruct (Z.even m); lia. Qed.

(** The last normalisation keeps the value. *)
Lemma shr_fexp_renormalise (m e : Z) :
  0 < m <= 2 ^ 53 -> -1074 <= e ->
  exists m' e',
    shr_m (fst (shr_fexp prec emax m e loc_Exact)) = Z.pos m' /\
    snd (shr_fexp prec emax m e loc_Exact) = e' /\
    e <= e' <= e + 1 /\ Z.pos m' * 2 ^ (e' - e) = m.
Proof.
  intros Hm He. destruct (Z.eq_dec m (2 ^ 53)) as [->|Hne].
  - rewrite shr_fexp_54 by lia. exists (4503599627370496%positive), (e + 1).
    split; [reflexivity|]. split; [reflexivity|]. split; [lia|].
    replace (e + 1 - e) with 1 by lia. reflexivity.
  - rewrite shr_fexp_53 by lia. destruct m as [|p|p]; try lia.
    exists p, e. split; [reflexivity|]. split; [reflexivity|]. split; [lia|].
    rewrite Z.sub_diag. cbn. lia.
Qed.

(** The value a mantissa of at most 54 bits rounds to. *)
Lemma binary_round_aux_value (m e : Z) (l : location) :
  0 < m < 2 ^ 54 -> -1074 <= e <= 969 ->
  exists m' e',
    binary_round_aux prec emax false m e l = S754_finite false m' e' /\
    e <= e' <= e + 2 /\
    Z.pos m' * 2 ^ (e' - e) <= 2 ^ 54 /\
    (m < 2 ^ 53 -> m <= Z.pos m' * 2 ^ (e' - e) <= m + 1) /\
    (l = loc_Exact -> Z.even m = true -> Z.pos m' * 2 ^ (e' - e) = m).
Proof.
  intros Hm He. unfold binary_round_aux.
  destruct (Z.lt_ge_cases m (2 ^ 53)) as [Hlt|Hge].
  - rewrite shr_fexp_53 by lia.
    rewrite shr_record_of_loc_m, loc_of_shr_record_of_loc.
    pose proof (round_nearest_even_range m l) as Hr.
    destruct (shr_fexp_renormalise (round_nearest_even m l) e ltac:(lia) ltac:(lia))
      as [m' [e' [Hm' [He' [Hee Hv]]]]].
    destruct (shr_fexp prec emax (round_nearest_even m l) e loc_Exact) as [mrs2 e2].
    cbn [fst snd] in Hm', He'. subst e2. rewrite Hm'.
    replace (e' <=? emax - prec) with true
      by (symmetry; apply Z.leb_le; unfold emax, prec; lia).
    exists m', e'. split; [reflexivity|]. split; [lia|]. rewrite Hv.
    split; [lia|]. split; [lia|]. intros -> _. reflexivity.
  - rewrite shr_fexp_54 by lia.
    assert (Hm1 : shr_m (shr_1 (shr_record_of_loc m l)) = m / 2)
      by (rewrite shr_1_half, shr_record_of_loc_m; [reflexivity|];
          rewrite shr_record_of_loc_m; lia).
    assert (Hhalf : 2 ^ 52 <= m / 2 < 2 ^ 53).
    { change (2 ^ 53) with (2 * 2 ^ 52) in Hge.
      change (2 ^ 54) with (2 * 2 ^ 53) in Hm.
      split; [apply Z.div_le_lower_bound; lia|apply Z.div_lt_upper_bound; lia]. }
    rewrite Hm1.
    pose proof (round_nearest_even_range (m / 2)
                  (loc_of_shr_record (shr_1 (shr_record_of_loc m l)))) as Hr.
    destruct (shr_fexp_renormalise
                (round_nearest_even (m / 2)
                   (loc_of_shr_record (shr_1 (shr_record_of_loc m l))))
                (e + 1) ltac:(lia) ltac:(lia))
      as [m' [e' [Hm' [He' [Hee Hv]]]]].
    destruct (shr_fexp prec emax _ (e + 1) loc_Exact) as [mrs2 e2].
    cbn [fst snd] in Hm', He'. subst e2. rewrite Hm'.
    replace (e' <=? emax - prec) with true
      by (symmetry; apply Z.leb_le; unfold emax, prec; lia).
    exists m', e'. split; [reflexivity|]. split; [lia|].
    assert (Hval : Z.pos m' * 2 ^ (e' - e) =
                   2 * round_nearest_even (m / 2)
                         (loc_of_shr_record (shr_1 (shr_record_of_loc m l)))).
    { rewrite <- Hv. replace (e' - e) with (1 + (e' - (e + 1))) by lia.
      rewrite Z.pow_add_r by lia. change (2 ^ 1) with 2. lia. }
    rewrite Hval. split; [change (2 ^ 54) with (2 * 2 ^ 53); lia|].
    split; [lia|]. intros -> Heven.
    destruct m as [|[p|p|]|p]; try lia; try discriminate.
    cbn [shr_record_of_loc shr_1 loc_of_shr_record orb round_nearest_even].
    rewrite <- Z.div2_div. reflexivity.
Qed.

(** The rounded square root of [p] is not below an integer whose square
    is at most [p]. *)
Lemma SFsqrt_normal_lower (p a : Z) :
  0 < a -> a * a <= p -> p < 2 ^ 53 ->
  exists m e,
    SFsqrt prec emax (normal p) = S754_finite false m e /\
    -52 <= e <= -24 /\ a * 2 ^ (- e) <= Z.pos m.
Proof.
  intros Ha Hap Hp53. assert (Hp : 0 < p < 2 ^ 53) by nia.
  pose proof (log2_small p Hp) as Hl.
  pose proof (normal_mantissa p Hp) as Hm. unfold normal.
  set (l := Z.log2 p) in *.
  assert (Hpow : 0 < 2 ^ (52 - l)) by (apply Z.pow_pos_nonneg; lia).
  destruct (p * 2 ^ (52 - l)) as [|mx|mx] eqn:E; try nia.
  pose proof (log2_bounds (Z.pos mx) 52 ltac:(lia) ltac:(lia)) as Hmx.
  cbn [Z.to_pos SFsqrt]. unfold SFsqrt_core_binary. cbv zeta. unfold Zdigits2.
  rewrite digits2_log2, Hm.
  set (e' := Z.min (fexp prec emax (Z.div2 (53 + (l - 52) + 1))) (Z.div2 (l - 52))).
  assert (He' : -52 <= e' <= -26 /\ (l - 52 - 2 * e' = 52 \/ l - 52 - 2 * e' = 53)).
  { subst e'. unfold fexp, SpecFloat.emin, prec, emax. rewrite !Z.div2_div.
    Z.to_euclidean_division_equations. lia. }
  destruct He' as [He' Hs].
  assert (Hroot : match l - 52 - 2 * e' with
                  | 0 => Z.pos mx
                  | Z.pos _ => Z.shiftl (Z.pos mx) (l - 52 - 2 * e')
                  | Z.neg _ => 0
                  end = p * 2 ^ (- e') * 2 ^ (- e')).
  { assert (Hsh : Z.shiftl (Z.pos mx) (l - 52 - 2 * e') = p * 2 ^ (- e') * 2 ^ (- e')).
    { rewrite Z.shiftl_mul_pow2 by lia. rewrite <- E.
      rewrite <- !Z.mul_assoc, <- !Z.pow_add_r by lia. do 2 f_equal. lia. }
    destruct Hs as [Hs|Hs]; rewrite Hs in *; exact Hsh. }
  rewrite Hroot. set (m' := p * 2 ^ (- e') * 2 ^ (- e')) in *.
  assert (Hm' : 2 ^ 104 <= m' < 2 ^ 106).
  { rewrite <- Hroot. change (2 ^ (52 + 1)) with (2 ^ 53) in Hmx.
    destruct Hs as [-> | ->]; rewrite Z.shiftl_mul_pow2 by lia.
    - change (2 ^ 104) with (2 ^ 52 * 2 ^ 52). change (2 ^ 106) with (2 ^ 54 * 2 ^ 52).
      nia.
    - change (2 ^ 104) with (2 ^ 51 * 2 ^ 53). change (2 ^ 106) with (2 ^ 53 * 2 ^ 53).
      nia. }
  pose proof (Z.sqrtrem_sqrt m') as Hq.
  destruct (Z.sqrtrem m') as [q r]. cbn [fst] in Hq. subst q.
  assert (Hq : 0 < Z.sqrt m' < 2 ^ 53).
  { split; [apply Z.sqrt_pos; lia|].
    apply Z.sqrt_lt_square; [lia|lia|].
    unfold Z.square. change (2 ^ 53 * 2 ^ 53) with (2 ^ 106). lia. }
  assert (Hlow : a * 2 ^ (- e') <= Z.sqrt m').
  { assert (0 < 2 ^ (- e')) by (apply Z.pow_pos_nonneg; lia).
    apply Z.sqrt_le_square; [lia|nia|]. subst m'. nia. }
  destruct (binary_round_aux_value (Z.sqrt m') e'
              (if r =? 0 then loc_Exact
               else loc_Inexact (if r <=? Z.sqrt m' then Lt else Gt))
              ltac:(lia) ltac:(lia))
    as [m'' [e'' [Heq [He'' [_ [Hval _]]]]]].
  specialize (Hval ltac:(lia)).
  exists m'', e''. split; [exact Heq|]. split; [lia|].
  assert (Hk : 0 < 2 ^ (e'' - e')) by (apply Z.pow_pos_nonneg; lia).
  apply Z.mul_le_mono_pos_r with (p := 2 ^ (e'' - e')); [exact Hk|].
  rewrite <- Z.mul_assoc, <- Z.pow_add_r by lia.
  replace (- e'' + (e'' - e')) with (- e') by lia. lia.
Qed.

(** A quotient of two normal numbers, the first not above the second, is
    at most one. *)
Lemma SFdiv_le_one (ma m : positive) (ea e : Z) :
  Z.log2 (Z.pos ma) = 52 -> Z.log2 (Z.pos m) = 52 ->
  0 <= e - ea <= 60 ->
  Z.pos ma <= Z.pos m * 2 ^ (e - ea) ->
  exists m' e',
    SFdiv prec emax (S754_finite false ma ea) (S754_finite false m e)
    = S754_finite false m' e' /\
    ea - e - 53 <= e' /\
    Z.pos m' * 2 ^ (e' - (ea - e - 53)) <= 2 ^ (53 + (e - ea)).
Proof.
  intros Hma Hm He Hle.
  pose proof (log2_bounds (Z.pos ma) 52 ltac:(lia) Hma) as Hba.
  pose proof (log2_bounds (Z.pos m) 52 ltac:(lia) Hm) as Hb.
  change (2 ^ (52 + 1)) with (2 ^ 53) in *.
  cbn [SFdiv xorb]. unfold SFdiv_core_binary. cbv zeta. unfold Zdigits2.
  rewrite !digits2_log2, Hma, Hm.
  replace (Z.min (fexp prec emax (52 + 1 + ea - (52 + 1 + e))) (ea - e))
    with (ea - e - 53)
    by (unfold fexp, SpecFloat.emin, prec, emax; lia).
  replace (ea - e - (ea - e - 53)) with 53 by lia.
  rewrite Z.shiftl_mul_pow2 by lia.
  pose proof (Z_div_mod (Z.pos ma * 2 ^ 53) (Z.pos m) ltac:(lia)) as Hdiv.
  destruct (Z.div_eucl (Z.pos ma * 2 ^ 53) (Z.pos m)) as [q r].
  destruct Hdiv as [Hdiv Hr].
  assert (Hq : 0 < q < 2 ^ 54).
  { change (2 ^ 54) with (2 * 2 ^ 53). split; nia. }
  destruct (binary_round_aux_value q (ea - e - 53) (new_location (Z.pos m) r) Hq
                                   ltac:(lia))
    as [m' [e' [Heq [He' [H54 [Hsmall Hexact]]]]]].
  exists m', e'. split; [exact Heq|]. split; [lia|].
  destruct (Z.eq_dec (e - ea) 0) as [H0|H0].
  - rewrite H0 in *. rewrite Z.mul_1_r in Hle. change (53 + 0) with 53.
    assert (Hq53 : q <= 2 ^ 53) by nia.
    destruct (Z.eq_dec q (2 ^ 53)) as [Hq'|Hq'].
    + assert (r = 0) by nia. subst r q.
      rewrite Hexact; [lia| |reflexivity].
      unfold new_location, new_location_even, new_location_odd.
      now destruct (Z.even (Z.pos m)).
    + specialize (Hsmall ltac:(lia)). lia.
  - apply Z.le_trans with (2 ^ 54); [exact H54|].
    apply Z.pow_le_mono_r; lia.
Qed.

Lemma SFleb_one (m : positive) (e : Z) :
  -1074 <= e ->
  e < -52 \/ (e = -52 /\ Z.pos m <= 2 ^ 52) ->
  SFleb (S754_finite false m e) (Prim2SF 1) = true.
Proof.
  intros _ H.
  replace (Prim2SF 1) with (S754_finite false 4503599627370496 (-52))
    by (symmetry; vm_compute; reflexivity).
  unfold SFleb, SFcompare.
  destruct (Z.compare_spec e (-52)) as [Heq|Hlt|Hgt]; [|reflexivity|lia].
  destruct H as [H|[_ H]]; [lia|].
  rewrite Pos.compare_cont_spec. cbn [Pos.switch_Eq].
  assert (H' : Z.pos m <= Z.pos 4503599627370496) by exact H.
  destruct (Pos.compare_spec m 4503599627370496) as [E|E|E];
    [reflexivity|reflexivity|lia].
Qed.

Lemma cosine_similarity_le_one (v w : list Z) :
  0 < np_dot v w ->
  np_dot v w * np_dot v w <= np_dot v v * np_dot w w ->
  np_dot v v * np_dot w w < 2 ^ 53 ->
  (cosine_similarity v w <=? 1)%float = true.
Proof.
  intros Ha Hap Hp. unfold cosine_similarity, np_sqrt.
  set (a := np_dot v w) in *. set (p := np_dot v v * np_dot w w) in *.
  assert (Ha53 : 0 < a < 2 ^ 53) by nia.
  rewrite wrap64_small by nia.
  pose proof (Prim2SF_valid (sqrt (float_of_int p))) as Vs.
  pose proof (Prim2SF_valid (float_of_int a / sqrt (float_of_int p))) as Vd.
  rewrite leb_spec, div_spec, sqrt_spec, !float_of_int_small by nia.
  rewrite div_spec, sqrt_spec, !float_of_int_small in Vd by nia.
  rewrite sqrt_spec, float_of_int_small in Vs by nia.
  unfold SF64div, SF64sqrt in *.
  destruct (SFsqrt_normal_lower p a Ha Hap Hp) as [m [e [Hsqrt [He Hlow]]]].
  rewrite Hsqrt in *.
  assert (Hmant : forall (s : bool) (x : positive) (k : Z),
             SpecFloat.valid_binary prec emax (S754_finite s x k) = true ->
             -1074 < k -> Z.log2 (Z.pos x) = 52).
  { intros s x k H Hk. cbn [SpecFloat.valid_binary] in H.
    unfold bounded, canonical_mantissa in H.
    apply andb_true_iff in H. destruct H as [Hc _].
    apply Z.eqb_eq in Hc. rewrite digits2_log2 in Hc.
    unfold fexp, SpecFloat.emin, prec, emax in Hc. lia. }
  pose proof (Hmant _ _ _ Vs ltac:(lia)) as Hm.
  pose proof (log2_bounds (Z.pos m) 52 ltac:(lia) Hm) as Hbm.
  pose proof (normal_mantissa a Ha53) as Hma. pose proof (log2_small a Ha53) as Hla.
  unfold normal in *. set (la := Z.log2 a) in *.
  assert (Hpow : 0 < 2 ^ (52 - la)) by (apply Z.pow_pos_nonneg; lia).
  destruct (a * 2 ^ (52 - la)) as [|ma|ma] eqn:E; try nia. cbn [Z.to_pos] in *.
  assert (Hma' : Z.log2 (Z.pos ma) = 52) by lia. clear Hma.
  pose proof (log2_bounds (Z.pos ma) 52 ltac:(lia) Hma') as Hbma.
  change (2 ^ (52 + 1)) with (2 ^ 53) in *.
  assert (Hord : la - 52 <= e).
  { destruct (Z.lt_ge_cases e (la - 52)) as [Hlt|Hge]; [exfalso|exact Hge].
    assert (H2 : 2 * 2 ^ (52 - la) <= 2 ^ (- e)).
    { change 2 with (2 ^ 1) at 1. rewrite <- Z.pow_add_r by lia.
      apply Z.pow_le_mono_r; lia. }
    nia. }
  assert (Hle : Z.pos ma <= Z.pos m * 2 ^ (e - (la - 52))).
  { rewrite <- E.
    assert (Hk : 0 < 2 ^ (e - (la - 52))) by (apply Z.pow_pos_nonneg; lia).
    replace (52 - la) with (- e + (e - (la - 52))) by lia.
    rewrite Z.pow_add_r, Z.mul_assoc by lia.
    apply Z.mul_le_mono_nonneg_r; lia. }
  destruct (SFdiv_le_one ma m (la - 52) e Hma' Hm ltac:(lia) Hle)
    as [m' [e' [Hdiv [He' Hval]]]].
  rewrite Hdiv in *.
  assert (He'lo : -1074 < e') by lia.
  pose proof (Hmant _ _ _ Vd He'lo) as Hm'.
  pose proof (log2_bounds (Z.pos m') 52 ltac:(lia) Hm') as Hbm'.
  change (2 ^ (52 + 1)) with (2 ^ 53) in *.
  apply SFleb_one.
  - lia.
  - clear - Hval He He' Hla Hbm' Hord.
    set (D := e - (la - 52)) in *.
    replace (e' - (la - 52 - e - 53)) with (e' + 53 + D) in Hval by lia.
    assert (H0 : 0 < 2 ^ (e' + 53 + D)) by (apply Z.pow_pos_nonneg; lia).
    assert (H3 : 2 ^ (53 + D) = 2 ^ 52 * 2 ^ (1 + D))
      by (rewrite <- Z.pow_add_r by lia; f_equal; lia).
    assert (H1 : 0 < 2 ^ (1 + D)) by (apply Z.pow_pos_nonneg; lia).
    destruct (Z.lt_ge_cases e' (-52)) as [Hlt|Hge]; [now left|right].
    assert (He52 : e' = -52).
    { destruct (Z.eq_dec e' (-52)) as [Heq|Hne]; [exact Heq|exfalso].
      assert (H2 : 2 * 2 ^ (1 + D) <= 2 ^ (e' + 53 + D)).
      { change 2 with (2 ^ 1) at 1. rewrite <- Z.pow_add_r by lia.
        apply Z.pow_le_mono_r; lia. }
      rewrite H3 in Hval.
      assert (2 ^ 52 * (2 * 2 ^ (1 + D)) <= Z.pos m' * 2 ^ (e' + 53 + D))
        by (apply Z.mul_le_mono_nonneg; lia).
      lia. }
    split; [exact He52|]. subst e'.
    replace (-52 + 53 + D) with (1 + D) in Hval by lia.
    rewrite H3 in Hval. apply Z.mul_le_mono_pos_r in Hval; assumption.
Qed.

Lemma cosine_similarity_zero_exact (v w : list Z) :
  np_dot v w = 0 -> 0 < np_dot v v * np_dot w w < 2 ^ 53 ->
  cosine_similarity v w = 0%float.
Proof.
  intros H Hp. unfold cosine_similarity, np_sqrt. rewrite H.
  rewrite wrap64_small by lia.
  replace (float_of_int 0) with 0%float by (vm_compute; reflexivity).
  apply Prim2SF_inj.
  rewrite div_spec, sqrt_spec, float_of_int_small, Prim2SF_zero by assumption.
  unfold SF64div, SF64sqrt.
  destruct (SFsqrt_normal _ Hp) as [m [e [-> _]]]. reflexivity.
Qed.

Lemma filter_length_mono {A : Type} (f g : A -> bool) (l : list A) :
  (forall x, f x = true -> g x = true) ->
  (length (filter f l) <= length (filter g l))%nat.
Proof.
  intros H. induction l as [|x l IH]; cbn; [lia|].
  destruct (f x) eqn:Ef.
  - rewrite (H x Ef). cbn. lia.
  - destruct (g x); cbn; lia.
Qed.

Lemma filter_length_pos {A : Type} (f : A -> bool) (l : list A) (x : A) :
  In x l -> f x = true -> (0 < length (filter f l))%nat.
Proof.
  intros Hx Hf. assert (Hin : In x (filter f l)) by (apply filter_In; tauto).
  destruct (filter f l); [contradiction|cbn; lia].
Qed.

Lemma filter_length_zero {A : Type} (f : A -> bool) (l : list A) :
  (forall x, In x l -> f x = false) -> length (filter f l) = 0%nat.
Proof.
  intros H. induction l as [|x l IH]; cbn; [reflexivity|].
  rewrite (H x (or_introl eq_refl)). apply IH. intros y Hy. apply H. now right.
Qed.

(** The similarity of two membership vectors over one list of at most 2^26
    slots: NaN when one is empty, 0 when they are disjoint, and in (0, 1]
    when they overlap. *)
Lemma membership_cosine_range {A : Type} (f g : A -> bool) (l : list A) :
  Z.of_nat (length l) <= 2 ^ 26 ->
  let s := cosine_similarity (map (fun x => if f x then 1 else 0) l)
                             (map (fun x => if g x then 1 else 0) l) in
  ((forall x, In x l -> f x = false) \/ (forall x, In x l -> g x = false) ->
   s = nan) /\
  ((exists x, In x l /\ f x = true) -> (exists x, In x l /\ g x = true) ->
   (forall x, In x l -> f x && g x = false) -> s = 0%float) /\
  ((exists x, In x l /\ f x && g x = true) ->
   (0 <? s)%float = true /\ (s <=? 1)%float = true).
Proof.
  intros Hlen. cbv zeta.
  assert (H63 : Z.of_nat (length l) < 2 ^ 63) by lia.
  pose proof (np_dot_membership f g l H63) as Hfg.
  pose proof (np_dot_membership f f l H63) as Hff.
  pose proof (np_dot_membership g g l H63) as Hgg.
  pose proof (filter_length_le (fun x => f x && f x) l) as Lf.
  pose proof (filter_length_le (fun x => g x && g x) l) as Lg.
  assert (Hpow : 2 ^ 53 = 2 * (2 ^ 26 * 2 ^ 26)) by reflexivity.
  split; [|split].
  - intros H. apply cosine_similarity_zero.
    destruct H as [H|H]; [left|right]; apply Forall_forall; intros z Hz;
      apply in_map_iff in Hz; destruct Hz as [x [<- Hx]]; now rewrite (H x Hx).
  - intros [x [Hx Hfx]] [y [Hy Hgy]] Hdis.
    pose proof (filter_length_pos (fun x => f x && f x) l x Hx
                  ltac:(cbv beta; rewrite Hfx; reflexivity)) as Pf.
    pose proof (filter_length_pos (fun x => g x && g x) l y Hy
                  ltac:(cbv beta; rewrite Hgy; reflexivity)) as Pg.
    apply cosine_similarity_zero_exact.
    + rewrite Hfg, (filter_length_zero _ _ Hdis). reflexivity.
    + rewrite Hff, Hgg, Hpow. split; nia.
  - intros [x [Hx Hfgx]]. apply andb_true_iff in Hfgx. destruct Hfgx as [Hfx Hgx].
    pose proof (filter_length_pos (fun x => f x && g x) l x Hx
                  ltac:(cbv beta; rewrite Hfx, Hgx; reflexivity)) as Pfg.
    pose proof (filter_length_mono (fun x => f x && g x) (fun x => f x && f x) l) as Mf.
    pose proof (filter_length_mono (fun x => f x && g x) (fun x => g x && g x) l) as Mg.
    assert (Mf' : (length (filter (fun x => f x && g x) l)
                   <= length (filter (fun x => f x && f x) l))%nat).
    { apply Mf. intros y Hy. apply andb_true_iff in Hy. destruct Hy as [-> _].
      reflexivity. }
    assert (Mg' : (length (filter (fun x => f x && g x) l)
                   <= length (filter (fun x => g x && g x) l))%nat).
    { apply Mg. intros y Hy. apply andb_true_iff in Hy. destruct Hy as [_ ->].
      reflexivity. }
    split.
    + apply cosine_similarity_positive; rewrite ?Hfg, ?Hff, ?Hgg, ?Hpow;
        split; nia.
    + apply cosine_similarity_le_one; rewrite ?Hfg, ?Hff, ?Hgg, ?Hpow; nia.
Qed.

(** ** Filtering before or after ranking *)

Section SortFilter.
Context {A K : Type}.
Variable key : A -> K.
Variable lt : K -> K -> bool.
Variable comparable : K -> Prop.
Hypothesis lt_asym : forall a b, lt a b = true -> lt b a = false.
Hypothesis lt_negtrans :
  forall a b c, comparable b -> lt a b = false -> lt b c = false -> lt a c = false.
Variable p : A -> bool.

Lemma insert_reverse_first (x : A) (l : list A) :
  Forall (fun z => lt (key x) (key z) = false) l ->
  insert_reverse key lt x l = x :: l.
Proof. intros H. destruct H as [|z l Hz _]; cbn; [reflexivity|]. now rewrite Hz. Qed.

Lemma insert_reverse_filter (x : A) (l : list A) :
  Forall (fun y => comparable (key y)) l ->
  StronglySorted (fun a b => lt (key a) (key b) = false) l ->
  filter p (insert_reverse key lt x l) =
  if p x then insert_reverse key lt x (filter p l) else filter p l.
Proof.
  intros Hc Hs. induction Hs as [|y l Hs IH Hall]; cbn [insert_reverse filter].
  - now destruct (p x).
  - inversion Hc as [|? ? Hcy Hcl]; subst.
    destruct (lt (key x) (key y)) eqn:E; cbn [filter].
    + rewrite (IH Hcl). destruct (p x), (p y); cbn [insert_reverse];
        rewrite ?E; reflexivity.
    + destruct (p x); [|reflexivity].
      rewrite insert_reverse_first; [reflexivity|].
      apply Forall_forall. intros z Hz.
      assert (Hin : In z (y :: l)).
      { destruct (p y); [destruct Hz as [<-|Hz]; [now left|right]|right];
          now apply filter_In in Hz. }
      destruct Hin as [<-|Hin]; [exact E|].
      apply lt_negtrans with (b := key y); [exact Hcy|exact E|].
      rewrite Forall_forall in Hall. now apply Hall.
Qed.

(** A stable sort commutes with filtering. *)
Lemma sorted_reverse_filter (l : list A) :
  Forall (fun y => comparable (key y)) l ->
  filter p (sorted_reverse key lt l) = sorted_reverse key lt (filter p l).
Proof.
  intros Hc. induction Hc as [|x l Hx Hc IH]; [reflexivity|].
  change (sorted_reverse key lt (x :: l))
    with (insert_reverse key lt x (sorted_reverse key lt l)).
  rewrite insert_reverse_filter.
  - rewrite IH. cbn [filter]. now destruct (p x).
  - apply Forall_forall. intros y Hy. apply sorted_reverse_In in Hy.
    rewrite Forall_forall in Hc. now apply Hc.
  - pose proof (sorted_reverse_sorted key lt comparable lt_asym lt_negtrans
                  (fun _ _ => True) l Hc (StronglySorted_trivial l)) as Hs.
    revert Hs. apply StronglySorted_weaken. now intros a b _ _ [H _].
Qed.
End SortFilter.

Lemma dict_update_filter {V : Type} (default : V) (f : V -> V) (q : string -> bool)
      (d : list (string * V)) (k : string) :
  filter (fun e => q (fst e)) (dict_update default f d k) =
  if q k
  then dict_update default f (filter (fun e => q (fst e)) d) k
  else filter (fun e => q (fst e)) d.
Proof.
  induction d as [|[k' v] d IH]; cbn [dict_update filter fst].
  - now destruct (q k).
  - destruct (String.eqb_spec k' k) as [->|Hne]; cbn [filter fst].
    + destruct (q k); cbn [dict_update]; [now rewrite String.eqb_refl|reflexivity].
    + rewrite IH. destruct (q k), (q k'); cbn [dict_update]; try reflexivity.
      destruct (String.eqb_spec k' k); [contradiction|reflexivity].
Qed.

Lemma accumulate_from_filter (q : string -> bool) (increments d : list (string * float)) :
  filter (fun e => q (fst e))
         (fold_left (fun d e => dict_add d (fst e) (snd e)) increments d) =
  fold_left (fun d e => dict_add d (fst e) (snd e))
            (filter (fun e => q (fst e)) increments)
            (filter (fun e => q (fst e)) d).
Proof.
  revert d. induction increments as [|e l IH]; intros d; [reflexivity|].
  cbn [fold_left filter]. rewrite IH. unfold dict_add at 2.
  rewrite dict_update_filter. now destruct (q (fst e)).
Qed.

(** Weights of interests outside a set are not affected by the increments
    of interests inside it. *)
Lemma accumulate_filter (q : string -> bool) (increments : list (string * float)) :
  filter (fun e => q (fst e)) (accumulate increments) =
  accumulate (filter (fun e => q (fst e)) increments).
Proof. apply accumulate_from_filter. Qed.

Lemma flat_map_filter_nil {A B : Type} (g : A -> list B) (p : A -> bool) (l : list A) :
  (forall a, In a l -> p a = false -> g a = []) ->
  flat_map g (filter p l) = flat_map g l.
Proof.
  induction l as [|a l IH]; intros H; [reflexivity|]. cbn [filter flat_map].
  destruct (p a) eqn:E; cbn [flat_map].
  - rewrite IH; [reflexivity|]. intros b Hb. apply H. now right.
  - rewrite (H a (or_introl eq_refl) E), IH; [reflexivity|].
    intros b Hb. apply H. now right.
Qed.

Lemma filter_flat_map {A B : Type} (g : A -> list B) (p : B -> bool) (l : list A) :
  filter p (flat_map g l) = flat_map (fun a => filter p (g a)) l.
Proof.
  induction l as [|a l IH]; cbn; [reflexivity|]. now rewrite filter_app, IH.
Qed.

Lemma filter_andb {A : Type} (p q : A -> bool) (l : list A) :
  filter (fun a => p a && q a) l = filter p (filter q l).
Proof.
  induction l as [|a l IH]; cbn; [reflexivity|].
  destruct (q a), (p a) eqn:E; cbn; rewrite ?E, IH; reflexivity.
Qed.

Lemma own_increments_filtered (mine l : list string) (s : float) :
  (forall x, In x l -> In x mine) ->
  filter (fun e : string * float => negb (contains mine (fst e)))
         (map (fun interest => (interest, s)) l) = [].
Proof.
  intros H. induction l as [|x l IH]; [reflexivity|]. cbn [map filter fst].
  rewrite (proj2 (contains_In mine x) (H x (or_introl eq_refl))). cbn [negb].
  apply IH. intros y Hy. apply H. now right.
Qed.

Section FromEnd.
Variable users_interests : list (list string).

(** A ranking filtered by interest is the ranking of the filtered
    increments. *)
Lemma ranked_filter (q : string -> bool) (increments : list (string * float)) :
  Forall (fun e => (0 <? snd e)%float = true) increments ->
  filter (fun e => q (fst e)) (sorted_reverse snd PrimFloat.ltb (accumulate increments)) =
  sorted_reverse snd PrimFloat.ltb (accumulate (filter (fun e => q (fst e)) increments)).
Proof.
  intros Hpos.
  rewrite (sorted_reverse_filter snd PrimFloat.ltb nonneg ltb_asym ltb_negtrans).
  - now rewrite accumulate_filter.
  - apply Forall_forall. intros [x w] Hin. cbn [snd].
    apply positive_nonneg. now apply accumulate_positive with (increments := increments) (x := x).
Qed.

Lemma get_similar_users_without (i : Z) :
  - Z.of_nat (length users_interests) <= i < 0 ->
  exists similar,
    get_similar_users users_interests i = Ok similar /\
    get_similar_users users_interests (Z.of_nat (length users_interests) + i) =
    Ok (filter (fun p => negb (Z.of_nat (length users_interests) + i =? fst p)) similar).
Proof.
  intros Hi. eexists. split; [now apply get_similar_users_negative|].
  set (u := Z.of_nat (length users_interests) + i).
  destruct (get_similar_users_Ok users_interests u) as [vi [Hvi ->]]; [lia|].
  rewrite Hvi by lia. f_equal.
  set (rows := enumerate (map (cosine_similarity (user_vector users_interests u))
                              (user_interest_matrix users_interests))).
  assert (Hi' : filter (fun p : Z * float => negb (i =? fst p) && (0 <? snd p)%float) rows
                = filter (fun p : Z * float => (0 <? snd p)%float) rows).
  { apply filter_ext_in. intros [v s] Hp. apply enumerate_In in Hp. cbn [fst snd].
    destruct (Z.eqb_spec i v); [lia|reflexivity]. }
  rewrite Hi', (filter_andb (fun p : Z * float => negb (u =? fst p))
                            (fun p : Z * float => (0 <? snd p)%float)).
  symmetry.
  apply (sorted_reverse_filter snd PrimFloat.ltb nonneg ltb_asym ltb_negtrans).
  apply Forall_forall. intros [v s] Hp. apply filter_In in Hp. cbn [snd] in *.
  now apply positive_nonneg.
Qed.
End FromEnd.

(** ** Self-similarity up to the 64-bit limit *)

(** *** Conversion of an integer of more than 53 bits *)

Lemma iter_pos_nat {A : Type} (f : A -> A) (p : positive) (x : A) :
  iter_pos f p x = Nat.iter (Pos.to_nat p) f x.
Proof.
  revert x. induction p as [p IH|p IH|]; intros x; cbn [iter_pos].
  - rewrite !IH, Pos2Nat.inj_xI, <- Nat.iter_add, Nat.iter_succ_r.
    f_equal. lia.
  - rewrite !IH, Pos2Nat.inj_xO, <- Nat.iter_add. f_equal. lia.
  - reflexivity.
Qed.

Lemma shr_1_bits (mrs : shr_record) :
  0 <= shr_m mrs ->
  shr_r (shr_1 mrs) = Z.odd (shr_m mrs) /\
  shr_s (shr_1 mrs) = shr_r mrs || shr_s mrs.
Proof. destruct mrs as [[|[p|p|]|p] r s]; cbn; intros H; try lia; split; reflexivity. Qed.

Lemma mod_pow2_succ (m n : Z) :
  0 <= n ->
  negb (m mod 2 ^ (n + 1) =? 0) = Z.odd (m / 2 ^ n) || negb (m mod 2 ^ n =? 0).
Proof.
  intros Hn. assert (HA : 0 < 2 ^ n) by (apply Z.pow_pos_nonneg; lia).
  rewrite Z.pow_add_r by lia. change (2 ^ 1) with 2.
  rewrite Z.rem_mul_r, Zmod_odd by lia.
  pose proof (Z.mod_pos_bound m (2 ^ n) HA) as Hx.
  destruct (Z.odd (m / 2 ^ n)); cbn [orb].
  - apply negb_true_iff, Z.eqb_neq. lia.
  - now rewrite Z.mul_0_r, Z.add_0_r.
Qed.

(** [n + 1] one-bit shifts: the quotient, the last bit shifted out, and
    whether anything but zeros was shifted out before it. *)
Lemma iter_shr_1_spec (n : nat) (mrs : shr_record) :
  0 <= shr_m mrs ->
  shr_m (Nat.iter (S n) shr_1 mrs) = shr_m mrs / 2 ^ (Z.of_nat n + 1) /\
  shr_r (Nat.iter (S n) shr_1 mrs) = Z.odd (shr_m mrs / 2 ^ Z.of_nat n) /\
  shr_s (Nat.iter (S n) shr_1 mrs) =
  negb (shr_m mrs mod 2 ^ Z.of_nat n =? 0) || (shr_r mrs || shr_s mrs).
Proof.
  intros Hm. induction n as [|n IH].
  - cbn [Nat.iter Z.of_nat Z.add]. change (2 ^ 0) with 1. change (2 ^ 1) with 2.
    rewrite Z.div_1_r, Z.mod_1_r. cbn [Z.eqb negb orb].
    split; [now apply shr_1_half|now apply shr_1_bits].
  - destruct IH as [IHm [IHr IHs]].
    assert (Hnn : 0 <= shr_m (Nat.iter (S n) shr_1 mrs)).
    { rewrite IHm. apply Z.div_pos; [exact Hm|apply Z.pow_pos_nonneg; lia]. }
    rewrite Nat.iter_succ.
    destruct (shr_1_bits _ Hnn) as [Hr Hs].
    rewrite shr_1_half, Hr, Hs, IHm, IHr, IHs by exact Hnn.
    replace (Z.of_nat (S n)) with (Z.of_nat n + 1) by lia.
    split; [|split].
    + rewrite Z.div_div by (try apply Z.pow_pos_nonneg; lia).
      f_equal. rewrite (Z.pow_add_r 2 (Z.of_nat n + 1) 1) by lia. reflexivity.
    + reflexivity.
    + rewrite mod_pow2_succ by lia. now rewrite orb_assoc.
Qed.

(** Rounding to nearest, ties to even, errs by at most half a unit. *)
Lemma round_to_nearest_error (p A : Z) :
  0 <= p -> 0 < A ->
  - A <= round_nearest_even (p / (A * 2))
           (loc_of_shr_record
              {| shr_m := p / (A * 2); shr_r := Z.odd (p / A);
                 shr_s := negb (p mod A =? 0) || (false || false) |}) * (A * 2) - p
      <= A.
Proof.
  intros Hp HA.
  pose proof (Z.div_mod p A ltac:(lia)) as Hq.
  pose proof (Z.mod_pos_bound p A HA) as Hr.
  rewrite <- Z.div_div by lia.
  pose proof (Z.div_mod (p / A) 2 ltac:(lia)) as Hb. rewrite Zmod_odd in Hb.
  set (q1 := p / A) in *. set (r1 := p mod A) in *. set (m1 := q1 / 2) in *.
  clearbody m1. clearbody q1 r1.
  destruct (Z.odd q1); destruct (Z.eqb_spec r1 0) as [E|E];
    cbn [negb orb loc_of_shr_record round_nearest_even shr_r shr_s];
    try destruct (Z.even m1); subst p q1; lia.
Qed.

Lemma log2_large (p : Z) : 2 ^ 53 <= p < 2 ^ 63 -> 53 <= Z.log2 p <= 62.
Proof.
  intros H. split; [apply Z.log2_le_pow2; lia|].
  assert (Z.log2 p < 63) by (apply Z.log2_lt_pow2; lia). lia.
Qed.

(** The binary64 value nearest to an integer of 54 to 63 bits: a 53-bit
    mantissa at exponent [k = log2 p - 52], or the next power of two, within
    half a unit of [p]. *)
Lemma binary_normalize_large (p : Z) :
  2 ^ 53 <= p < 2 ^ 63 ->
  exists mp kp,
    binary_normalize prec emax p 0 false = S754_finite false mp kp /\
    Z.log2 (Z.pos mp) = 52 /\
    (kp = Z.log2 p - 52 \/ (kp = Z.log2 p - 52 + 1 /\ Z.pos mp = 2 ^ 52)) /\
    - 2 ^ (Z.log2 p - 53) <= Z.pos mp * 2 ^ kp - p <= 2 ^ (Z.log2 p - 53).
Proof.
  intros Hp. pose proof (log2_large p Hp) as HL.
  pose proof (log2_bounds p _ ltac:(lia) eq_refl) as Hb.
  destruct p as [|pp|pp]; try lia.
  cbn [binary_normalize]. unfold binary_round.
  rewrite digits2_log2, Z.add_0_r.
  set (L := Z.log2 (Z.pos pp)) in *.
  replace (fexp prec emax (L + 1)) with (L - 52)
    by (unfold fexp, SpecFloat.emin, prec, emax; lia).
  unfold shl_align.
  destruct (L - 52 - 0) as [|k|k] eqn:Ek; try lia.
  unfold binary_round_aux.
  assert (Hsh : shr_fexp prec emax (Z.pos pp) 0 loc_Exact =
                (iter_pos shr_1 k (shr_record_of_loc (Z.pos pp) loc_Exact), Z.pos k)).
  { unfold shr_fexp, shr, Zdigits2. rewrite digits2_log2. fold L.
    replace (fexp prec emax (L + 1 + 0) - 0) with (Z.pos k)
      by (unfold fexp, SpecFloat.emin, prec, emax; lia).
    reflexivity. }
  rewrite Hsh, iter_pos_nat.
  assert (Hn : Pos.to_nat k = S (Z.to_nat (Z.pos k - 1))) by lia.
  rewrite Hn.
  destruct (iter_shr_1_spec (Z.to_nat (Z.pos k - 1))
              (shr_record_of_loc (Z.pos pp) loc_Exact) ltac:(cbn; lia))
    as [Hm [Hr Hs]].
  remember (Nat.iter (S (Z.to_nat (Z.pos k - 1))) shr_1
                     (shr_record_of_loc (Z.pos pp) loc_Exact)) as mrs1 eqn:Emrs.
  clear Emrs.
  rewrite Z2Nat.id in Hm, Hr, Hs by lia.
  cbn [shr_record_of_loc shr_m shr_r shr_s] in Hm, Hr, Hs.
  replace (Z.pos k - 1 + 1) with (Z.pos k) in Hm by lia.
  set (A := 2 ^ (Z.pos k - 1)) in *.
  assert (HA : 0 < A) by (apply Z.pow_pos_nonneg; lia).
  assert (H2A : 2 ^ Z.pos k = A * 2).
  { subst A. rewrite Z.mul_comm, <- Z.pow_succ_r by lia. f_equal. lia. }
  rewrite H2A in Hm.
  destruct mrs1 as [m1 r1 s1].
  cbn [shr_m shr_r shr_s] in Hm, Hr, Hs. subst m1 r1 s1. cbn [shr_m].
  pose proof (round_to_nearest_error (Z.pos pp) A ltac:(lia) HA) as Herr.
  pose proof (round_nearest_even_range (Z.pos pp / (A * 2))
                (loc_of_shr_record
                   {| shr_m := Z.pos pp / (A * 2); shr_r := Z.odd (Z.pos pp / A);
                      shr_s := negb (Z.pos pp mod A =? 0) || (false || false) |}))
    as Hrange.
  set (m2 := round_nearest_even _ _) in *.
  assert (Hm1 : 2 ^ 52 <= Z.pos pp / (A * 2) < 2 ^ 53).
  { assert (HLk : L = 52 + Z.pos k) by lia.
    assert (HpL : 2 ^ L = 2 ^ 52 * (A * 2))
      by (rewrite <- H2A, <- Z.pow_add_r by lia; now rewrite HLk).
    assert (HpL1 : 2 ^ (L + 1) = 2 ^ 53 * (A * 2)).
    { rewrite <- H2A, <- Z.pow_add_r by lia. f_equal. lia. }
    split; [apply Z.div_le_lower_bound; lia|apply Z.div_lt_upper_bound; lia]. }
  assert (HkL : Z.pos k - 1 = L - 53) by lia.
  fold A in Herr. rewrite <- HkL. fold A.
  destruct (Z.eq_dec m2 (2 ^ 53)) as [E53|N53].
  - rewrite E53, shr_fexp_54 by lia.
    cbn [shr_record_of_loc shr_1 shr_m].
    replace (Z.pos k + 1 <=? emax - prec) with true
      by (symmetry; apply Z.leb_le; unfold emax, prec; lia).
    exists 4503599627370496%positive, (Z.pos k + 1).
    split; [reflexivity|]. split; [reflexivity|].
    split; [right; split; [lia|reflexivity]|].
    rewrite Z.pow_add_r, H2A by lia.
    replace (2 ^ 1) with 2 by reflexivity.
    replace (Z.pos 4503599627370496) with (2 ^ 52) by reflexivity.
    rewrite E53 in Herr.
    replace (2 ^ 53) with (2 ^ 52 * 2) in Herr by reflexivity. lia.
  - rewrite shr_fexp_53 by lia. cbn [shr_record_of_loc shr_m].
    destruct m2 as [|mp|mp] eqn:Em2; try lia.
    replace (Z.pos k <=? emax - prec) with true
      by (symmetry; apply Z.leb_le; unfold emax, prec; lia).
    exists mp, (Z.pos k). split; [reflexivity|].
    split; [|split; [left; lia|rewrite H2A; lia]].
    apply Z.log2_unique; [lia|]. change (2 ^ (52 + 1)) with (2 ^ 53). lia.
Qed.

(** *** The square root of a rounded square *)

(** The root of a normal number [P] of small positive exponent is the
    integer nearest to the real root, when that integer has 53 bits. *)
Lemma SFsqrt_nearest (mp : positive) (kp h Md : Z) :
  Z.log2 (Z.pos mp) = 52 -> 0 <= kp <= 60 -> Z.div2 kp = h ->
  2 ^ 52 <= Md < 2 ^ 53 ->
  Md * Md - Md < Z.pos mp * 2 ^ (kp - 2 * (h - 26)) <= Md * Md + Md ->
  SFsqrt prec emax (S754_finite false mp kp) = S754_finite false (Z.to_pos Md) (h - 26).
Proof.
  intros Hm Hkp Hh HMd Hnear.
  cbn [SFsqrt]. unfold SFsqrt_core_binary. cbv zeta. unfold Zdigits2.
  rewrite digits2_log2, Hm.
  assert (He' : Z.min (fexp prec emax (Z.div2 (52 + 1 + kp + 1))) (Z.div2 kp) = h - 26).
  { rewrite <- Hh. unfold fexp, SpecFloat.emin, prec, emax. rewrite !Z.div2_div.
    Z.to_euclidean_division_equations. lia. }
  rewrite He'.
  assert (Hs : kp - 2 * (h - 26) = 52 \/ kp - 2 * (h - 26) = 53).
  { rewrite <- Hh. rewrite Z.div2_div. Z.to_euclidean_division_equations. lia. }
  assert (Hroot : match kp - 2 * (h - 26) with
                  | 0 => Z.pos mp
                  | Z.pos _ => Z.shiftl (Z.pos mp) (kp - 2 * (h - 26))
                  | Z.neg _ => 0
                  end = Z.pos mp * 2 ^ (kp - 2 * (h - 26))).
  { destruct Hs as [Hs|Hs]; rewrite Hs; rewrite Z.shiftl_mul_pow2 by lia; reflexivity. }
  rewrite Hroot. set (m' := Z.pos mp * 2 ^ (kp - 2 * (h - 26))) in *. clearbody m'.
  pose proof (Z.sqrtrem_spec m' ltac:(nia)) as Hq.
  destruct (Z.sqrtrem m') as [q r]. destruct Hq as [Hq Hr].
  assert (Hcase : q = Md - 1 \/ q = Md) by nia.
  assert (Hround : round_nearest_even q
                     (if r =? 0 then loc_Exact
                      else loc_Inexact (if r <=? q then Lt else Gt)) = Md).
  { destruct Hcase as [Hc|Hc].
    - destruct (Z.eqb_spec r 0); [nia|].
      destruct (Z.leb_spec r q); [nia|]. cbn [round_nearest_even]. lia.
    - destruct (Z.eqb_spec r 0); [cbn [round_nearest_even]; lia|].
      destruct (Z.leb_spec r q); [cbn [round_nearest_even]; lia|nia]. }
  unfold binary_round_aux.
  rewrite shr_fexp_53 by lia.
  rewrite shr_record_of_loc_m, loc_of_shr_record_of_loc, Hround.
  rewrite shr_fexp_53 by lia. cbn [shr_record_of_loc shr_m].
  destruct Md as [|M|M]; try lia. cbn [Z.to_pos].
  replace (h - 26 <=? emax - prec) with true; [reflexivity|].
  symmetry. apply Z.leb_le. unfold emax, prec. lia.
Qed.

(** The root of the binary64 value nearest to [d * d] is [d]. *)
Lemma SFsqrt_rounded_square (mp : positive) (kp d a E : Z) :
  Z.log2 (Z.pos mp) = 52 -> 0 <= a <= 52 -> 0 <= kp <= 60 -> Z.div2 kp = a - 26 ->
  2 ^ a <= d < 2 ^ (a + 1) ->
  - E <= Z.pos mp * 2 ^ kp - d * d <= E -> 0 <= E -> E * 2 ^ (52 - a) < d ->
  SFsqrt prec emax (S754_finite false mp kp) = normal d.
Proof.
  intros Hm Ha Hkp Hh Hd Herr HE Hsmall.
  set (T := 2 ^ (52 - a)) in *.
  assert (HT : 0 < T) by (apply Z.pow_pos_nonneg; lia).
  assert (HaT : 2 ^ a * T = 2 ^ 52)
    by (subst T; rewrite <- Z.pow_add_r by lia; f_equal; lia).
  assert (Ha1T : 2 ^ (a + 1) * T = 2 ^ 53)
    by (subst T; rewrite <- Z.pow_add_r by lia; f_equal; lia).
  assert (HMd : 2 ^ 52 <= d * T < 2 ^ 53) by nia.
  assert (Hlog : Z.log2 d = a) by (apply Z.log2_unique; lia).
  unfold normal. rewrite Hlog. fold T.
  replace (a - 52) with (a - 26 - 26) by lia.
  apply SFsqrt_nearest; try assumption.
  replace (kp - 2 * (a - 26 - 26)) with (kp + (52 - a) + (52 - a)) by lia.
  rewrite !Z.pow_add_r by lia. fold T.
  set (P := Z.pos mp * 2 ^ kp) in *. set (X := d * d) in *.
  replace (Z.pos mp * (2 ^ kp * T * T)) with (P * (T * T)) by (subst P; ring).
  replace (d * T * (d * T)) with (X * (T * T)) by (subst X; ring).
  assert (H1 : E * (T * T) <= (d - 1) * T).
  { rewrite Z.mul_assoc. apply Z.mul_le_mono_nonneg_r; lia. }
  assert (H2 : (P - X) * (T * T) <= E * (T * T))
    by (apply Z.mul_le_mono_nonneg_r; nia).
  assert (H3 : - E * (T * T) <= (P - X) * (T * T))
    by (apply Z.mul_le_mono_nonneg_r; nia).
  clearbody P X. nia.
Qed.

Lemma square_between (d a : Z) :
  0 < d -> 0 <= a ->
  2 ^ a * 2 ^ a <= d * d -> d * d < 2 ^ (a + 1) * 2 ^ (a + 1) ->
  2 ^ a <= d < 2 ^ (a + 1).
Proof.
  intros Hd Ha Hlo Hhi.
  assert (0 < 2 ^ a) by (apply Z.pow_pos_nonneg; lia).
  assert (0 < 2 ^ (a + 1)) by (apply Z.pow_pos_nonneg; lia).
  split; [apply Z.square_le_simpl_nonneg|apply Z.square_lt_simpl_nonneg]; lia.
Qed.

Ltac rounded_square Hmp Hbetween Herr Hb :=
  match type of Hbetween with
  | 2 ^ ?a <= ?d < _ =>
      match type of Herr with
      | - ?E <= _ <= _ =>
          apply (SFsqrt_rounded_square _ _ _ a E Hmp);
          [ lia | lia | reflexivity | exact Hbetween | exact Herr | lia
          | destruct (Z.eq_dec d (2 ^ a)) as [Heq|Hne];
            [rewrite Heq in Hb; lia|lia] ]
      end
  end.

Lemma sqrt_square_large (d : Z) :
  0 < d -> 2 ^ 53 <= d * d < 2 ^ 63 ->
  SFsqrt prec emax (binary_normalize prec emax (d * d) 0 false) = normal d.
Proof.
  intros Hd Hp.
  destruct (binary_normalize_large (d * d) Hp) as [mp [kp [-> [Hmp [Hkp Herr]]]]].
  pose proof (log2_large _ Hp) as HL.
  pose proof (log2_bounds (d * d) _ ltac:(lia) eq_refl) as Hb.
  set (L := Z.log2 (d * d)) in *. clearbody L.
  assert (Hbetween : 2 ^ Z.div2 L <= d < 2 ^ (Z.div2 L + 1)).
  { apply square_between; [lia| | |].
    - rewrite Z.div2_div. Z.to_euclidean_division_equations. lia.
    - rewrite <- Z.pow_add_r by (rewrite Z.div2_div; Z.to_euclidean_division_equations; lia).
      apply Z.le_trans with (2 ^ L); [|lia].
      apply Z.pow_le_mono_r; [lia|].
      rewrite Z.div2_div. Z.to_euclidean_division_equations. lia.
    - rewrite <- Z.pow_add_r by (rewrite Z.div2_div; Z.to_euclidean_division_equations; lia).
      apply Z.lt_le_trans with (2 ^ (L + 1)); [lia|].
      apply Z.pow_le_mono_r; [lia|].
      rewrite Z.div2_div. Z.to_euclidean_division_equations. lia. }
  assert (Hcases : L = 53 \/ L = 54 \/ L = 55 \/ L = 56 \/ L = 57 \/
                   L = 58 \/ L = 59 \/ L = 60 \/ L = 61 \/ L = 62) by lia.
  assert (Hsq : forall c, 0 <= d <= c -> d * d <= c * c)
    by (intros c Hc; apply Z.mul_le_mono_nonneg; lia).
  repeat (destruct Hcases as [->|Hcases]); try subst L;
    cbn [Z.div2 Z.add Z.sub Z.pos_sub Z.opp Z.succ_double Z.pred_double
         Pos.pred_double Pos.add Pos.succ Z.double Pos.div2 Z.of_nat] in *;
    (destruct Hkp as [->|[-> Hpow]];
     [ rounded_square Hmp Hbetween Herr Hb
     | first [ rounded_square Hmp Hbetween Herr Hb
             | exfalso; rewrite Hpow in Herr;
               match type of Hbetween with
               | _ <= d < ?hi => pose proof (Hsq (hi - 1) ltac:(lia))
               end; lia ] ]).
Qed.

Lemma float_of_int_large (p : Z) :
  2 ^ 53 <= p < 2 ^ 63 ->
  Prim2SF (float_of_int p) = binary_normalize prec emax p 0 false.
Proof.
  intros Hp. unfold float_of_int. apply Prim2SF_SF2Prim.
  pose proof (log2_large p Hp) as HL.
  destruct (binary_normalize_large p Hp) as [mp [kp [-> [Hmp [Hkp _]]]]].
  cbn [SpecFloat.valid_binary]. unfold bounded, canonical_mantissa.
  rewrite digits2_log2, Hmp. apply andb_true_iff. split.
  - apply Z.eqb_eq. unfold fexp, SpecFloat.emin, prec, emax. lia.
  - apply Z.leb_le. unfold prec, emax. lia.
Qed.

(** [cosine_similarity v v] is 1 whenever the squared norm is positive and
    its square fits in 64 bits. *)
Lemma cosine_similarity_self_int64 (v : list Z) :
  0 < np_dot v v -> np_dot v v * np_dot v v < 2 ^ 63 ->
  cosine_similarity v v = 1%float.
Proof.
  intros Hd Hsq.
  destruct (Z.lt_ge_cases (np_dot v v * np_dot v v) (2 ^ 53)) as [Hlt|Hge];
    [now apply cosine_similarity_self_exact|].
  unfold cosine_similarity, np_sqrt. set (d := np_dot v v) in *.
  assert (Hd53 : 0 < d < 2 ^ 53).
  { split; [exact Hd|]. apply Z.square_lt_simpl_nonneg; [lia|].
    apply Z.lt_trans with (2 ^ 63); [exact Hsq|reflexivity]. }
  rewrite wrap64_small by lia.
  apply Prim2SF_inj.
  rewrite div_spec, sqrt_spec, float_of_int_small, float_of_int_large by lia.
  unfold SF64div, SF64sqrt. rewrite sqrt_square_large by lia.
  pose proof (normal_mantissa d Hd53) as Hm. unfold normal.
  assert (Hpos : 0 < d * 2 ^ (52 - Z.log2 d))
    by (apply Z.mul_pos_pos; [lia|apply Z.pow_pos_nonneg; pose proof (log2_small d Hd53); lia]).
  destruct (d * 2 ^ (52 - Z.log2 d)) as [|m|m]; try lia.
  cbn [Z.to_pos]. now rewrite SFdiv_self.
Qed.

(** ** The domain of [np_dot] *)

Lemma np_dot_wrap (v w : list Z) : np_dot v w = wrap64 (dot v w).
Proof. reflexivity. Qed.

Lemma dot_acc (v w : list Z) (acc : Z) :
  fold_left (fun acc p => acc + fst p * snd p) (combine v w) acc = acc + dot v w.
Proof.
  unfold dot. revert w acc.
  induction v as [|x v IH]; intros [|y w] acc; cbn [combine fold_left fst snd]; try lia.
  rewrite (IH w (acc + x * y)), (IH w (0 + x * y)). lia.
Qed.

Lemma dot_cons (x y : Z) (v w : list Z) : dot (x :: v) (y :: w) = x * y + dot v w.
Proof.
  unfold dot at 1. cbn [combine fold_left fst snd]. rewrite dot_acc. lia.
Qed.

Lemma dot_nil_l (w : list Z) : dot [] w = 0.
Proof. reflexivity. Qed.

Lemma dot_nil_r (v : list Z) : dot v [] = 0.
Proof. destruct v; reflexivity. Qed.

Lemma dot_self_nonneg (v : list Z) : 0 <= dot v v.
Proof.
  induction v as [|x v IH]; [cbn; lia|]. rewrite dot_cons. nia.
Qed.

Lemma dot_self_ge (v : list Z) (x : Z) : In x v -> x * x <= dot v v.
Proof.
  induction v as [|y v IH]; [intros []|]. rewrite dot_cons.
  pose proof (dot_self_nonneg v) as Hv.
  intros [->|Hin]; [lia|]. specialize (IH Hin). nia.
Qed.

Lemma dot_self_zero (v : list Z) : dot v v = 0 -> Forall (fun x => x = 0) v.
Proof.
  intros H. apply Forall_forall. intros x Hx. apply dot_self_ge in Hx. nia.
Qed.

Lemma dot_self_pos (v : list Z) : ~ Forall (fun x => x = 0) v -> 0 < dot v v.
Proof.
  intros Hnz. pose proof (dot_self_nonneg v) as Hv.
  destruct (Z.eq_dec (dot v v) 0) as [H0|H0]; [|lia].
  exfalso. now apply Hnz, dot_self_zero.
Qed.

(** Cauchy-Schwarz over the integers. *)
Lemma dot_cauchy_schwarz (v w : list Z) :
  dot v w * dot v w <= dot v v * dot w w.
Proof.
  revert w. induction v as [|x v IH]; intros [|y w].
  - cbn. lia.
  - rewrite !dot_nil_l. lia.
  - rewrite !dot_nil_r. lia.
  - rewrite !dot_cons. specialize (IH w).
    pose proof (dot_self_nonneg v) as Hv. pose proof (dot_self_nonneg w) as Hw.
    set (a := dot v w) in *. set (b := dot v v) in *. set (c := dot w w) in *.
    clearbody a b c.
    assert (H : 2 * (x * y * a) <= x * x * c + y * y * b).
    { assert (Hp : 0 <= x * x * c + y * y * b) by nia.
      assert (Hsq : (2 * (x * y * a)) * (2 * (x * y * a))
                    <= (x * x * c + y * y * b) * (x * x * c + y * y * b)).
      { assert (H1 : 0 <= (x * x * c - y * y * b) * (x * x * c - y * y * b))
          by apply Z.square_nonneg.
        assert (H2 : 0 <= (x * y) * (x * y) * (b * c - a * a))
          by (apply Z.mul_nonneg_nonneg; [apply Z.square_nonneg|lia]).
        lia. }
      apply Z.square_le_simpl_nonneg; [exact Hp|exact Hsq]. }
    lia.
Qed.

(** On entries whose sum of products fits in 64 bits, numpy's integer dot
    product is the exact one. *)
Lemma np_dot_exact (v w : list Z) : int64 (dot v w) -> np_dot v w = dot v w.
Proof. intros H. rewrite np_dot_wrap. now apply wrap64_small. Qed.

(** A vector whose squared norm is small has small entries. *)
Lemma dot_self_int64 (v : list Z) : dot v v < 2 ^ 63 -> Forall int64 v.
Proof.
  intros H. apply Forall_forall. intros x Hx. apply dot_self_ge in Hx.
  unfold int64. nia.
Qed.

Lemma binary_int64 (v : list Z) : Forall (fun x => x = 0 \/ x = 1) v -> Forall int64 v.
Proof.
  apply Forall_impl. intros x [->| ->]; unfold int64; lia.
Qed.

(** Every two vectors the notebook compares are rows of one matrix: they
    have one length and entries 0 and 1, inside the domain of [np_dot]. *)
Lemma user_vector_domain (users_interests : list (list string)) (u v : Z) :
  length (user_vector users_interests u) = length (user_vector users_interests v) /\
  Forall int64 (user_vector users_interests u).
Proof.
  split.
  - unfold user_vector, generate_user_interest_vector. now rewrite !length_map.
  - apply binary_int64, generate_user_interest_vector_binary.
Qed.

Lemma interest_vector_domain (users_interests : list (list string)) (i j : Z) :
  0 <= i < Z.of_nat (length (unique_interests users_interests)) ->
  0 <= j < Z.of_nat (length (unique_interests users_interests)) ->
  length (interest_vector users_interests i) = length (interest_vector users_interests j) /\
  Forall int64 (interest_vector users_interests i).
Proof.
  intros Hi Hj. split.
  - rewrite !interest_vector_entries by assumption. now rewrite !length_map.
  - now apply binary_int64, interest_vector_binary.
Qed.

(** With no 64-bit overflow the similarity is the formula over the exact
    dot products. *)
Lemma cosine_similarity_exact (v w : list Z) :
  dot v v * dot w w < 2 ^ 63 ->
  cosine_similarity v w =
  (float_of_int (dot v w) / sqrt (float_of_int (dot v v * dot w w)))%float.
Proof.
  intros Hp.
  pose proof (dot_self_nonneg v) as Hv. pose proof (dot_self_nonneg w) as Hw.
  pose proof (dot_cauchy_schwarz v w) as Hcs.
  destruct (Z.eq_dec (dot v v) 0) as [Hv0|Hv0].
  - rewrite cosine_similarity_zero by (left; now apply dot_self_zero).
    assert (H0 : dot v w = 0) by nia.
    rewrite H0, Hv0, Z.mul_0_l. vm_compute. reflexivity.
  - destruct (Z.eq_dec (dot w w) 0) as [Hw0|Hw0].
    + rewrite cosine_similarity_zero by (right; now apply dot_self_zero).
      assert (H0 : dot v w = 0) by nia.
      rewrite H0, Hw0, Z.mul_0_r. vm_compute. reflexivity.
    + unfold cosine_similarity, np_sqrt.
      rewrite (np_dot_exact v w) by (unfold int64; nia).
      rewrite (np_dot_exact v v) by (unfold int64; nia).
      rewrite (np_dot_exact w w) by (unfold int64; nia).
      rewrite wrap64_small by lia. reflexivity.
Qed.

Lemma cosine_similarity_self_dot (v : list Z) :
  ~ Forall (fun x => x = 0) v -> dot v v * dot v v < 2 ^ 63 ->
  Forall int64 v /\ cosine_similarity v v = 1%float.
Proof.
  intros Hnz Hsq. pose proof (dot_self_pos v Hnz) as Hpos.
  assert (Hd : np_dot v v = dot v v) by (apply np_dot_exact; unfold int64; nia).
  split.
  - apply dot_self_int64. nia.
  - apply cosine_similarity_self_int64; rewrite Hd; assumption.
Qed.

(** ** Completeness of the item-based ranking *)

Lemma ranked_In_iff (increments : list (string * float)) (mine : list string)
      (include_current_interests : bool) (x : string) (w : float) :
  In (x, w)
     (let ranked := sorted_reverse snd PrimFloat.ltb (accumulate increments) in
      if include_current_interests
      then ranked
      else filter (fun p => negb (contains mine (fst p))) ranked) <->
  In (x, w) (accumulate increments) /\
  (include_current_interests = false -> ~ In x mine).
Proof.
  split; [apply ranked_In|]. cbv zeta. intros [Hin Hflag].
  destruct include_current_interests.
  - now apply sorted_reverse_In.
  - apply filter_In. split; [now apply sorted_reverse_In|]. cbn [fst].
    apply negb_true_iff, contains_not_In, Hflag. reflexivity.
Qed.

Lemma accumulate_In_iff (increments : list (string * float)) (x : string) (w : float) :
  In (x, w) (accumulate increments) <->
  In x (map fst increments) /\
  w = float_sum (map snd (filter (fun e => String.eqb (fst e) x) increments)).
Proof.
  split.
  - intros Hin. split; [|now apply accumulate_In].
    apply accumulate_keys. change x with (fst (x, w)). now apply in_map.
  - intros [Hk ->]. apply accumulate_keys, in_map_iff in Hk.
    destruct Hk as [[x' w'] [Hx Hin]]. cbn [fst] in Hx. subst x'.
    now rewrite <- (accumulate_In _ _ _ Hin).
Qed.

(** * The claims *)

(** C1.  For every valid user index [u], [get_similar_users u] returns
    exactly the pairs (other user, similarity) of the other users whose
    cosine similarity to [u] is greater than 0, in descending order of
    similarity with ties in ascending order of user index; [u] itself is
    never in the result. *)
Theorem get_similar_users_correct (users_interests : list (list string)) (u : Z) :
  0 <= u < Z.of_nat (length users_interests) ->
  exists similar,
    get_similar_users users_interests u = Ok similar /\
    (forall v s,
        In (v, s) similar <->
        0 <= v < Z.of_nat (length users_interests) /\ v <> u /\
        s = cosine_similarity (user_vector users_interests u)
                              (user_vector users_interests v) /\
        (0 <? s)%float = true) /\
    StronglySorted
      (fun a b => (snd b <? snd a)%float = true \/ (snd a = snd b /\ fst a < fst b))
      similar /\
    ~ In u (map fst similar).
Proof.
  intros Hu.
  destruct (get_similar_users_spec users_interests u Hu) as [similar [Heq [Hin Hs]]].
  exists similar. split; [exact Heq|]. split; [exact Hin|]. split; [exact Hs|].
  rewrite in_map_iff. intros [[v s] [Hv Hp]]. cbn in Hv. subst v.
  apply Hin in Hp. tauto.
Qed.

Lemma get_similar_users_correct_witness :
  exists similar,
    get_similar_users Notebook.users_interests 0 = Ok similar /\
    ~ In 0 (map fst similar).
Proof.
  destruct (get_similar_users_correct Notebook.users_interests 0)
    as [similar [Heq [_ [_ Hnot]]]].
  - cbn. lia.
  - exists similar. split; assumption.
Defined.

(** C2.  For every valid user index [u] of the notebook's table, every
    (interest, weight) pair that [user_based_suggestions u] returns, with
    either value of the flag, has as weight the running sum of the
    similarities of the users of [get_similar_users u] that hold the
    interest, and the pairs are in descending order of weight, ties in the
    order in which the interests are first met while scanning the similar
    users in descending order of similarity. *)
Theorem user_based_suggestions_weights (u : Z) (include_current_interests : bool) :
  0 <= u < Z.of_nat (length Notebook.users_interests) ->
  exists similar suggestions,
    get_similar_users Notebook.users_interests u = Ok similar /\
    user_based_suggestions Notebook.users_interests u include_current_interests
    = Ok suggestions /\
    (forall x w,
        In (x, w) suggestions ->
        w = float_sum
              (map snd
                   (filter (fun p => contains (interests_of Notebook.users_interests (fst p)) x)
                           similar))) /\
    StronglySorted
      (fun a b =>
         (snd b <? snd a)%float = true \/
         ((snd a =? snd b)%float = true /\
          (index_of (fst a)
                    (flat_map (fun p => interests_of Notebook.users_interests (fst p)) similar)
           < index_of (fst b)
                      (flat_map (fun p => interests_of Notebook.users_interests (fst p)) similar))%nat))
      suggestions.
Proof. apply user_based_weights, notebook_interests_distinct. Qed.

Lemma user_based_suggestions_weights_witness :
  exists similar suggestions,
    get_similar_users Notebook.users_interests 0 = Ok similar /\
    user_based_suggestions Notebook.users_interests 0 false = Ok suggestions /\
    forall x w,
      In (x, w) suggestions ->
      w = float_sum
            (map snd
                 (filter (fun p => contains (interests_of Notebook.users_interests (fst p)) x)
                         similar)).
Proof.
  destruct (user_based_suggestions_weights 0 false)
    as [similar [suggestions [Hsim [Heq [Hw _]]]]].
  - cbn. lia.
  - exists similar, suggestions. repeat split; assumption.
Defined.

(** C3.  For every valid user index [u], [item_based_suggestions u]
    accumulates, for each interest the user holds, the similarity of every
    other interest with positive similarity to it.  The result holds
    exactly the interests [i] with positive similarity to some held
    interest [j] other than [i] (with default filtering, only those the
    user does not hold), each once with as weight the running sum, over
    the held interests [j] other than [i] with positive similarity to [i],
    of that similarity, so an interest similar to two held interests
    receives both.  The pairs are in descending order of weight (ties in
    the order first met), and with default filtering none is an interest
    of the user. *)
Theorem item_based_suggestions_weights (users_interests : list (list string))
        (u : Z) (include_current_interests : bool) :
  0 <= u < Z.of_nat (length users_interests) ->
  exists suggestions,
    item_based_suggestions users_interests u include_current_interests
    = Ok suggestions /\
    (forall x w,
        In (x, w) suggestions <->
        (exists i,
            0 <= i < Z.of_nat (length (unique_interests users_interests)) /\
            x = interest_name users_interests i /\
            (exists j,
                0 <= j < Z.of_nat (length (unique_interests users_interests)) /\
                j <> i /\
                In (interest_name users_interests j) (interests_of users_interests u) /\
                (0 <? interest_similarity users_interests j i)%float = true) /\
            w = float_sum (item_contributions users_interests u i)) /\
        (include_current_interests = false ->
         ~ In x (interests_of users_interests u))) /\
    StronglySorted
      (fun a b =>
         (snd b <? snd a)%float = true \/
         ((snd a =? snd b)%float = true /\
          (index_of (fst a)
                    (map fst (item_based_increments users_interests
                                                    (user_vector users_interests u)))
           < index_of (fst b)
                      (map fst (item_based_increments users_interests
                                                      (user_vector users_interests u))))%nat))
      suggestions /\
    NoDup (map fst suggestions) /\
    (include_current_interests = false ->
     forall x w, In (x, w) suggestions -> ~ In x (interests_of users_interests u)).
Proof.
  intros Hu. eexists. split; [now apply item_based_ranked|]. split; [|split; [|split]].
  - intros x w. rewrite ranked_In_iff, accumulate_In_iff, item_based_increments_keys.
    split.
    + intros [[[j [i [Hj [Hi [Hheld [Hne [-> Hpos]]]]]]] ->] Hflag].
      split; [|exact Hflag]. exists i. split; [exact Hi|]. split; [reflexivity|].
      split; [exists j; auto|].
      now rewrite item_based_increments_of.
    + intros [[i [Hi [-> [[j [Hj [Hne [Hheld Hpos]]]] ->]]]] Hflag].
      split; [|exact Hflag]. split; [exists j, i; auto 10|].
      now rewrite item_based_increments_of.
  - apply ranked_sorted, item_based_increments_positive.
  - apply ranked_NoDup.
  - intros Hflag x w Hin. apply ranked_In in Hin. now apply Hin.
Qed.

Lemma item_based_suggestions_weights_witness :
  exists suggestions,
    item_based_suggestions Notebook.users_interests 0 false = Ok suggestions /\
    forall x w, In (x, w) suggestions ->
                ~ In x (interests_of Notebook.users_interests 0).
Proof.
  destruct (item_based_suggestions_weights Notebook.users_interests 0 false)
    as [suggestions [Heq [_ [_ [_ Hf]]]]].
  - cbn. lia.
  - exists suggestions. split; [exact Heq|]. now apply Hf.
Defined.

(** C4.  For every valid user index [u], with the flag left at its default
    neither [user_based_suggestions u] nor [item_based_suggestions u]
    returns an interest of [users_interests[u]]. *)
Theorem suggestions_exclude_current (users_interests : list (list string)) (u : Z) :
  0 <= u < Z.of_nat (length users_interests) ->
  exists mine user_based item_based,
    getitem users_interests u = Ok mine /\
    user_based_suggestions users_interests u false = Ok user_based /\
    item_based_suggestions users_interests u false = Ok item_based /\
    (forall x w, In (x, w) user_based -> ~ In x mine) /\
    (forall x w, In (x, w) item_based -> ~ In x mine).
Proof.
  intros Hu.
  destruct (user_based_ranked users_interests u false Hu) as [similar [_ Hub]].
  eexists _, _, _. split; [now apply getitem_interests_of|].
  split; [exact Hub|]. split; [now apply item_based_ranked|].
  split; intros x w Hin; apply (ranked_In _ _ false) in Hin; now apply Hin.
Qed.

Lemma suggestions_exclude_current_witness :
  exists mine user_based item_based,
    getitem Notebook.users_interests 0 = Ok mine /\
    user_based_suggestions Notebook.users_interests 0 false = Ok user_based /\
    item_based_suggestions Notebook.users_interests 0 false = Ok item_based /\
    (forall x w, In (x, w) user_based -> ~ In x mine) /\
    (forall x w, In (x, w) item_based -> ~ In x mine).
Proof.
  apply (suggestions_exclude_current Notebook.users_interests 0). cbn. lia.
Defined.

(** C5 (amended).  For every pair of equal-length vectors of integers in
    the 64-bit range, [cosine_similarity v w] has no guard for a zero
    norm: when either operand is all-zero it is 0/0, which is NaN and not
    the 0 of the description; and whenever the product of the two squared
    norms is below 2^63, so that nothing wraps around, it is the quotient
    of the dot product of [v] and [w] by the square root of the product of
    their squared norms, all three taken over the integers and each
    floating-point operation rounded to nearest. *)
Theorem cosine_similarity_unguarded (v w : list Z) :
  length v = length w -> Forall int64 v -> Forall int64 w ->
  (Forall (fun x => x = 0) v \/ Forall (fun x => x = 0) w ->
   cosine_similarity v w = nan /\
   (cosine_similarity v w =? 0)%float = false) /\
  (dot v v * dot w w < 2 ^ 63 ->
   cosine_similarity v w =
   (float_of_int (dot v w) / sqrt (float_of_int (dot v v * dot w w)))%float).
Proof.
  intros _ _ _. split.
  - intros H. rewrite (cosine_similarity_zero v w H). split; reflexivity.
  - apply cosine_similarity_exact.
Qed.

Lemma cosine_similarity_unguarded_witness :
  cosine_similarity [0; 0] [1; 0] = nan.
Proof.
  refine (proj1 (proj1 (cosine_similarity_unguarded [0; 0] [1; 0] eq_refl _ _) _)).
  - repeat (apply Forall_cons; [unfold int64; lia|]). apply Forall_nil.
  - repeat (apply Forall_cons; [unfold int64; lia|]). apply Forall_nil.
  - left. repeat (apply Forall_cons; [reflexivity|]). apply Forall_nil.
Defined.

(** C5 as stated fails: an all-zero operand gives NaN, which is not 0. *)
Lemma cosine_similarity_zero_vector_is_nan :
  cosine_similarity [0; 0] [1; 0] = nan /\
  PrimFloat.eqb (cosine_similarity [0; 0] [1; 0]) 0%float = false.
Proof. split; vm_compute; reflexivity. Qed.

(** C6 (amended).  Each of the four functions raises [IndexError] exactly
    when its index is at or above the length, or below minus the length, of
    the list it subscripts (the users for three of them, the interests for
    [get_similar_interests]); an index in [-len, 0) counts from the end and
    returns a result. *)
Theorem index_errors (users_interests : list (list string)) (i : Z)
        (include_current_interests : bool) :
  (get_similar_users users_interests i = IndexError <->
   i < - Z.of_nat (length users_interests) \/ Z.of_nat (length users_interests) <= i) /\
  (user_based_suggestions users_interests i include_current_interests = IndexError <->
   i < - Z.of_nat (length users_interests) \/ Z.of_nat (length users_interests) <= i) /\
  (item_based_suggestions users_interests i include_current_interests = IndexError <->
   i < - Z.of_nat (length users_interests) \/ Z.of_nat (length users_interests) <= i) /\
  (get_similar_interests users_interests i = IndexError <->
   i < - Z.of_nat (length (unique_interests users_interests)) \/
   Z.of_nat (length (unique_interests users_interests)) <= i).
Proof.
  split; [apply get_similar_users_error_iff|].
  split; [apply user_based_suggestions_error_iff|].
  split; [apply item_based_suggestions_error_iff|].
  apply get_similar_interests_error_iff.
Qed.

(** C6 as stated fails: [-1] is outside [0, 15) and [get_similar_users(-1)]
    returns the users similar to the last user, that user included. *)
Lemma get_similar_users_negative_index :
  get_similar_users Notebook.users_interests (-1) =
  Ok [(14, 1%float); (4, 0.5773502691896258%float); (3, 0.2581988897471611%float)].
Proof. vm_compute. reflexivity. Qed.

(** C7 (amended).  For every table and every user [u] in it, with default
    filtering [user_based_suggestions u] is non-empty exactly when some other
    user with positive similarity to [u] holds an interest that [u] does not,
    and [item_based_suggestions u] is non-empty exactly when some interest
    that [u] does not hold has positive similarity to one that [u] holds.
    In a table of at most 2^26 users and 2^26 distinct interests both lists
    are non-empty whenever [u] shares an interest with a user who also holds
    an interest that [u] does not. *)
Theorem suggestions_nonempty (users_interests : list (list string)) (u : Z) :
  0 <= u < Z.of_nat (length users_interests) ->
  exists user_based item_based,
    user_based_suggestions users_interests u false = Ok user_based /\
    item_based_suggestions users_interests u false = Ok item_based /\
    (user_based <> [] <->
     exists v x,
       0 <= v < Z.of_nat (length users_interests) /\ v <> u /\
       (0 <? cosine_similarity (user_vector users_interests u)
                               (user_vector users_interests v))%float = true /\
       In x (interests_of users_interests v) /\
       ~ In x (interests_of users_interests u)) /\
    (item_based <> [] <->
     exists j i,
       0 <= j < Z.of_nat (length (unique_interests users_interests)) /\
       0 <= i < Z.of_nat (length (unique_interests users_interests)) /\
       In (interest_name users_interests j) (interests_of users_interests u) /\
       ~ In (interest_name users_interests i) (interests_of users_interests u) /\
       (0 <? interest_similarity users_interests j i)%float = true) /\
    (Z.of_nat (length users_interests) <= 2 ^ 26 ->
     Z.of_nat (length (unique_interests users_interests)) <= 2 ^ 26 ->
     (exists v x y,
         0 <= v < Z.of_nat (length users_interests) /\
         In x (interests_of users_interests u) /\
         In x (interests_of users_interests v) /\
         In y (interests_of users_interests v) /\
         ~ In y (interests_of users_interests u)) ->
     user_based <> [] /\ item_based <> []).
Proof.
  intros Hu.
  destruct (get_similar_users_spec users_interests u Hu) as [similar [Hsim [Hin _]]].
  destruct (user_based_ranked users_interests u false Hu) as [similar' [Hsim' Hub]].
  assert (similar' = similar) by congruence. subst similar'.
  eexists _, _. split; [exact Hub|]. split; [now apply item_based_ranked|].
  cbv zeta. rewrite !ranked_nonempty.
  match goal with |- ?A /\ ?B /\ _ =>
    assert (HA : A); [|assert (HB : B); [|split; [exact HA|split; [exact HB|]]]] end.
  - split.
    + intros [x [Hx Hmine]]. apply user_based_increments_keys in Hx.
      destruct Hx as [[v s] [Hp Hx]]. apply Hin in Hp.
      destruct Hp as [Hv [Hne [-> Hs]]]. exists v, x. auto.
    + intros [v [x [Hv [Hne [Hs [Hx Hmine]]]]]]. exists x. split; [|exact Hmine].
      apply user_based_increments_keys.
      exists (v, cosine_similarity (user_vector users_interests u)
                                   (user_vector users_interests v)).
      split; [|exact Hx]. apply Hin. auto.
  - split.
    + intros [x [Hx Hmine]]. apply item_based_increments_keys in Hx.
      destruct Hx as [j [i [Hj [Hi [Hheld [_ [-> Hs]]]]]]]. exists j, i. auto.
    + intros [j [i [Hj [Hi [Hheld [Hmine Hs]]]]]].
      exists (interest_name users_interests i). split; [|exact Hmine].
      apply item_based_increments_keys. exists j, i.
      split; [exact Hj|]. split; [exact Hi|]. split; [exact Hheld|].
      split; [intros ->; contradiction|]. split; [reflexivity|exact Hs].
  - intros Hlen Hlen' [v [x [y [Hv [Hxu [Hxv [Hyv Hyu]]]]]]]. split.
    + apply HA. exists v, y. split; [exact Hv|].
      split; [intros ->; contradiction|].
      split; [now apply shared_interest_similarity with (x := x)|].
      split; assumption.
    + apply HB.
      destruct (interests_of_known users_interests u x Hu Hxu) as [j [Hj Hjx]].
      destruct (interests_of_known users_interests v y Hv Hyv) as [i [Hi Hiy]].
      exists j, i. split; [exact Hj|]. split; [exact Hi|].
      rewrite Hjx, Hiy. split; [exact Hxu|]. split; [exact Hyu|].
      apply common_holder_similarity with (v := v); try assumption.
      * now rewrite Hjx.
      * now rewrite Hiy.
Qed.

Lemma suggestions_nonempty_witness :
  exists user_based item_based,
    user_based_suggestions Notebook.users_interests 0 false = Ok user_based /\
    item_based_suggestions Notebook.users_interests 0 false = Ok item_based.
Proof.
  destruct (suggestions_nonempty Notebook.users_interests 0)
    as [user_based [item_based [Hu [Hi _]]]].
  - cbn. lia.
  - exists user_based, item_based. split; assumption.
Defined.

(** C7 as stated fails: two users with the same single interest share it,
    and both recommenders return the empty list for either of them. *)
Lemma shared_interest_empty_suggestions :
  In "a"%string (interests_of [["a"%string]; ["a"%string]] 0) /\
  In "a"%string (interests_of [["a"%string]; ["a"%string]] 1) /\
  user_based_suggestions [["a"%string]; ["a"%string]] 0 false = Ok [] /\
  item_based_suggestions [["a"%string]; ["a"%string]] 0 false = Ok [].
Proof.
  split; [now left|]. split; [now left|].
  split; vm_compute; reflexivity.
Qed.

(** C8 (amended).  For every non-zero integer vector [v] whose squared
    norm [d] has [d * d < 2 ^ 63] (so that the product under the square
    root does not overflow 64 bits; the entries of such a vector are well
    inside the 64-bit range), [cosine_similarity v v] is exactly 1; and
    every diagonal entry of the notebook's user-similarity and
    interest-similarity matrices is 1. *)
Theorem cosine_similarity_self :
  (forall v : list Z,
      ~ Forall (fun x => x = 0) v -> dot v v * dot v v < 2 ^ 63 ->
      Forall int64 v /\ cosine_similarity v v = 1%float) /\
  diagonal (user_similarities Notebook.users_interests) = repeat (Ok 1%float) 15 /\
  diagonal (interest_similarities Notebook.users_interests) = repeat (Ok 1%float) 36.
Proof.
  split; [exact cosine_similarity_self_dot|].
  split; vm_compute; reflexivity.
Qed.

Lemma cosine_similarity_self_witness :
  cosine_similarity [9742; 0; 1] [9742; 0; 1] = 1%float.
Proof.
  refine (proj2 (proj1 cosine_similarity_self [9742; 0; 1] _ _)).
  - intros H. inversion H as [|x l Hx Hl]. discriminate Hx.
  - vm_compute. reflexivity.
Defined.

(** C8 as stated fails: for the non-zero vector [[60000]] the 64-bit
    product [dot(v,v) * dot(v,v)] wraps around to a negative number, whose
    square root is NaN; and a user without interests has NaN on the
    diagonal. *)
Lemma cosine_similarity_self_overflow :
  np_dot [60000] [60000] = 3600000000 /\
  wrap64 (3600000000 * 3600000000) = -5486744073709551616 /\
  cosine_similarity [60000] [60000] = nan /\
  PrimFloat.eqb (cosine_similarity [60000] [60000]) 1%float = false /\
  diagonal (user_similarities [["a"%string]; []]) = [Ok 1%float; Ok nan].
Proof. repeat split; vm_compute; reflexivity. Qed.

(** C9.  In the notebook's table, users 0 and 9 share exactly the three
    interests Hadoop, Big Data and Java, out of 7 and 4; their similarity is
    the binary64 value of [3 / sqrt(7 * 4)], printed 0.5669467095138409. *)
Theorem similarity_of_users_0_and_9 :
  getitem2 (user_similarities Notebook.users_interests) 0 9
  = Ok 0.5669467095138409%float /\
  (3 / sqrt (7 * 4))%float = 0.5669467095138409%float /\
  (0.5669 <? 0.5669467095138409)%float = true /\
  (0.5669467095138409 <? 0.5670)%float = true /\
  filter (contains (interests_of Notebook.users_interests 9))
         (interests_of Notebook.users_interests 0)
  = ["Hadoop"; "Big Data"; "Java"]%string /\
  length (interests_of Notebook.users_interests 0) = 7%nat /\
  length (interests_of Notebook.users_interests 9) = 4%nat /\
  np_dot (user_vector Notebook.users_interests 0)
         (user_vector Notebook.users_interests 9) = 3.
Proof. repeat split; vm_compute; reflexivity. Qed.

(** C10 (amended).  For every interest list and every non-negative
    [max_results], [most_popular_new_interests] returns at most
    [max_results] pairs (interest, count); none of the interests is in
    [user_interests], each count is the number of occurrences of the
    interest over all users, and the counts are in non-increasing order. *)
Theorem most_popular_new_interests_correct (users_interests : list (list string))
        (user_interests : list string) (max_results : Z) :
  0 <= max_results ->
  Z.of_nat (length (most_popular_new_interests users_interests user_interests max_results))
  <= max_results /\
  (forall x c,
      In (x, c) (most_popular_new_interests users_interests user_interests max_results) ->
      ~ In x user_interests /\
      c = Z.of_nat (count_occ string_dec (concat users_interests) x)) /\
  StronglySorted (fun a b => snd b <= snd a)
    (most_popular_new_interests users_interests user_interests max_results).
Proof.
  intros Hk. split; [now apply slice_to_length|].
  split; [apply most_popular_new_interests_pairs|apply most_popular_new_interests_sorted].
Qed.

Lemma most_popular_new_interests_correct_witness :
  Z.of_nat (length (most_popular_new_interests Notebook.users_interests
                      ["NoSQL"; "MongoDB"; "Cassandra"; "HBase"; "Postgres"]%string 5))
  <= 5.
Proof.
  refine (proj1 (most_popular_new_interests_correct Notebook.users_interests _ 5 _)).
  discriminate.
Defined.

(** C10 as stated fails for a negative [max_results]: the slice [[:-1]]
    drops the last candidate only, so 35 pairs come back. *)
Lemma most_popular_new_interests_negative :
  Z.of_nat (length (most_popular_new_interests Notebook.users_interests [] (-1))) = 35 /\
  (35 <=? -1) = false.
Proof. split; vm_compute; reflexivity. Qed.

(** * Further properties *)

(** ** The notebook's printed outputs

    The embedding evaluates to what the notebook's cells print, float for
    float. *)

(** Cell 2: the five most popular interests. *)
Example notebook_popular_interests :
  firstn 5 (popular_interests Notebook.users_interests) =
  [("Python", 4); ("R", 4); ("Big Data", 3); ("HBase", 3); ("Java", 3)]%string.
Proof. vm_compute. reflexivity. Qed.

(** Cells 3 and 4: the popular new interests of users 1 and 3. *)
Example notebook_most_popular_new_interests :
  most_popular_new_interests Notebook.users_interests
    (interests_of Notebook.users_interests 1) 5 =
  [("Python", 4); ("R", 4); ("Big Data", 3); ("Java", 3); ("statistics", 3)]%string /\
  most_popular_new_interests Notebook.users_interests
    (interests_of Notebook.users_interests 3) 5 =
  [("Big Data", 3); ("HBase", 3); ("Java", 3); ("Hadoop", 2); ("Cassandra", 2)]%string.
Proof. split; vm_compute; reflexivity. Qed.

(** Cells 11 and 13: [user_similarities[0][8]] and [get_similar_users(0)]. *)
Example notebook_get_similar_users :
  getitem2 (user_similarities Notebook.users_interests) 0 8
  = Ok 0.1889822365046136%float /\
  get_similar_users Notebook.users_interests 0 =
  Ok [(9, 0.5669467095138409%float);
      (1, 0.3380617018914066%float);
      (8, 0.1889822365046136%float);
      (13, 0.1690308509457033%float);
      (5, 0.1543033499620919%float)].
Proof. split; vm_compute; reflexivity. Qed.

(** Cell 16: [user_based_suggestions(0)]. *)
Example notebook_user_based_suggestions :
  user_based_suggestions Notebook.users_interests 0 false =
  Ok [("MapReduce"%string, 0.5669467095138409%float);
      ("MongoDB"%string, 0.50709255283711%float);
      ("Postgres"%string, 0.50709255283711%float);
      ("NoSQL"%string, 0.3380617018914066%float);
      ("neural networks"%string, 0.1889822365046136%float);
      ("deep learning"%string, 0.1889822365046136%float);
      ("artificial intelligence"%string, 0.1889822365046136%float);
      ("databases"%string, 0.1690308509457033%float);
      ("MySQL"%string, 0.1690308509457033%float);
      ("Python"%string, 0.1543033499620919%float);
      ("R"%string, 0.1543033499620919%float);
      ("C++"%string, 0.1543033499620919%float);
      ("Haskell"%string, 0.1543033499620919%float);
      ("programming languages"%string, 0.1543033499620919%float)].
Proof. vm_compute. reflexivity. Qed.

(** Cell 20: [unique_interests[0]] and [get_similar_interests(0)]. *)
Example notebook_get_similar_interests :
  getitem (unique_interests Notebook.users_interests) 0 = Ok "Big Data"%string /\
  get_similar_interests Notebook.users_interests 0 =
  Ok [("Hadoop"%string, 0.8164965809277261%float);
      ("Java"%string, 0.6666666666666666%float);
      ("MapReduce"%string, 0.5773502691896258%float);
      ("Spark"%string, 0.5773502691896258%float);
      ("Storm"%string, 0.5773502691896258%float);
      ("Cassandra"%string, 0.4082482904638631%float);
      ("artificial intelligence"%string, 0.4082482904638631%float);
      ("deep learning"%string, 0.4082482904638631%float);
      ("neural networks"%string, 0.4082482904638631%float);
      ("HBase"%string, 0.3333333333333333%float)].
Proof. split; vm_compute; reflexivity. Qed.

(** Cell 22: [item_based_suggestions(0)]. *)
Example notebook_item_based_suggestions :
  item_based_suggestions Notebook.users_interests 0 false =
  Ok [("MapReduce"%string, 1.861807319565799%float);
      ("MongoDB"%string, 1.3164965809277263%float);
      ("Postgres"%string, 1.3164965809277263%float);
      ("NoSQL"%string, 1.2844570503761732%float);
      ("MySQL"%string, 0.5773502691896258%float);
      ("databases"%string, 0.5773502691896258%float);
      ("Haskell"%string, 0.5773502691896258%float);
      ("programming languages"%string, 0.5773502691896258%float);
      ("artificial intelligence"%string, 0.4082482904638631%float);
      ("deep learning"%string, 0.4082482904638631%float);
      ("neural networks"%string, 0.4082482904638631%float);
      ("C++"%string, 0.4082482904638631%float);
      ("Python"%string, 0.2886751345948129%float);
      ("R"%string, 0.2886751345948129%float)].
Proof. vm_compute. reflexivity. Qed.

(** A user who lists an interest twice contributes twice: the weight
    of "a" for user 0 is [0.0 + 1.0 + 1.0], not the similarity 1.0 of the
    one user who holds it. *)
Example repeated_interest_counts_twice :
  get_similar_users [["a"]; ["a"; "a"]]%string 0 = Ok [(1, 1%float)] /\
  user_based_suggestions [["a"]; ["a"; "a"]]%string 0 true = Ok [("a"%string, 2%float)].
Proof. split; vm_compute; reflexivity. Qed.

(** ** Contracts over every table *)

(** The membership vector of a user has one slot per interest, 1 where
    the user's list contains the interest and 0 elsewhere. *)
Theorem membership_vector (users_interests : list (list string))
        (user_interests : list string) (i : Z) :
  0 <= i < Z.of_nat (length (unique_interests users_interests)) ->
  length (generate_user_interest_vector users_interests user_interests)
  = length (unique_interests users_interests) /\
  getitem (generate_user_interest_vector users_interests user_interests) i =
  Ok (if contains user_interests (interest_name users_interests i) then 1 else 0).
Proof.
  intros Hi. unfold generate_user_interest_vector. split; [apply length_map|].
  destruct (getitem_in_range
              (map (fun interest => if contains user_interests interest then 1 else 0)
                   (unique_interests users_interests)) i) as [x [Hx ->]];
    [rewrite length_map; lia|].
  rewrite nth_error_map in Hx. unfold interest_name.
  destruct (nth_error (unique_interests users_interests) (Z.to_nat i)) as [s|] eqn:E;
    [|discriminate].
  rewrite (nth_error_nth _ _ EmptyString E). cbn in Hx. congruence.
Qed.

Lemma membership_vector_witness :
  getitem (generate_user_interest_vector Notebook.users_interests
             ["Hadoop"; "Java"]%string) 0 =
  Ok (if contains ["Hadoop"; "Java"]%string
                  (interest_name Notebook.users_interests 0) then 1 else 0).
Proof.
  refine (proj2 (membership_vector Notebook.users_interests _ 0 _)).
  vm_compute. split; [discriminate|reflexivity].
Defined.

(** X1.  [unique_interests] lists every interest of the table once, in
    strictly ascending order. *)
Theorem canonical_interest_order (users_interests : list (list string)) :
  (forall x, In x (unique_interests users_interests) <->
             exists l, In l users_interests /\ In x l) /\
  NoDup (unique_interests users_interests) /\
  StronglySorted (fun a b => String.ltb a b = true) (unique_interests users_interests).
Proof.
  split; [|split].
  - intros x. rewrite unique_interests_In, in_concat. reflexivity.
  - apply unique_interests_NoDup.
  - apply unique_interests_ascending.
Qed.

(** X2.  Cosine similarity is symmetric: for two vectors of one length
    with entries in the 64-bit range, [cosine_similarity v w] and
    [cosine_similarity w v] are the same binary64 value.  The program's
    [==] between the two is true exactly when that value is not NaN (a NaN
    compares unequal to itself). *)
Theorem cosine_similarity_sym (v w : list Z) :
  length v = length w -> Forall int64 v -> Forall int64 w ->
  cosine_similarity v w = cosine_similarity w v /\
  (cosine_similarity v w =? cosine_similarity w v)%float
  = negb (is_nan (cosine_similarity v w)).
Proof.
  intros _ _ _. rewrite <- (cosine_similarity_symmetric v w). split; [reflexivity|].
  unfold is_nan. now rewrite negb_involutive.
Qed.

Lemma cosine_similarity_sym_witness :
  cosine_similarity [1; 0; 1] [1; 1; 0] = cosine_similarity [1; 1; 0] [1; 0; 1].
Proof.
  refine (proj1 (cosine_similarity_sym [1; 0; 1] [1; 1; 0] eq_refl _ _)).
  - repeat (apply Forall_cons; [unfold int64; lia|]). apply Forall_nil.
  - repeat (apply Forall_cons; [unfold int64; lia|]). apply Forall_nil.
Defined.

(** X3.  For every table and every valid interest index [j],
    [get_similar_interests j] returns exactly the pairs (name, similarity)
    of the other interests with positive similarity to [j], in descending
    order of similarity, ties in canonical order. *)
Theorem get_similar_interests_correct (users_interests : list (list string)) (j : Z) :
  0 <= j < Z.of_nat (length (unique_interests users_interests)) ->
  exists similar,
    get_similar_interests users_interests j = Ok similar /\
    (forall x s,
        In (x, s) similar <->
        exists i,
          0 <= i < Z.of_nat (length (unique_interests users_interests)) /\ i <> j /\
          x = interest_name users_interests i /\
          s = interest_similarity users_interests j i /\ (0 <? s)%float = true) /\
    StronglySorted
      (fun a b =>
         (snd b <? snd a)%float = true \/
         (snd a = snd b /\
          (index_of (fst a) (unique_interests users_interests)
           < index_of (fst b) (unique_interests users_interests))%nat))
      similar.
Proof. apply get_similar_interests_spec. Qed.

Lemma get_similar_interests_correct_witness :
  exists similar,
    get_similar_interests [["a"; "b"]; ["b"; "c"]]%string 1 = Ok similar.
Proof.
  destruct (get_similar_interests_correct [["a"; "b"]; ["b"; "c"]]%string 1)
    as [similar [Heq _]].
  - vm_compute. split; [discriminate|reflexivity].
  - exists similar. exact Heq.
Defined.

(** X4.  For every table in which no user lists an interest twice, and
    every valid user, the weights and the order of [user_based_suggestions]
    are those of C2. *)
Theorem user_based_suggestions_weights_general (users_interests : list (list string))
        (u : Z) (include_current_interests : bool) :
  Forall (@NoDup string) users_interests ->
  0 <= u < Z.of_nat (length users_interests) ->
  exists similar suggestions,
    get_similar_users users_interests u = Ok similar /\
    user_based_suggestions users_interests u include_current_interests = Ok suggestions /\
    (forall x w,
        In (x, w) suggestions ->
        w = float_sum
              (map snd (filter (fun p => contains (interests_of users_interests (fst p)) x)
                               similar))) /\
    StronglySorted
      (fun a b =>
         (snd b <? snd a)%float = true \/
         ((snd a =? snd b)%float = true /\
          (index_of (fst a) (flat_map (fun p => interests_of users_interests (fst p)) similar)
           < index_of (fst b) (flat_map (fun p => interests_of users_interests (fst p)) similar))%nat))
      suggestions.
Proof. apply user_based_weights. Qed.

Lemma user_based_suggestions_weights_general_witness :
  exists similar suggestions,
    get_similar_users [["a"; "b"]; ["b"; "c"]]%string 0 = Ok similar /\
    user_based_suggestions [["a"; "b"]; ["b"; "c"]]%string 0 false = Ok suggestions.
Proof.
  destruct (user_based_suggestions_weights_general [["a"; "b"]; ["b"; "c"]]%string 0 false)
    as [similar [suggestions [Hs [Hu _]]]].
  - apply Forall_forall. intros l Hl. apply all_distinct_NoDup.
    destruct Hl as [<-|[<-|[]]]; reflexivity.
  - vm_compute. split; [discriminate|reflexivity].
  - exists similar, suggestions. split; assumption.
Defined.

(** X5.  In every table of at most 2^26 users, every diagonal entry of the
    interest-similarity matrix is 1. *)
Theorem interest_similarities_diagonal (users_interests : list (list string)) (j : Z) :
  Z.of_nat (length users_interests) <= 2 ^ 26 ->
  0 <= j < Z.of_nat (length (unique_interests users_interests)) ->
  getitem2 (interest_similarities users_interests) j j = Ok 1%float.
Proof.
  intros HN Hj. rewrite interest_similarities_entry by assumption.
  f_equal.
  destruct (binary_np_dot_self (interest_vector users_interests j)) as [Hpos Hsq].
  - now apply interest_vector_binary.
  - now apply interest_vector_holds.
  - rewrite interest_vector_entries, length_map by exact Hj. exact HN.
  - now apply cosine_similarity_self_exact.
Qed.

Lemma interest_similarities_diagonal_witness :
  getitem2 (interest_similarities [["a"; "b"]; ["b"; "c"]]%string) 1 1 = Ok 1%float.
Proof.
  apply interest_similarities_diagonal.
  - discriminate.
  - vm_compute. split; [discriminate|reflexivity].
Defined.

(** X6.  In every table of at most 2^26 interests, the diagonal entry of
    the user-similarity matrix is 1 for a user with at least one interest,
    and NaN for a user with none. *)
Theorem user_similarities_diagonal (users_interests : list (list string)) (u : Z) :
  Z.of_nat (length (unique_interests users_interests)) <= 2 ^ 26 ->
  0 <= u < Z.of_nat (length users_interests) ->
  getitem2 (user_similarities users_interests) u u =
  Ok (match interests_of users_interests u with
      | [] => nan
      | _ :: _ => 1%float
      end).
Proof.
  intros HM Hu. rewrite user_similarities_entry by assumption. f_equal.
  destruct (interests_of users_interests u) as [|x l] eqn:E.
  - apply cosine_similarity_zero. left. unfold user_vector. rewrite E.
    apply Forall_forall. intros z Hz. apply in_map_iff in Hz.
    now destruct Hz as [s [<- _]].
  - destruct (binary_np_dot_self (user_vector users_interests u)) as [Hpos Hsq].
    + apply generate_user_interest_vector_binary.
    + apply user_vector_holds; [exact Hu|]. rewrite E. discriminate.
    + unfold user_vector, generate_user_interest_vector. now rewrite length_map.
    + now apply cosine_similarity_self_exact.
Qed.

Lemma user_similarities_diagonal_witness :
  getitem2 (user_similarities [["a"]; []]%string) 1 1 = Ok nan.
Proof.
  refine (user_similarities_diagonal [["a"]; []]%string 1 _ _).
  - discriminate.
  - vm_compute. split; [discriminate|reflexivity].
Defined.

(** X7.  [popular_interests] lists every interest of the table once, with
    the number of times it is listed in the table, by descending count, and
    interests of equal count in the order they first appear in the table. *)
Theorem popular_interests_correct (users_interests : list (list string)) :
  NoDup (map fst (popular_interests users_interests)) /\
  (forall x c,
      In (x, c) (popular_interests users_interests) <->
      In x (concat users_interests) /\
      c = Z.of_nat (count_occ string_dec (concat users_interests) x)) /\
  StronglySorted
    (fun a b =>
       snd b < snd a \/
       (snd a = snd b /\
        (index_of (fst a) (concat users_interests)
         < index_of (fst b) (concat users_interests))%nat))
    (popular_interests users_interests).
Proof.
  split; [apply popular_interests_NoDup|]. split; [|apply popular_interests_ranked].
  intros x c. unfold popular_interests, most_common. rewrite sorted_reverse_In. split.
  - intros H. split; [|now apply Counter_In].
    apply Counter_keys. change x with (fst (x, c)). now apply in_map.
  - intros [Hx ->]. now apply Counter_complete.
Qed.

(** X8.  [most_popular_new_interests] returns as many pairs as asked for
    when the table has that many interests the user lacks, and all of them
    otherwise; a negative [max_results] drops that many from the end. *)
Theorem most_popular_new_interests_length (users_interests : list (list string))
        (user_interests : list string) (max_results : Z) :
  Z.of_nat (length (most_popular_new_interests users_interests user_interests max_results))
  = if max_results <? 0
    then Z.max 0 (Z.of_nat (length (filter (fun x => negb (contains user_interests x))
                                           (unique_interests users_interests)))
                  + max_results)
    else Z.min max_results
               (Z.of_nat (length (filter (fun x => negb (contains user_interests x))
                                         (unique_interests users_interests)))).
Proof.
  unfold most_popular_new_interests, slice_to.
  rewrite <- candidates_length.
  destruct (Z.ltb_spec max_results 0); rewrite length_firstn; lia.
Qed.

(** X9.  [unique_interests] depends only on which interests occur in the
    table: two tables with the same interests number them alike. *)
Theorem unique_interests_canonical (t t' : list (list string)) :
  (forall x, In x (concat t) <-> In x (concat t')) ->
  unique_interests t = unique_interests t'.
Proof.
  intros Hsame. apply ascending_same_elements; try apply unique_interests_ascending.
  intros x. now rewrite !unique_interests_In.
Qed.

Lemma unique_interests_canonical_witness :
  unique_interests [["b"; "a"]; ["a"]]%string = unique_interests [["a"]; ["b"]]%string.
Proof.
  apply unique_interests_canonical. intros x. cbn. tauto.
Defined.

(** X10.  The similarity of two users is the number of distinct interests
    they share, divided by the square root of the product of their numbers
    of distinct interests. *)
Theorem user_similarity_formula (users_interests : list (list string)) (u v : Z) :
  Z.of_nat (length (unique_interests users_interests)) < 2 ^ 31 ->
  0 <= u < Z.of_nat (length users_interests) ->
  0 <= v < Z.of_nat (length users_interests) ->
  getitem2 (user_similarities users_interests) u v =
  Ok (float_of_int
        (Z.of_nat (length (filter (contains (interests_of users_interests v))
                                  (set_of (interests_of users_interests u)))))
      / np_sqrt (Z.of_nat (length (set_of (interests_of users_interests u)))
                 * Z.of_nat (length (set_of (interests_of users_interests v)))))%float.
Proof.
  intros Hlen Hu Hv. rewrite user_similarities_entry by assumption.
  unfold cosine_similarity. rewrite !user_vectors_dot by lia.
  rewrite !set_of_length, shared_length;
    try apply unique_interests_NoDup; try apply interests_of_unique.
  pose proof (filter_length_le (contains (interests_of users_interests v))
                               (set_of (interests_of users_interests u))) as Hle.
  assert (Hb : forall w, Z.of_nat (length (set_of (interests_of users_interests w)))
                         < 2 ^ 31).
  { intros w. rewrite <- (set_of_length _ (unique_interests users_interests));
      [|apply unique_interests_NoDup|apply interests_of_unique].
    pose proof (filter_length_le
                  (fun x => contains (interests_of users_interests w) x
                            && contains (interests_of users_interests w) x)
                  (unique_interests users_interests)). lia. }
  pose proof (Hb u). pose proof (Hb v).
  rewrite wrap64_small; [reflexivity|].
  change (2 ^ 63) with (2 * (2 ^ 31 * 2 ^ 31)). nia.
Qed.

Lemma user_similarity_formula_witness :
  getitem2 (user_similarities Notebook.users_interests) 0 9 =
  Ok (float_of_int
        (Z.of_nat (length (filter (contains (interests_of Notebook.users_interests 9))
                                  (set_of (interests_of Notebook.users_interests 0)))))
      / np_sqrt (Z.of_nat (length (set_of (interests_of Notebook.users_interests 0)))
                 * Z.of_nat (length (set_of (interests_of Notebook.users_interests 9)))))%float.
Proof.
  refine (user_similarity_formula Notebook.users_interests 0 9 _ _ _).
  - vm_compute. reflexivity.
  - vm_compute. split; [discriminate|reflexivity].
  - vm_compute. split; [discriminate|reflexivity].
Defined.

(** X11.  The similarity of two interests is the number of users who list
    both, divided by the square root of the product of the numbers of users
    who list each. *)
Theorem interest_similarity_formula (users_interests : list (list string)) (j i : Z) :
  Z.of_nat (length users_interests) < 2 ^ 31 ->
  0 <= j < Z.of_nat (length (unique_interests users_interests)) ->
  0 <= i < Z.of_nat (length (unique_interests users_interests)) ->
  getitem2 (interest_similarities users_interests) j i =
  Ok (float_of_int
        (Z.of_nat (length (filter (fun l => contains l (interest_name users_interests j)
                                            && contains l (interest_name users_interests i))
                                  users_interests)))
      / np_sqrt (Z.of_nat (length (filter (fun l => contains l (interest_name users_interests j))
                                          users_interests))
                 * Z.of_nat (length (filter (fun l => contains l (interest_name users_interests i))
                                            users_interests))))%float.
Proof.
  intros Hlen Hj Hi. rewrite interest_similarities_entry by assumption.
  unfold interest_similarity, cosine_similarity.
  rewrite !interest_vectors_dot by (assumption || lia).
  assert (Hd : forall x, filter (fun l => contains l x && contains l x) users_interests
                         = filter (fun l => contains l x) users_interests).
  { intros x. apply filter_ext. intros l. apply andb_diag. }
  rewrite !Hd.
  pose proof (filter_length_le (fun l => contains l (interest_name users_interests j))
                               users_interests).
  pose proof (filter_length_le (fun l => contains l (interest_name users_interests i))
                               users_interests).
  rewrite wrap64_small; [reflexivity|].
  change (2 ^ 63) with (2 * (2 ^ 31 * 2 ^ 31)). nia.
Qed.

Lemma interest_similarity_formula_witness :
  exists s, getitem2 (interest_similarities [["a"; "b"]; ["b"]]%string) 0 1 = Ok s.
Proof.
  eexists. refine (interest_similarity_formula [["a"; "b"]; ["b"]]%string 0 1 _ _ _).
  - vm_compute. reflexivity.
  - vm_compute. split; [discriminate|reflexivity].
  - vm_compute. split; [discriminate|reflexivity].
Defined.

(** X12.  In a table of at most 2^26 distinct interests, [get_similar_users u]
    lists exactly the other users who share an interest with [u]. *)
Theorem similar_users_characterised (users_interests : list (list string)) (u : Z) :
  Z.of_nat (length (unique_interests users_interests)) <= 2 ^ 26 ->
  0 <= u < Z.of_nat (length users_interests) ->
  exists similar,
    get_similar_users users_interests u = Ok similar /\
    forall v,
      In v (map fst similar) <->
      0 <= v < Z.of_nat (length users_interests) /\ v <> u /\
      exists x, In x (interests_of users_interests u) /\
                In x (interests_of users_interests v).
Proof.
  intros Hlen Hu.
  destruct (get_similar_users_spec users_interests u Hu) as [similar [Hsim [Hin _]]].
  exists similar. split; [exact Hsim|]. intros v. rewrite in_map_iff. split.
  - intros [[v' s] [Heq Hp]]. cbn in Heq. subst v'. apply Hin in Hp.
    destruct Hp as [Hv [Hne [-> Hs]]]. split; [exact Hv|]. split; [exact Hne|].
    now apply similar_users_iff.
  - intros [Hv [Hne Hshare]].
    exists (v, cosine_similarity (user_vector users_interests u)
                                 (user_vector users_interests v)).
    split; [reflexivity|]. apply Hin.
    split; [exact Hv|]. split; [exact Hne|]. split; [reflexivity|].
    now apply similar_users_iff.
Qed.

Lemma similar_users_characterised_witness :
  exists similar, get_similar_users [["a"; "b"]; ["b"; "c"]]%string 0 = Ok similar.
Proof.
  destruct (similar_users_characterised [["a"; "b"]; ["b"; "c"]]%string 0)
    as [similar [Heq _]].
  - vm_compute. discriminate.
  - vm_compute. split; [discriminate|reflexivity].
  - exists similar. exact Heq.
Defined.

(** X13.  In a table of at most 2^26 users, [get_similar_interests j] lists
    exactly the other interests that some holder of interest [j] also holds. *)
Theorem similar_interests_characterised (users_interests : list (list string)) (j : Z) :
  Z.of_nat (length users_interests) <= 2 ^ 26 ->
  0 <= j < Z.of_nat (length (unique_interests users_interests)) ->
  exists similar,
    get_similar_interests users_interests j = Ok similar /\
    forall x,
      In x (map fst similar) <->
      x <> interest_name users_interests j /\
      exists v,
        0 <= v < Z.of_nat (length users_interests) /\
        In (interest_name users_interests j) (interests_of users_interests v) /\
        In x (interests_of users_interests v).
Proof.
  intros Hlen Hj.
  destruct (get_similar_interests_spec users_interests j Hj) as [similar [Hsim [Hin _]]].
  exists similar. split; [exact Hsim|]. intros x. rewrite in_map_iff. split.
  - intros [[x' s] [Heq Hp]]. cbn in Heq. subst x'. apply Hin in Hp.
    destruct Hp as [i [Hi [Hne [-> [-> Hs]]]]]. split.
    + intros Heq. apply Hne. now apply (interest_name_inj users_interests).
    + now apply similar_interests_iff.
  - intros [Hne [v [Hv [Hjv Hxv]]]].
    destruct (interests_of_known users_interests v x Hv Hxv) as [i [Hi Hix]].
    exists (x, interest_similarity users_interests j i).
    split; [reflexivity|]. apply Hin. exists i.
    split; [exact Hi|]. split; [congruence|]. split; [now symmetry|].
    split; [reflexivity|]. apply similar_interests_iff; try assumption.
    exists v. rewrite Hix. auto.
Qed.

Lemma similar_interests_characterised_witness :
  exists similar, get_similar_interests [["a"; "b"]; ["b"; "c"]]%string 1 = Ok similar.
Proof.
  destruct (similar_interests_characterised [["a"; "b"]; ["b"; "c"]]%string 1)
    as [similar [Heq _]].
  - vm_compute. discriminate.
  - vm_compute. split; [discriminate|reflexivity].
  - exists similar. exact Heq.
Defined.

(** X14.  In a table of at most 2^26 users and 2^26 distinct interests, with
    default filtering both recommenders suggest the same interests (with
    different weights): those the user lacks that are held by some user
    who shares an interest with them. *)
Theorem suggested_interests (users_interests : list (list string)) (u : Z) :
  Z.of_nat (length users_interests) <= 2 ^ 26 ->
  Z.of_nat (length (unique_interests users_interests)) <= 2 ^ 26 ->
  0 <= u < Z.of_nat (length users_interests) ->
  exists user_based item_based,
    user_based_suggestions users_interests u false = Ok user_based /\
    item_based_suggestions users_interests u false = Ok item_based /\
    forall x,
      (In x (map fst user_based) <-> In x (map fst item_based)) /\
      (In x (map fst user_based) <->
       ~ In x (interests_of users_interests u) /\
       exists v y,
         0 <= v < Z.of_nat (length users_interests) /\
         In y (interests_of users_interests u) /\
         In y (interests_of users_interests v) /\
         In x (interests_of users_interests v)).
Proof.
  intros HN HM Hu.
  destruct (get_similar_users_spec users_interests u Hu) as [similar [Hsim [Hin _]]].
  destruct (user_based_ranked users_interests u false Hu) as [similar' [Hsim' Hub]].
  assert (similar' = similar) by congruence. subst similar'.
  eexists _, _. split; [exact Hub|]. split; [now apply item_based_ranked|].
  cbv zeta. intros x. rewrite !ranked_keys.
  assert (HU : In x (map fst (user_based_increments users_interests similar)) /\
               ~ In x (interests_of users_interests u) <->
               ~ In x (interests_of users_interests u) /\
               exists v y,
                 0 <= v < Z.of_nat (length users_interests) /\
                 In y (interests_of users_interests u) /\
                 In y (interests_of users_interests v) /\
                 In x (interests_of users_interests v)).
  { rewrite user_based_increments_keys. split.
    - intros [[[v s] [Hp Hx]] Hmine]. split; [exact Hmine|].
      apply Hin in Hp. destruct Hp as [Hv [Hne [-> Hs]]].
      apply similar_users_iff in Hs; try assumption.
      destruct Hs as [y [Hyu Hyv]]. exists v, y. auto.
    - intros [Hmine [v [y [Hv [Hyu [Hyv Hxv]]]]]]. split; [|exact Hmine].
      exists (v, cosine_similarity (user_vector users_interests u)
                                   (user_vector users_interests v)).
      split; [|exact Hxv]. apply Hin.
      split; [exact Hv|]. split; [intros ->; contradiction|].
      split; [reflexivity|]. apply similar_users_iff; try assumption.
      now exists y. }
  assert (HI : In x (map fst (item_based_increments users_interests
                                (user_vector users_interests u))) /\
               ~ In x (interests_of users_interests u) <->
               ~ In x (interests_of users_interests u) /\
               exists v y,
                 0 <= v < Z.of_nat (length users_interests) /\
                 In y (interests_of users_interests u) /\
                 In y (interests_of users_interests v) /\
                 In x (interests_of users_interests v)).
  { rewrite item_based_increments_keys. split.
    - intros [[j [i [Hj [Hi [Hheld [Hne [-> Hs]]]]]]] Hmine]. split; [exact Hmine|].
      apply similar_interests_iff in Hs; try assumption.
      destruct Hs as [v [Hv [Hjv Hiv]]].
      exists v, (interest_name users_interests j). auto.
    - intros [Hmine [v [y [Hv [Hyu [Hyv Hxv]]]]]]. split; [|exact Hmine].
      destruct (interests_of_known users_interests u y Hu Hyu) as [j [Hj Hjy]].
      destruct (interests_of_known users_interests v x Hv Hxv) as [i [Hi Hix]].
      exists j, i. split; [exact Hj|]. split; [exact Hi|].
      rewrite Hjy. split; [exact Hyu|].
      split; [intros ->; apply Hmine; congruence|]. split; [now symmetry|].
      apply similar_interests_iff; try assumption.
      exists v. rewrite Hjy, Hix. auto. }
  split; [|exact HU]. rewrite HU, HI. reflexivity.
Qed.

Lemma suggested_interests_witness :
  exists user_based item_based,
    user_based_suggestions Notebook.users_interests 0 false = Ok user_based /\
    item_based_suggestions Notebook.users_interests 0 false = Ok item_based /\
    forall x, In x (map fst user_based) <-> In x (map fst item_based).
Proof.
  destruct (suggested_interests Notebook.users_interests 0)
    as [user_based [item_based [Hu [Hi H]]]].
  - vm_compute. discriminate.
  - vm_compute. discriminate.
  - vm_compute. split; [discriminate|reflexivity].
  - exists user_based, item_based. split; [exact Hu|]. split; [exact Hi|].
    intros x. exact (proj1 (H x)).
Defined.

(** X15.  No list the four ranking functions return names a user or an
    interest twice. *)
Theorem results_without_duplicates (users_interests : list (list string))
        (u j : Z) (include_current_interests : bool) :
  0 <= u < Z.of_nat (length users_interests) ->
  0 <= j < Z.of_nat (length (unique_interests users_interests)) ->
  exists near_users near_interests user_based item_based,
    get_similar_users users_interests u = Ok near_users /\
    get_similar_interests users_interests j = Ok near_interests /\
    user_based_suggestions users_interests u include_current_interests = Ok user_based /\
    item_based_suggestions users_interests u include_current_interests = Ok item_based /\
    NoDup (map fst near_users) /\ NoDup (map fst near_interests) /\
    NoDup (map fst user_based) /\ NoDup (map fst item_based).
Proof.
  intros Hu Hj.
  destruct (user_based_ranked users_interests u include_current_interests Hu)
    as [similar [Hsim Hub]].
  pose proof (get_similar_interests_total users_interests j) as Hgsi.
  eexists similar, _, _, _.
  split; [exact Hsim|]. split; [apply Hgsi; lia|]. split; [exact Hub|].
  split; [now apply item_based_ranked|].
  split; [exact (get_similar_users_NoDup users_interests u similar Hsim)|].
  split; [apply similar_interests_NoDup|].
  split; apply ranked_NoDup.
Qed.

Lemma results_without_duplicates_witness :
  exists near_users, get_similar_users [["a"; "b"]; ["b"; "c"]]%string 0 = Ok near_users.
Proof.
  destruct (results_without_duplicates [["a"; "b"]; ["b"; "c"]]%string 0 0 false)
    as [su [si [ub [ib [H _]]]]].
  - vm_compute. split; [discriminate|reflexivity].
  - vm_compute. split; [discriminate|reflexivity].
  - exists su. exact H.
Defined.

(** X16.  The default result of either recommender is its result with
    [include_current_interests=True] without the pairs of the user's own
    interests, in the same order and with the same weights. *)
Theorem include_current_interests_filter (users_interests : list (list string)) (u : Z) :
  0 <= u < Z.of_nat (length users_interests) ->
  exists user_based item_based,
    user_based_suggestions users_interests u true = Ok user_based /\
    item_based_suggestions users_interests u true = Ok item_based /\
    user_based_suggestions users_interests u false =
    Ok (filter (fun p => negb (contains (interests_of users_interests u) (fst p)))
               user_based) /\
    item_based_suggestions users_interests u false =
    Ok (filter (fun p => negb (contains (interests_of users_interests u) (fst p)))
               item_based).
Proof.
  intros Hu.
  destruct (user_based_ranked users_interests u true Hu) as [similar [Hsim Hub]].
  destruct (user_based_ranked users_interests u false Hu) as [similar' [Hsim' Hub']].
  assert (similar' = similar) by congruence. subst similar'.
  eexists _, _. split; [exact Hub|]. split; [now apply item_based_ranked|].
  split; [exact Hub'|]. now apply item_based_ranked.
Qed.

Lemma include_current_interests_filter_witness :
  exists user_based,
    user_based_suggestions [["a"; "b"]; ["b"; "c"]]%string 0 true = Ok user_based.
Proof.
  destruct (include_current_interests_filter [["a"; "b"]; ["b"; "c"]]%string 0)
    as [ub [ib [H _]]].
  - vm_compute. split; [discriminate|reflexivity].
  - exists ub. exact H.
Defined.

(** X17.  A user who lists no interest has no similar users and gets no
    suggestion from either recommender, whatever the flag. *)
Theorem no_interests_no_suggestions (users_interests : list (list string)) (u : Z)
        (include_current_interests : bool) :
  0 <= u < Z.of_nat (length users_interests) ->
  interests_of users_interests u = [] ->
  get_similar_users users_interests u = Ok [] /\
  user_based_suggestions users_interests u include_current_interests = Ok [] /\
  item_based_suggestions users_interests u include_current_interests = Ok [].
Proof.
  intros Hu Hnone.
  destruct (get_similar_users_spec users_interests u Hu) as [similar [Hsim [Hin _]]].
  assert (similar = []).
  { apply no_keys_nil. intros v Hv. apply in_map_iff in Hv.
    destruct Hv as [[v' s] [_ Hp]]. apply Hin in Hp.
    destruct Hp as [_ [_ [-> Hs]]].
    rewrite cosine_similarity_zero in Hs; [discriminate|].
    left. unfold user_vector. rewrite Hnone.
    apply Forall_forall. intros z Hz. apply in_map_iff in Hz.
    now destruct Hz as [x [<- _]]. }
  subst similar. split; [exact Hsim|]. split.
  - destruct (user_based_ranked users_interests u include_current_interests Hu)
      as [similar [Hsim' ->]].
    assert (similar = []) by congruence. subst similar.
    now destruct include_current_interests.
  - rewrite item_based_ranked by exact Hu.
    assert (Hnil : item_based_increments users_interests (user_vector users_interests u)
                   = []).
    { apply no_keys_nil. intros x Hx. apply item_based_increments_keys in Hx.
      destruct Hx as [j [i [_ [_ [Hheld _]]]]]. now rewrite Hnone in Hheld. }
    rewrite Hnil. now destruct include_current_interests.
Qed.

Lemma no_interests_no_suggestions_witness :
  get_similar_users [["a"]; []; ["a"]]%string 1 = Ok [] /\
  user_based_suggestions [["a"]; []; ["a"]]%string 1 false = Ok [] /\
  item_based_suggestions [["a"]; []; ["a"]]%string 1 false = Ok [].
Proof.
  apply no_interests_no_suggestions.
  - vm_compute. split; [discriminate|reflexivity].
  - reflexivity.
Defined.

(** X18.  Similarity is mutual: [v] is in [get_similar_users u] with
    similarity [s] exactly when [u] is in [get_similar_users v] with [s]. *)
Theorem similar_users_symmetric (users_interests : list (list string)) (u v : Z)
        (s : float) :
  0 <= u < Z.of_nat (length users_interests) ->
  0 <= v < Z.of_nat (length users_interests) ->
  exists similar_u similar_v,
    get_similar_users users_interests u = Ok similar_u /\
    get_similar_users users_interests v = Ok similar_v /\
    (In (v, s) similar_u <-> In (u, s) similar_v).
Proof.
  intros Hu Hv.
  destruct (get_similar_users_spec users_interests u Hu) as [su [Hsu [Hinu _]]].
  destruct (get_similar_users_spec users_interests v Hv) as [sv [Hsv [Hinv _]]].
  exists su, sv. split; [exact Hsu|]. split; [exact Hsv|].
  rewrite Hinu, Hinv.
  rewrite (cosine_similarity_symmetric (user_vector users_interests v)).
  intuition congruence.
Qed.

Lemma similar_users_symmetric_witness :
  exists similar_u similar_v,
    get_similar_users [["a"; "b"]; ["b"; "c"]]%string 0 = Ok similar_u /\
    get_similar_users [["a"; "b"]; ["b"; "c"]]%string 1 = Ok similar_v.
Proof.
  destruct (similar_users_symmetric [["a"; "b"]; ["b"; "c"]]%string 0 1 0.5%float)
    as [su [sv [H1 [H2 _]]]].
  - vm_compute. split; [discriminate|reflexivity].
  - vm_compute. split; [discriminate|reflexivity].
  - exists su, sv. split; assumption.
Defined.

(** X19.  Likewise for interests: interest [i] is in
    [get_similar_interests j] with similarity [s] exactly when interest [j]
    is in [get_similar_interests i] with [s]. *)
Theorem similar_interests_symmetric (users_interests : list (list string)) (j i : Z)
        (s : float) :
  0 <= j < Z.of_nat (length (unique_interests users_interests)) ->
  0 <= i < Z.of_nat (length (unique_interests users_interests)) ->
  exists similar_j similar_i,
    get_similar_interests users_interests j = Ok similar_j /\
    get_similar_interests users_interests i = Ok similar_i /\
    (In (interest_name users_interests i, s) similar_j <->
     In (interest_name users_interests j, s) similar_i).
Proof.
  intros Hj Hi.
  destruct (get_similar_interests_spec users_interests j Hj) as [sj [Hsj [Hinj _]]].
  destruct (get_similar_interests_spec users_interests i Hi) as [si [Hsi [Hini _]]].
  exists sj, si. split; [exact Hsj|]. split; [exact Hsi|].
  rewrite Hinj, Hini. unfold interest_similarity. split.
  - intros [i' [Hi' [Hne [Heq [-> Hs]]]]].
    apply (interest_name_inj users_interests) in Heq; try assumption. subst i'.
    exists j. split; [exact Hj|]. split; [congruence|]. split; [reflexivity|].
    rewrite (cosine_similarity_symmetric (interest_vector users_interests i)).
    split; [reflexivity|exact Hs].
  - intros [j' [Hj' [Hne [Heq [-> Hs]]]]].
    apply (interest_name_inj users_interests) in Heq; try assumption. subst j'.
    exists i. split; [exact Hi|]. split; [congruence|]. split; [reflexivity|].
    rewrite (cosine_similarity_symmetric (interest_vector users_interests j)).
    split; [reflexivity|exact Hs].
Qed.

Lemma similar_interests_symmetric_witness :
  exists similar_j similar_i,
    get_similar_interests [["a"; "b"]; ["b"; "c"]]%string 0 = Ok similar_j /\
    get_similar_interests [["a"; "b"]; ["b"; "c"]]%string 1 = Ok similar_i.
Proof.
  destruct (similar_interests_symmetric [["a"; "b"]; ["b"; "c"]]%string 0 1 0.5%float)
    as [sj [si [H1 [H2 _]]]].
  - vm_compute. split; [discriminate|reflexivity].
  - vm_compute. split; [discriminate|reflexivity].
  - exists sj, si. split; assumption.
Defined.

(** X20.  [interest_user_matrix] is the transpose of [user_interest_matrix]:
    entry [j][u] of the one is entry [u][j] of the other, 1 when user [u]
    lists interest [j] and 0 otherwise. *)
Theorem interest_user_matrix_transpose (users_interests : list (list string)) (u j : Z) :
  0 <= u < Z.of_nat (length users_interests) ->
  0 <= j < Z.of_nat (length (unique_interests users_interests)) ->
  getitem2 (interest_user_matrix users_interests) j u =
  getitem2 (user_interest_matrix users_interests) u j /\
  getitem2 (user_interest_matrix users_interests) u j =
  Ok (if contains (interests_of users_interests u) (interest_name users_interests j)
      then 1 else 0).
Proof.
  intros Hu Hj.
  rewrite interest_user_matrix_entry, user_interest_matrix_entry by assumption.
  split; reflexivity.
Qed.

Lemma interest_user_matrix_transpose_witness :
  getitem2 (interest_user_matrix Notebook.users_interests) 3 1 =
  getitem2 (user_interest_matrix Notebook.users_interests) 1 3.
Proof.
  refine (proj1 (interest_user_matrix_transpose Notebook.users_interests 1 3 _ _)).
  - vm_compute. split; [discriminate|reflexivity].
  - vm_compute. split; [discriminate|reflexivity].
Defined.

(** X21.  A negative user index [i >= -N] is read from the end:
    [get_similar_users i] ranks the users similar to user [N + i], and,
    because no user index equals [i], that user too, with similarity 1 when
    they list an interest. *)
Theorem get_similar_users_from_end (users_interests : list (list string)) (i : Z) :
  - Z.of_nat (length users_interests) <= i < 0 ->
  exists similar,
    get_similar_users users_interests i = Ok similar /\
    (forall v s,
        In (v, s) similar <->
        0 <= v < Z.of_nat (length users_interests) /\
        s = cosine_similarity
              (user_vector users_interests (Z.of_nat (length users_interests) + i))
              (user_vector users_interests v) /\
        (0 <? s)%float = true) /\
    (Z.of_nat (length (unique_interests users_interests)) <= 2 ^ 26 ->
     interests_of users_interests (Z.of_nat (length users_interests) + i) <> [] ->
     In (Z.of_nat (length users_interests) + i, 1%float) similar).
Proof.
  intros Hi. eexists. split; [now apply get_similar_users_negative|].
  assert (Hin : forall v s,
             In (v, s)
                (sorted_reverse snd PrimFloat.ltb
                   (filter (fun p => negb (i =? fst p) && (0 <? snd p)%float)
                      (enumerate
                         (map (cosine_similarity
                                 (user_vector users_interests
                                    (Z.of_nat (length users_interests) + i)))
                              (user_interest_matrix users_interests))))) <->
             0 <= v < Z.of_nat (length users_interests) /\
             s = cosine_similarity
                   (user_vector users_interests (Z.of_nat (length users_interests) + i))
                   (user_vector users_interests v) /\
             (0 <? s)%float = true).
  { intros v s. rewrite sorted_reverse_In, filter_In, similarity_row_entry. cbn.
    rewrite andb_true_iff, negb_true_iff, Z.eqb_neq. split; [tauto|].
    intros [Hv [Hs Hpos]]. split; [tauto|]. split; [lia|exact Hpos]. }
  split; [exact Hin|].
  intros HM Hne. apply Hin. split; [lia|].
  destruct (binary_np_dot_self
              (user_vector users_interests (Z.of_nat (length users_interests) + i)))
    as [Hpos Hsq].
  - apply generate_user_interest_vector_binary.
  - apply user_vector_holds; [lia|exact Hne].
  - unfold user_vector, generate_user_interest_vector. now rewrite length_map.
  - rewrite cosine_similarity_self_exact by assumption. split; reflexivity.
Qed.

Lemma get_similar_users_from_end_witness :
  exists similar, get_similar_users Notebook.users_interests (-1) = Ok similar.
Proof.
  destruct (get_similar_users_from_end Notebook.users_interests (-1)) as [similar [H _]].
  - vm_compute. split; discriminate || reflexivity.
  - exists similar. exact H.
Defined.

(** X22.  For every table, the weight [user_based_suggestions] gives an
    interest is the running sum of the similarities of the similar users,
    each added once per time that user lists the interest. *)
Theorem user_based_suggestions_weights_repeated (users_interests : list (list string))
        (u : Z) (include_current_interests : bool) :
  0 <= u < Z.of_nat (length users_interests) ->
  exists similar suggestions,
    get_similar_users users_interests u = Ok similar /\
    user_based_suggestions users_interests u include_current_interests = Ok suggestions /\
    forall x w,
      In (x, w) suggestions ->
      w = float_sum
            (flat_map
               (fun p => repeat (snd p)
                           (count_occ string_dec (interests_of users_interests (fst p)) x))
               similar).
Proof.
  intros Hu.
  destruct (user_based_ranked users_interests u include_current_interests Hu)
    as [similar [Hsim Heq]].
  eexists similar, _. split; [exact Hsim|]. split; [exact Heq|].
  intros x w Hin. apply ranked_In in Hin. destruct Hin as [Hin _].
  apply accumulate_In in Hin. now rewrite user_based_increments_repeated in Hin.
Qed.

Lemma user_based_suggestions_weights_repeated_witness :
  exists similar suggestions,
    get_similar_users [["a"]; ["a"; "a"]]%string 0 = Ok similar /\
    user_based_suggestions [["a"]; ["a"; "a"]]%string 0 true = Ok suggestions.
Proof.
  destruct (user_based_suggestions_weights_repeated [["a"]; ["a"; "a"]]%string 0 true)
    as [similar [suggestions [Hs [Hu _]]]].
  - vm_compute. split; [discriminate|reflexivity].
  - exists similar, suggestions. split; assumption.
Defined.

(** X23.  Every weight either recommender returns is a positive float:
    never zero, negative or NaN. *)
Theorem suggestion_weights_positive (users_interests : list (list string)) (u : Z)
        (include_current_interests : bool) :
  0 <= u < Z.of_nat (length users_interests) ->
  exists user_based item_based,
    user_based_suggestions users_interests u include_current_interests = Ok user_based /\
    item_based_suggestions users_interests u include_current_interests = Ok item_based /\
    Forall (fun p => (0 <? snd p)%float = true) user_based /\
    Forall (fun p => (0 <? snd p)%float = true) item_based.
Proof.
  intros Hu.
  destruct (user_based_ranked users_interests u include_current_interests Hu)
    as [similar [Hsim Hub]].
  eexists _, _. split; [exact Hub|]. split; [now apply item_based_ranked|].
  split; apply Forall_forall; intros [x w] Hin; apply ranked_In in Hin;
    destruct Hin as [Hin _]; cbn [snd]; revert Hin; apply accumulate_positive.
  - now apply user_based_increments_positive with (i := u).
  - apply item_based_increments_positive.
Qed.

Lemma suggestion_weights_positive_witness :
  exists user_based item_based,
    user_based_suggestions [["a"; "b"]; ["b"; "c"]]%string 0 false = Ok user_based /\
    item_based_suggestions [["a"; "b"]; ["b"; "c"]]%string 0 false = Ok item_based.
Proof.
  destruct (suggestion_weights_positive [["a"; "b"]; ["b"; "c"]]%string 0 false)
    as [ub [ib [H1 [H2 _]]]].
  - vm_compute. split; [discriminate|reflexivity].
  - exists ub, ib. split; assumption.
Defined.

(** X24.  [item_based_suggestions] reads a negative user index [i >= -N] as
    user [N + i] throughout, and returns what it returns for that user. *)
Theorem item_based_suggestions_from_end (users_interests : list (list string)) (i : Z)
        (include_current_interests : bool) :
  - Z.of_nat (length users_interests) <= i < 0 ->
  exists suggestions,
    item_based_suggestions users_interests
      (Z.of_nat (length users_interests) + i) include_current_interests = Ok suggestions /\
    item_based_suggestions users_interests i include_current_interests = Ok suggestions.
Proof.
  intros Hi.
  assert (Hu : 0 <= Z.of_nat (length users_interests) + i
               < Z.of_nat (length users_interests)) by lia.
  eexists. split; [now apply item_based_ranked|].
  apply item_based_suggestions_eq.
  - rewrite getitem_negative by (rewrite user_interest_matrix_length; exact Hi).
    rewrite user_interest_matrix_length, Z.add_comm.
    destruct (getitem_total (user_interest_matrix users_interests)
                            (Z.of_nat (length users_interests) + i)) as [vec Hvec];
      [rewrite user_interest_matrix_length; lia|].
    destruct (getitem_user_vector _ _ _ Hvec) as [_ Hv].
    rewrite Hvec. f_equal. apply Hv. lia.
  - rewrite getitem_negative by exact Hi. rewrite Z.add_comm.
    now apply getitem_interests_of.
Qed.

Lemma item_based_suggestions_from_end_witness :
  exists suggestions,
    item_based_suggestions Notebook.users_interests 14 false = Ok suggestions /\
    item_based_suggestions Notebook.users_interests (-1) false = Ok suggestions.
Proof.
  refine (item_based_suggestions_from_end Notebook.users_interests (-1) false _).
  vm_compute. split; discriminate || reflexivity.
Defined.

(** X25.  In a table of at most 2^26 distinct interests the similarity of
    two users is NaN when one of them lists no interest, exactly 0 when both
    list some but share none, and otherwise greater than 0 and at most 1. *)
Theorem user_similarity_range (users_interests : list (list string)) (u v : Z) :
  Z.of_nat (length (unique_interests users_interests)) <= 2 ^ 26 ->
  0 <= u < Z.of_nat (length users_interests) ->
  0 <= v < Z.of_nat (length users_interests) ->
  exists s,
    getitem2 (user_similarities users_interests) u v = Ok s /\
    (interests_of users_interests u = [] \/ interests_of users_interests v = [] ->
     s = nan) /\
    (interests_of users_interests u <> [] -> interests_of users_interests v <> [] ->
     (forall x, In x (interests_of users_interests u) ->
                ~ In x (interests_of users_interests v)) ->
     s = 0%float) /\
    ((exists x, In x (interests_of users_interests u) /\
                In x (interests_of users_interests v)) ->
     (0 <? s)%float = true /\ (s <=? 1)%float = true).
Proof.
  intros HM Hu Hv. eexists. split; [now apply user_similarities_entry|].
  destruct (membership_cosine_range (contains (interests_of users_interests u))
                                    (contains (interests_of users_interests v))
                                    (unique_interests users_interests) HM)
    as [Hnan [Hzero Hpos]].
  assert (Hsome : forall w, interests_of users_interests w <> [] ->
                            exists x, In x (unique_interests users_interests) /\
                                      contains (interests_of users_interests w) x = true).
  { intros w Hw. destruct (interests_of users_interests w) as [|x l] eqn:E;
      [contradiction|].
    exists x. split.
    - apply (interests_of_unique users_interests w). rewrite E. now left.
    - apply contains_In. now left. }
  split; [|split].
  - intros [H|H]; apply Hnan; [left|right]; intros x _; now rewrite H.
  - intros Hnu Hnv Hdis. apply Hzero; [now apply Hsome|now apply Hsome|].
    intros x _. destruct (contains (interests_of users_interests u) x) eqn:Eu;
      [|reflexivity].
    apply contains_In, Hdis, contains_not_In in Eu. now rewrite Eu.
  - intros [x [Hxu Hxv]]. apply Hpos. exists x. split.
    + now apply (interests_of_unique users_interests u).
    + apply contains_In in Hxu, Hxv. now rewrite Hxu, Hxv.
Qed.

Lemma user_similarity_range_witness :
  exists s, getitem2 (user_similarities [["a"]; []; ["b"]]%string) 0 2 = Ok s.
Proof.
  destruct (user_similarity_range [["a"]; []; ["b"]]%string 0 2) as [s [H _]].
  - vm_compute. discriminate.
  - vm_compute. split; [discriminate|reflexivity].
  - vm_compute. split; [discriminate|reflexivity].
  - exists s. exact H.
Defined.

(** X26.  In a table of at most 2^26 users the similarity of two interests
    is exactly 0 when no user lists both, and otherwise greater than 0 and
    at most 1; it is never NaN. *)
Theorem interest_similarity_range (users_interests : list (list string)) (j i : Z) :
  Z.of_nat (length users_interests) <= 2 ^ 26 ->
  0 <= j < Z.of_nat (length (unique_interests users_interests)) ->
  0 <= i < Z.of_nat (length (unique_interests users_interests)) ->
  exists s,
    getitem2 (interest_similarities users_interests) j i = Ok s /\
    ((forall l, In l users_interests ->
                In (interest_name users_interests j) l ->
                ~ In (interest_name users_interests i) l) ->
     s = 0%float) /\
    ((exists l, In l users_interests /\
                In (interest_name users_interests j) l /\
                In (interest_name users_interests i) l) ->
     (0 <? s)%float = true /\ (s <=? 1)%float = true).
Proof.
  intros HN Hj Hi. eexists. split; [now apply interest_similarities_entry|].
  unfold interest_similarity. rewrite !interest_vector_entries by assumption.
  destruct (membership_cosine_range
              (fun l => contains l (interest_name users_interests j))
              (fun l => contains l (interest_name users_interests i))
              users_interests HN)
    as [_ [Hzero Hpos]].
  assert (Hheld : forall k, 0 <= k < Z.of_nat (length (unique_interests users_interests)) ->
                            exists l, In l users_interests /\
                                      contains l (interest_name users_interests k) = true).
  { intros k Hk.
    assert (Hin : In (interest_name users_interests k) (concat users_interests))
      by (apply unique_interests_In, nth_In; lia).
    apply in_concat in Hin. destruct Hin as [l [Hl Hx]].
    exists l. split; [exact Hl|now apply contains_In]. }
  split.
  - intros Hdis. apply Hzero; [now apply Hheld|now apply Hheld|].
    intros l Hl. destruct (contains l (interest_name users_interests j)) eqn:Ej;
      [|reflexivity].
    apply contains_In in Ej. apply (Hdis l Hl), contains_not_In in Ej. now rewrite Ej.
  - intros [l [Hl [Hjl Hil]]]. apply Hpos. exists l. split; [exact Hl|].
    apply contains_In in Hjl, Hil. now rewrite Hjl, Hil.
Qed.

Lemma interest_similarity_range_witness :
  exists s, getitem2 (interest_similarities [["a"; "b"]; ["c"]]%string) 0 2 = Ok s.
Proof.
  destruct (interest_similarity_range [["a"; "b"]; ["c"]]%string 0 2) as [s [H _]].
  - vm_compute. discriminate.
  - vm_compute. split; [discriminate|reflexivity].
  - vm_compute. split; [discriminate|reflexivity].
  - exists s. exact H.
Defined.

(** X27.  With default filtering [user_based_suggestions] returns for a
    negative user index [i >= -N] exactly what it returns for user [N + i]:
    the user is then ranked among their own similar users, but adds weight
    only to their own interests, which the filter removes. *)
Theorem user_based_suggestions_from_end (users_interests : list (list string)) (i : Z) :
  - Z.of_nat (length users_interests) <= i < 0 ->
  exists suggestions,
    user_based_suggestions users_interests
      (Z.of_nat (length users_interests) + i) false = Ok suggestions /\
    user_based_suggestions users_interests i false = Ok suggestions.
Proof.
  intros Hi. set (u := Z.of_nat (length users_interests) + i).
  assert (Hu : 0 <= u < Z.of_nat (length users_interests)) by lia.
  destruct (get_similar_users_without users_interests i Hi) as [similar [Hsi Hsu]].
  fold u in Hsu.
  assert (Hmine : getitem users_interests i = Ok (interests_of users_interests u)).
  { rewrite getitem_negative by exact Hi. rewrite Z.add_comm.
    now apply getitem_interests_of. }
  rewrite (user_based_suggestions_eq users_interests u false _ _ Hsu
             (getitem_interests_of users_interests u Hu)).
  rewrite (user_based_suggestions_eq users_interests i false _ _ Hsi Hmine).
  eexists. split; [reflexivity|]. f_equal. cbv zeta.
  set (q := fun x : string => negb (contains (interests_of users_interests u) x)).
  change (fun p : string * float => negb (contains (interests_of users_interests u) (fst p)))
    with (fun e : string * float => q (fst e)).
  rewrite !ranked_filter.
  - do 2 f_equal. unfold user_based_increments. rewrite !filter_flat_map.
    symmetry. apply flat_map_filter_nil.
    intros [v s] _ Hv. cbn [fst snd] in *.
    apply negb_false_iff, Z.eqb_eq in Hv. subst v.
    apply own_increments_filtered. now intros x Hx.
  - now apply user_based_increments_positive with (i := u).
  - now apply user_based_increments_positive with (i := i).
Qed.

Lemma user_based_suggestions_from_end_witness :
  exists suggestions,
    user_based_suggestions Notebook.users_interests 14 false = Ok suggestions /\
    user_based_suggestions Notebook.users_interests (-1) false = Ok suggestions.
Proof.
  refine (user_based_suggestions_from_end Notebook.users_interests (-1) _).
  vm_compute. split; discriminate || reflexivity.
Defined.

(** With [include_current_interests=True] the two differ: the user's own
    similarity 1.0 is added to each of their interests. *)
Example user_based_suggestions_from_end_unfiltered :
  user_based_suggestions [["a"]; ["a"]]%string 1 true = Ok [("a"%string, 1%float)] /\
  user_based_suggestions [["a"]; ["a"]]%string (-1) true = Ok [("a"%string, 2%float)].
Proof. split; vm_compute; reflexivity. Qed.
